(** * A shallow embedding of the flow view and of the Historian REST client

    Two pieces of the repository are embedded here.

    - [Historian]: the REST client of the Git-like store
      (class [Historian], methods [generateCacheQueryString] and
      [getCommits]).  Promises are modelled by their settled state.
    - [Flow]: the view layer over the collaborative sequence
      ([renderTree], [FlowView.render], [FlowView.queueRender],
      [FlowView.localQueueRender] and the key handlers of
      [FlowView.setEdit]).  The DOM page is a store of lines, the
      measurements of the browser are an explicit [Geometry] argument,
      the sequence is the list of its segments and the calls the view
      makes on it are recorded.

    Offsets are integers ([Z]).  A field that holds [undefined] or [NaN]
    at some point of the program ([adjustedTopChar], [viewportEndChar])
    is an [option Z]. *)

From Stdlib Require Import ZArith Lia Bool List Ascii String.
From stdpp Require Import base option list.

Local Open Scope string_scope.
Local Open Scope list_scope.
Local Open Scope Z_scope.

(** ** JavaScript values and strings *)

(** The values that flow through the [catch] handler of [getCommits]. *)
Inductive JsValue : Type :=
  | VUndefined
  | VNumber (n : Z)
  | VString (s : string)
  | VBool (b : bool)
  | VObject (ref : nat).

(** [a === b] on the modelled values; objects compare by reference. *)
Definition strictEq (a b : JsValue) : bool :=
  match a, b with
  | VUndefined, VUndefined => true
  | VNumber x, VNumber y => Z.eqb x y
  | VString x, VString y => String.eqb x y
  | VBool x, VBool y => Bool.eqb x y
  | VObject x, VObject y => Nat.eqb x y
  | _, _ => false
  end.

Definition strlen (s : string) : Z := Z.of_nat (String.length s).

(** [s.substring(a, b)]: both indices are clamped to [0, length] and
    swapped when out of order. *)
Definition clampIndex (s : string) (i : Z) : nat :=
  Z.to_nat (Z.min (Z.max i 0) (strlen s)).

Definition js_substring (s : string) (a b : Z) : string :=
  let i := clampIndex s a in
  let j := clampIndex s b in
  String.substring (Nat.min i j) (Nat.max i j - Nat.min i j) s.

(** [s.substring(a)]. *)
Definition js_substring_from (s : string) (a : Z) : string :=
  js_substring s a (strlen s).

(** [s.charCodeAt(i)]; [None] is the [NaN] of an index out of range. *)
Definition charCodeAt (s : string) (i : Z) : option Z :=
  if i <? 0 then None
  else match String.get (Z.to_nat i) s with
       | Some c => Some (Z.of_nat (nat_of_ascii c))
       | None => None
       end.

Module CharacterCodes.
Definition linefeed : Z := 10.
Definition space : Z := 32.
End CharacterCodes.

(** [s.charCodeAt(i) !== code]: [NaN] differs from every code. *)
Definition charCodeIsNot (s : string) (i : Z) (code : Z) : bool :=
  match charCodeAt s i with
  | Some c => negb (c =? code)
  | None => true
  end.

(** [s.charAt(i) !== "\n"]: out of range [charAt] is the empty string. *)
Definition charIsNotNewline (s : string) (i : Z) : bool :=
  charCodeIsNot s i CharacterCodes.linefeed.

(** ** The Historian REST client *)

Module Historian.

(** The state of a promise once the event loop has run it. *)
Inductive Promise (A : Type) : Type :=
  | Fulfilled (a : A)
  | Rejected (error : JsValue)
  | Pending.
Arguments Fulfilled {A} a.
Arguments Rejected {A} error.
Arguments Pending {A}.

(** [p.catch(handler)]: the handler sees only a rejection, and what it
    returns settles the result. *)
Definition catch {A : Type} (p : Promise A) (handler : JsValue -> Promise A)
  : Promise A :=
  match p with
  | Fulfilled a => Fulfilled a
  | Rejected e => handler e
  | Pending => Pending
  end.

(** A query string object: its own properties in insertion order. *)
Definition QueryString : Type := list (string * JsValue).

(** [{ ...a, ...b }] where [b] may be [undefined]. *)
Definition spread (a : QueryString) (b : option QueryString) : QueryString :=
  match b with
  | Some q => a ++ q
  | None => a
  end.

Record Historian : Type := {
  endpoint : string;
  historianApi : bool;
  disableCache : bool;
}.

Section Client.
(** The elements of a commit listing are opaque to the client. *)
Variable ICommitDetails : Type.
(** [RestWrapper.get(url, queryString)], which is not part of the
      sources: the settled state of the request. *)
Variable restGet : string -> option QueryString -> Promise (list ICommitDetails).
(** The value of [Date.now()] when the query string is built. *)
Variable now : Z.

Definition generateCacheQueryString (h : Historian) : option QueryString :=
    if disableCache h && historianApi h then
      Some [("disableCache", VBool (disableCache h))]
    else if disableCache h then
      Some [("cacheBust", VNumber now)]
    else None.

Definition getCommits (h : Historian) (sha : string) (count : Z)
    : Promise (list ICommitDetails) :=
    let queryString :=
      spread [("count", VNumber count); ("sha", VString sha)]
             (generateCacheQueryString h) in
    catch (restGet "/commits" (Some queryString))
          (fun error =>
             if strictEq error (VNumber 400) then Fulfilled []
             else Rejected error).
End Client.

End Historian.

(** ** The flow view *)

Module Flow.

(** *** The sequence, as the view reads it *)

(** A text segment; [segId] stands for the identity of the object, which
    the view compares by reference. *)
Record TextSegment : Type := {
  segId : nat;
  text : string;
}.

Inductive Segment : Type :=
  | TextSeg (t : TextSegment)
  | OtherSeg (cachedLength : Z).

Definition segLength (s : Segment) : Z :=
  match s with
  | TextSeg t => strlen (text t)
  | OtherSeg n => n
  end.

(** The leaves of the sequence in document order. *)
Definition Doc : Type := list Segment.

(** [client.getLength()]. *)
Definition getLength (d : Doc) : Z :=
  fold_right (fun s acc => segLength s + acc) 0 d.

(** Modelled from the spec: [mergeTree.getOffset(segment, ...)], which is
    not among the sources; "globally unique logical offsets 0..length" of
    a sequence of segments give a segment the summed length of the
    segments before it. *)
Fixpoint getOffset (d : Doc) (t : TextSegment) : Z :=
  match d with
  | [] => 0
  | TextSeg u :: rest =>
      if Nat.eqb (segId u) (segId t) then 0
      else strlen (text u) + getOffset rest t
  | OtherSeg n :: rest => n + getOffset rest t
  end.

(** [textSegment !== context.prevTopSegment]. *)
Definition notSameSegment (t : TextSegment) (prev : option TextSegment) : bool :=
  match prev with
  | Some u => negb (Nat.eqb (segId t) (segId u))
  | None => true
  end.

(** *** The page *)

Record ISegSpan : Type := {
  innerText : string;
  seg : TextSegment;
  segPos : Z;
  offset : option Z;
  clipOffset : option Z;
}.

(** A line is an inner [div]; its children are spans. *)
Abbreviation Line := (list ISegSpan).

(** The lines created during a pass are kept by identity (their index in
    [lines]), attached to the viewport [div] or not; [children] lists the
    attached ones in document order. *)
Record Dom : Type := {
  children : list nat;
  lines : list Line;
}.

Definition lineOf (d : Dom) (id : nat) : Line :=
  default [] (lines d !! id).

(** The rendered page: the attached lines in order. *)
Definition page (d : Dom) : list Line :=
  map (lineOf d) (children d).

(** [makeInnerDiv()] followed by [div.appendChild(innerDiv)]; the result
    carries the identity of the new line. *)
Definition appendNewLine (d : Dom) : Dom * nat :=
  let id := List.length (lines d) in
  ({| children := children d ++ [id]; lines := lines d ++ [[]] |}, id).

(** [line.appendChild(span)] for a span that has no parent. *)
Definition appendSpanTo (d : Dom) (id : nat) (s : ISegSpan) : Dom :=
  {| children := children d; lines := <[id := lineOf d id ++ [s]]> (lines d) |}.

(** [line.removeChild(line.children[i])]. *)
Definition removeSpanAt (d : Dom) (id : nat) (i : nat) : Dom :=
  {| children := children d; lines := <[id := delete i (lineOf d id)]> (lines d) |}.

(** [div.removeChild(line)]. *)
Definition removeChild (d : Dom) (id : nat) : Dom :=
  {| children := filter (fun k => k <> id) (children d); lines := lines d |}.

(** [div.appendChild(line)] for a line that was detached. *)
Definition appendChild (d : Dom) (id : nat) : Dom :=
  {| children := children d ++ [id]; lines := lines d |}.

(** The chain [x.previousElementSibling], [x.previousElementSibling
    .previousElementSibling], ... of an attached line, nearest first. *)
Fixpoint previousSiblings (kids : list nat) (id : nat) (acc : list nat) : list nat :=
  match kids with
  | [] => []
  | k :: ks => if Nat.eqb k id then acc else previousSiblings ks id (k :: acc)
  end.

(** *** Measurements *)

Record Rect : Type := {
  top : Z;
  bottom : Z;
  left : Z;
  right : Z;
}.

Definition height (r : Rect) : Z := bottom r - top r.

(** The nodes [elmOffToSegOff] meets when it walks previous siblings. *)
Inductive DomNode : Type :=
  | ElementNode (innerTextLength : Z)
  | TextNode (nodeValueLength : Z)
  | OtherNode.

(** What [pointerToElementOffsetWebkit] returns, as far as
    [elmOffToSegOff] reads it: whether [elm] is the span it is compared
    with, the offset inside [node], and the previous siblings of [node]
    and of [elm], nearest first. *)
Record IRangeInfo : Type := {
  elmIsSpan : bool;
  rangeOffset : Z;
  nodePreviousSiblings : list DomNode;
  elmPreviousSiblings : list DomNode;
}.

Definition domNodeLength (n : DomNode) : Z :=
  match n with
  | ElementNode k => k
  | TextNode k => k
  | OtherNode => 0
  end.

Definition elmOffToSegOff (elmOff : IRangeInfo) : Z :=
  let chain :=
    match nodePreviousSiblings elmOff with
    | [] => if negb (elmIsSpan elmOff) then elmPreviousSiblings elmOff else []
    | sibs => sibs
    end in
  fold_left (fun off n => off + domNodeLength n) chain (rangeOffset elmOff).

(** What the browser measures.  Each query sees the page as it is when
    the query is made; a span is named by its line and its index there.
    Pixel measures are integers.  [charsPerViewport] is the value of
    [Math.floor((bounds.height / h) * (bounds.width / w))] and
    [floorScale topChar len] the value of
    [Math.floor((topChar / len) * len)], both computed by the program in
    floating point; on an empty sequence the latter is [NaN] and the
    traversal visits no segment, whatever [floorScale] gives. *)
Record Geometry : Type := {
  bounds : Rect;
  charsPerViewport : Z;
  lineBounds : Dom -> nat -> Rect;
  spanBounds : Dom -> nat -> nat -> Rect;
  spanRects : Dom -> nat -> nat -> list Rect;
  caretRangeFromPoint : Dom -> nat * nat -> Z -> Z -> option IRangeInfo;
  floorScale : Z -> Z -> Z;
}.

(** *** The view *)

Record Cursor : Type := {
  pos : Z;
  parentSpan : option ISegSpan;
}.

(** The fields of [FlowView] that the layout and the scheduler use.  The
    estimates [wEst], [charsPerLine] and [viewportCharCount], quotients
    of measured pixels in the program, are integers here. *)
Record FlowView : Type := {
  wEst : Z;
  viewportCharCount : Z;
  charsPerLine : Z;
  prevTopSegment : option TextSegment;
  adjustedTopChar : option Z;
  viewportEndChar : option Z;
  viewportDiv : list Line;
  longClientId : string;
  topChar : Z;
  cursor : Cursor;
  lastVerticalX : Z;
  pendingRender : bool;
}.

(** [public hEst = 22], never assigned again. *)
Definition hEst : Z := 22.

(** The view as the constructor leaves it; the estimates come from
    [widthEst] and [updateGeometry]. *)
Definition newFlowView (w cpl vcc : Z) (client : string) : FlowView :=
  {| wEst := w; viewportCharCount := vcc; charsPerLine := cpl;
     prevTopSegment := None; adjustedTopChar := None; viewportEndChar := None;
     viewportDiv := []; longClientId := client; topChar := 0;
     cursor := {| pos := 0; parentSpan := None |};
     lastVerticalX := -1; pendingRender := false |}.

Definition setCursor (c : Cursor) (v : FlowView) : FlowView :=
  {| wEst := wEst v; viewportCharCount := viewportCharCount v;
     charsPerLine := charsPerLine v; prevTopSegment := prevTopSegment v;
     adjustedTopChar := adjustedTopChar v; viewportEndChar := viewportEndChar v;
     viewportDiv := viewportDiv v; longClientId := longClientId v;
     topChar := topChar v; cursor := c;
     lastVerticalX := lastVerticalX v; pendingRender := pendingRender v |}.

(** [cursor.pos = p]. *)
Definition setCursorPos (p : Z) (v : FlowView) : FlowView :=
  setCursor {| pos := p; parentSpan := parentSpan (cursor v) |} v.

(** [cursor.assign(span)]: the marker moves into [span]. *)
Definition assign (s : ISegSpan) (v : FlowView) : FlowView :=
  setCursor {| pos := pos (cursor v); parentSpan := Some s |} v.

Definition setPrevTopSegment (t : option TextSegment) (v : FlowView) : FlowView :=
  {| wEst := wEst v; viewportCharCount := viewportCharCount v;
     charsPerLine := charsPerLine v; prevTopSegment := t;
     adjustedTopChar := adjustedTopChar v; viewportEndChar := viewportEndChar v;
     viewportDiv := viewportDiv v; longClientId := longClientId v;
     topChar := topChar v; cursor := cursor v;
     lastVerticalX := lastVerticalX v; pendingRender := pendingRender v |}.

Definition setAdjustedTopChar (a : option Z) (v : FlowView) : FlowView :=
  {| wEst := wEst v; viewportCharCount := viewportCharCount v;
     charsPerLine := charsPerLine v; prevTopSegment := prevTopSegment v;
     adjustedTopChar := a; viewportEndChar := viewportEndChar v;
     viewportDiv := viewportDiv v; longClientId := longClientId v;
     topChar := topChar v; cursor := cursor v;
     lastVerticalX := lastVerticalX v; pendingRender := pendingRender v |}.

Definition setViewportEndChar (e : option Z) (v : FlowView) : FlowView :=
  {| wEst := wEst v; viewportCharCount := viewportCharCount v;
     charsPerLine := charsPerLine v; prevTopSegment := prevTopSegment v;
     adjustedTopChar := adjustedTopChar v; viewportEndChar := e;
     viewportDiv := viewportDiv v; longClientId := longClientId v;
     topChar := topChar v; cursor := cursor v;
     lastVerticalX := lastVerticalX v; pendingRender := pendingRender v |}.

Definition setViewportDiv (l : list Line) (v : FlowView) : FlowView :=
  {| wEst := wEst v; viewportCharCount := viewportCharCount v;
     charsPerLine := charsPerLine v; prevTopSegment := prevTopSegment v;
     adjustedTopChar := adjustedTopChar v; viewportEndChar := viewportEndChar v;
     viewportDiv := l; longClientId := longClientId v;
     topChar := topChar v; cursor := cursor v;
     lastVerticalX := lastVerticalX v; pendingRender := pendingRender v |}.

Definition setTopChar (t : Z) (v : FlowView) : FlowView :=
  {| wEst := wEst v; viewportCharCount := viewportCharCount v;
     charsPerLine := charsPerLine v; prevTopSegment := prevTopSegment v;
     adjustedTopChar := adjustedTopChar v; viewportEndChar := viewportEndChar v;
     viewportDiv := viewportDiv v; longClientId := longClientId v;
     topChar := t; cursor := cursor v;
     lastVerticalX := lastVerticalX v; pendingRender := pendingRender v |}.

Definition setLastVerticalX (x : Z) (v : FlowView) : FlowView :=
  {| wEst := wEst v; viewportCharCount := viewportCharCount v;
     charsPerLine := charsPerLine v; prevTopSegment := prevTopSegment v;
     adjustedTopChar := adjustedTopChar v; viewportEndChar := viewportEndChar v;
     viewportDiv := viewportDiv v; longClientId := longClientId v;
     topChar := topChar v; cursor := cursor v;
     lastVerticalX := x; pendingRender := pendingRender v |}.

Definition setPendingRender (b : bool) (v : FlowView) : FlowView :=
  {| wEst := wEst v; viewportCharCount := viewportCharCount v;
     charsPerLine := charsPerLine v; prevTopSegment := prevTopSegment v;
     adjustedTopChar := adjustedTopChar v; viewportEndChar := viewportEndChar v;
     viewportDiv := viewportDiv v; longClientId := longClientId v;
     topChar := topChar v; cursor := cursor v;
     lastVerticalX := lastVerticalX v; pendingRender := b |}.

(** Comparisons against a field that may hold [undefined] or [NaN]: they
    are false then. *)
Definition gtOpt (a : Z) (b : option Z) : bool :=
  match b with Some y => a >? y | None => false end.
Definition optLt (a : option Z) (b : Z) : bool :=
  match a with Some x => x <? b | None => false end.

(** *** One layout pass: [renderTree] *)

(** The variables of [renderTree] that its inner functions share, next to
    the view ([context]) and the page.  [firstDiv] is the line with
    identity [0]. *)
Record Pass : Type := {
  context : FlowView;
  dom : Dom;
  innerDiv : nat;
  splitTopSeg : bool;
  charLength : Z;
  firstSeg : bool;
  cursorRendered : bool;
}.

Definition firstDiv : nat := 0%nat.

Definition setContext (v : FlowView) (p : Pass) : Pass :=
  {| context := v; dom := dom p; innerDiv := innerDiv p;
     splitTopSeg := splitTopSeg p; charLength := charLength p;
     firstSeg := firstSeg p; cursorRendered := cursorRendered p |}.

Definition setDom (d : Dom) (p : Pass) : Pass :=
  {| context := context p; dom := d; innerDiv := innerDiv p;
     splitTopSeg := splitTopSeg p; charLength := charLength p;
     firstSeg := firstSeg p; cursorRendered := cursorRendered p |}.

Definition setInnerDiv (id : nat) (p : Pass) : Pass :=
  {| context := context p; dom := dom p; innerDiv := id;
     splitTopSeg := splitTopSeg p; charLength := charLength p;
     firstSeg := firstSeg p; cursorRendered := cursorRendered p |}.

Definition setSplitTopSeg (b : bool) (p : Pass) : Pass :=
  {| context := context p; dom := dom p; innerDiv := innerDiv p;
     splitTopSeg := b; charLength := charLength p;
     firstSeg := firstSeg p; cursorRendered := cursorRendered p |}.

Definition setCharLength (n : Z) (p : Pass) : Pass :=
  {| context := context p; dom := dom p; innerDiv := innerDiv p;
     splitTopSeg := splitTopSeg p; charLength := n;
     firstSeg := firstSeg p; cursorRendered := cursorRendered p |}.

Definition setFirstSeg (b : bool) (p : Pass) : Pass :=
  {| context := context p; dom := dom p; innerDiv := innerDiv p;
     splitTopSeg := splitTopSeg p; charLength := charLength p;
     firstSeg := b; cursorRendered := cursorRendered p |}.

Definition setCursorRendered (b : bool) (p : Pass) : Pass :=
  {| context := context p; dom := dom p; innerDiv := innerDiv p;
     splitTopSeg := splitTopSeg p; charLength := charLength p;
     firstSeg := firstSeg p; cursorRendered := b |}.

(** [innerDiv.appendChild(span)]. *)
Definition appendSpan (s : ISegSpan) (p : Pass) : Pass :=
  setDom (appendSpanTo (dom p) (innerDiv p) s) p.

(** [makeSegSpan]; the [clipChar] argument is never read, and the style
    properties copied onto the span play no part in the layout model. *)
Definition makeSegSpan (segText : string) (textSegment : TextSegment)
    (off startChar : Z) : ISegSpan :=
  {| innerText := segText; seg := textSegment; segPos := startChar;
     offset := if off >? 0 then Some off else None;
     clipOffset := None |}.

Definition segmentToSpan (segText : string) (textSegment : TextSegment)
    (off startChar : Z) (renderCursor : bool) (p : Pass) : Pass :=
  let startPos := startChar + off in
  let endPos := startPos + strlen segText in
  let cpos := pos (cursor (context p)) in
  if renderCursor && (cpos >=? startPos) && (cpos <? endPos) then
    let cursorRelPos := cpos - startPos in
    let relSpan := makeSegSpan (js_substring_from segText cursorRelPos)
                     textSegment (cursorRelPos + off) startChar in
    let p1 :=
      if cursorRelPos >? 0 then
        appendSpan (makeSegSpan (js_substring segText 0 cursorRelPos)
                      textSegment off startChar) p
      else p in
    let p2 := setCursorRendered true p1 in
    let p3 := appendSpan relSpan p2 in
    setContext (assign relSpan (context p3)) p3
  else
    appendSpan (makeSegSpan segText textSegment off startChar) p.

(** The ordinates the probe loop of [renderFirstSegment] visits: [y],
    [y + hEst], ... as long as they do not exceed [innerBounds.bottom]. *)
Fixpoint probeOrdinates (n : nat) (y : Z) : list Z :=
  match n with
  | O => []
  | S n' => y :: probeOrdinates n' (y + hEst)
  end.

Definition probeCount (y bottomY : Z) : nat :=
  if y <=? bottomY then S (Z.to_nat ((bottomY - y) / hEst)) else O.

(** The [do ... while (offset < start)] loop; the result is [prevOffset]
    on exit.  An exhausted list of ordinates is the exit by
    [y > innerBounds.bottom]. *)
Fixpoint probeLoop (hit : Z -> option IRangeInfo) (start : Z) (ys : list Z)
    (off : Z) : Z :=
  match ys with
  | [] => off
  | y :: ys' =>
      match hit y with
      | None => off
      | Some elmOff =>
          let off' := elmOffToSegOff elmOff in
          if off' <? start then probeLoop hit start ys' off' else off
      end
  end.

(** [while ((offset >= 1) && (text.charCodeAt(offset - 1) !== space))
    offset--]. *)
Fixpoint trimTopFrom (txt : string) (k : nat) : nat :=
  match k with
  | O => O
  | S k' =>
      if charCodeIsNot txt (Z.of_nat k') CharacterCodes.space
      then trimTopFrom txt k' else S k'
  end.

Definition trimTop (txt : string) (off : Z) : Z :=
  if off >=? 1 then Z.of_nat (trimTopFrom txt (Z.to_nat off)) else off.

(** [renderFirstSegment]: the pass after the probe span has been added,
    measured and removed again, the text that is kept and [segOffset]. *)
Definition renderFirstSegment (G : Geometry) (segPos0 start : Z)
    (txt : string) (textSegment : TextSegment) (p : Pass)
    : Pass * string * Z :=
  let p1 := segmentToSpan txt textSegment 0 segPos0 false p in
  let innerBounds := lineBounds G (dom p1) (innerDiv p1) in
  let x := left innerBounds + wEst (context p1) / 2 in
  let y := top innerBounds + hEst / 2 in
  let prevOffset :=
    probeLoop (fun y' => caretRangeFromPoint G (dom p1) (innerDiv p1, O) x y')
      start (probeOrdinates (probeCount y (bottom innerBounds)) y) 0 in
  let p2 := setDom (removeSpanAt (dom p1) (innerDiv p1) O) p1 in
  let off := trimTop txt prevOffset in
  (p2, js_substring_from txt off, off).

Definition freshDiv (p : Pass) : Pass :=
  let '(d, id) := appendNewLine (dom p) in
  setInnerDiv id (setDom d p).

(** The loop that removes lines from the bottom while their bottom edge
    exceeds [constraint]; [cands] is the chain of previous siblings that
    [pruneDiv] runs through.  The result is the page and [lastPruned]. *)
Fixpoint pruneLines (G : Geometry) (constraint : Z) (cands : list nat)
    (d : Dom) (lastPruned : option nat) : Dom * option nat :=
  match cands with
  | [] => (d, lastPruned)
  | pruneDiv :: rest =>
      if bottom (lineBounds G d pruneDiv) >? constraint then
        pruneLines G constraint rest (removeChild d pruneDiv) (Some pruneDiv)
      else (d, lastPruned)
  end.

(** The [for (j = rects.length - 1; j >= 0; j--)] search for the last
    rectangle of the span that fits; [(0, 0)] when none does. *)
Definition lastFittingPoint (rects : list Rect) (constraint w h : Z) : Z * Z :=
  match List.find (fun r => bottom r <=? constraint) (rev rects) with
  | Some r => (right r - w / 2, bottom r - h / 2)
  | None => (0, 0)
  end.

(** [while ((segClip > 0) && (text.charCodeAt(segClip) !== space) &&
    (text.charAt(segClip) !== "\n")) segClip--]. *)
Fixpoint clipBackFrom (txt : string) (k : nat) : nat :=
  match k with
  | O => O
  | S k' =>
      if charCodeIsNot txt (Z.of_nat (S k')) CharacterCodes.space
         && charIsNotNewline txt (Z.of_nat (S k'))
      then clipBackFrom txt k' else S k'
  end.

Definition clipBack (txt : string) (segClip : Z) : Z :=
  if segClip >? 0 then Z.of_nat (clipBackFrom txt (Z.to_nat segClip))
  else segClip.

(** The loop over the spans of [lastPruned].  [lastPruned.children] is
    live: a span moved into [innerDiv] leaves it, and [i] indexes what
    remains.  [n] bounds the number of rounds by the number of spans at
    the start.  [None] is the [TypeError] of [elmOffToSegOff] called on
    the [undefined] that [pointerToElementOffsetWebkit] returns without a
    range. *)
Fixpoint reinsertSpans (G : Geometry) (constraint : Z) (lastPruned : nat)
    (n : nat) (i : nat) (p : Pass) (lastSeg : option TextSegment)
    (lastSegOff : Z) : option (Pass * option TextSegment * Z) :=
  match n with
  | O => Some (p, lastSeg, lastSegOff)
  | S n' =>
      match lineOf (dom p) lastPruned !! i with
      | None => Some (p, lastSeg, lastSegOff)
      | Some prunedSpan =>
          let sb := spanBounds G (dom p) lastPruned i in
          if bottom sb <=? constraint then
            let d1 := removeSpanAt (dom p) lastPruned i in
            let d2 := appendSpanTo d1 (innerDiv p) prunedSpan in
            reinsertSpans G constraint lastPruned n' (S i) (setDom d2 p)
              (Some (seg prunedSpan)) (strlen (text (seg prunedSpan)))
          else if constraint - top sb >? hEst then
            let rects := spanRects G (dom p) lastPruned i in
            let '(x, y) :=
              lastFittingPoint rects constraint (wEst (context p)) hEst in
            if y >? 0 then
              match caretRangeFromPoint G (dom p) (lastPruned, i) x y with
              | None => None
              | Some elmOff =>
                  let textSeg := seg prunedSpan in
                  let segClip := clipBack (text textSeg) (elmOffToSegOff elmOff + 1) in
                  let p' :=
                    if segClip >? 0 then
                      segmentToSpan (js_substring (text textSeg) 0 segClip)
                        textSeg 0 (segPos prunedSpan) true p
                    else p in
                  Some (p', Some textSeg, segClip)
              end
            else Some (p, lastSeg, lastSegOff)
          else Some (p, lastSeg, lastSegOff)
      end
  end.

Definition endsWithNewline (s : string) : bool :=
  match charCodeAt s (strlen s - 1) with
  | Some c => c =? CharacterCodes.linefeed
  | None => false
  end.

(** The part of [renderSegment] that runs once the page overflows or the
    last segment is reached; the boolean is the value returned to the
    traversal. *)
Definition overflowCheck (G : Geometry) (d : Doc) (last : bool) (p : Pass)
    : option (Pass * bool) :=
  let constraint := height (bounds G) + top (bounds G) in
  let lastInnerBounds := lineBounds G (dom p) (innerDiv p) in
  if (bottom lastInnerBounds >? constraint) || last then
    let p1 :=
      if (0 <? Z.of_nat (List.length (lineOf (dom p) (innerDiv p))))
      then freshDiv p else p in
    match previousSiblings (children (dom p1)) (innerDiv p1) [] with
    | [] => Some (p1, true)
    | cands =>
        let '(d1, lastPruned) := pruneLines G constraint cands (dom p1) None in
        let p2 := setDom d1 p1 in
        match lastPruned with
        | None => Some (p2, false)
        | Some lp =>
            let p3 := setDom (appendChild (dom p2) lp) p2 in
            match reinsertSpans G constraint lp
                    (S (List.length (lineOf (dom p3) lp))) O p3 None 0 with
            | None => None
            | Some (p4, lastSeg, lastSegOff) =>
                let p5 := setDom (removeChild (dom p4) lp) p4 in
                match lastSeg with
                | Some ls =>
                    let segStart := getOffset d ls in
                    Some (setContext
                            (setViewportEndChar (Some (segStart + lastSegOff))
                               (context p5)) p5, false)
                | None => Some (p5, false)
                end
            end
        end
    end
  else Some (p, true).

(** [renderSegment], the visitor handed to the traversal; [stop] is its
    [end] argument. *)
Definition renderSegment (G : Geometry) (d : Doc) (segment : Segment)
    (segPos0 start stop : Z) (p : Pass) : option (Pass * bool) :=
  match segment with
  | OtherSeg _ => Some (p, true)
  | TextSeg textSegment =>
      let last := strlen (text textSegment) =? stop in
      let p1 :=
        if firstSeg p && notSameSegment textSegment (prevTopSegment (context p))
        then setContext (setPrevTopSegment (Some textSegment) (context p))
               (setSplitTopSeg false p)
        else p in
      let '(p2, segText, segOffset) :=
        if start >? 0 then
          let '(q, segText, segOffset, adjusted) :=
            if splitTopSeg p1 then
              let '(q, segText, segOffset) :=
                renderFirstSegment G segPos0 start (text textSegment) textSegment p1 in
              let actualStart := strlen (text textSegment) - strlen segText in
              (q, segText, segOffset, topChar (context q) + (actualStart - start))
            else (p1, text textSegment, 0, topChar (context p1) - start) in
          let v := setAdjustedTopChar (Some adjusted) (context q) in
          let v' := if pos (cursor v) <? adjusted then setCursorPos adjusted v else v in
          (setContext v' q, segText, segOffset)
        else if firstSeg p1 then
          (setContext (setAdjustedTopChar (Some (topChar (context p1))) (context p1)) p1,
           text textSegment, 0)
        else (p1, text textSegment, 0) in
      let p3 := setFirstSeg false p2 in
      let p4 := setCharLength (charLength p3 + strlen segText) p3 in
      let p5 := segmentToSpan segText textSegment segOffset segPos0 true p4 in
      let p6 := if endsWithNewline segText then freshDiv p5 else p5 in
      if (charLength p6 >? charsPerViewport G) || last then
        overflowCheck G d last p6
      else Some (p6, true)
  end.

(** Modelled from the spec: the traversal of the sequence
    ([mergeTree.mapRange], which is not among the sources).  "traverse
    (fromOffset, visitor(segment, segmentStartOffset) -> continue: bool):
    lazy, finite, restartable; visitor returning false stops early".  The
    visitor also receives the requested start and the end of the range
    relative to the segment it is given, which is how [renderSegment]
    reads its [start] and [end]; a segment that ends at or before the
    start is skipped. *)
Fixpoint nodeMap (leaf : Segment -> Z -> Z -> Z -> Pass -> option (Pass * bool))
    (segs : list Segment) (at_ start stop : Z) (p : Pass) : option Pass :=
  match segs with
  | [] => Some p
  | s :: rest =>
      let len := segLength s in
      if (stop >? 0) && (len >? 0) && (start <? len) then
        match leaf s at_ start stop p with
        | None => None
        | Some (p', go) =>
            if go then nodeMap leaf rest (at_ + len) (start - len) (stop - len) p'
            else Some p'
        end
      else nodeMap leaf rest (at_ + len) (start - len) (stop - len) p
  end.

Definition mapRange (leaf : Segment -> Z -> Z -> Z -> Pass -> option (Pass * bool))
    (d : Doc) (start : Z) (p : Pass) : option Pass :=
  nodeMap leaf d 0 start (getLength d) p.

(** [lastSpan.clipOffset] as a condition: defined and not zero. *)
Definition truthy (o : option Z) : bool :=
  match o with Some z => negb (z =? 0) | None => false end.

Definition findLastChar (d : Dom) : Z :=
  match last (children d) with
  | Some lastChild =>
      let child :=
        if (Z.of_nat (List.length (lineOf d lastChild)) =? 0) then
          head (previousSiblings (children d) lastChild [])
        else Some lastChild in
      match child with
      | Some c =>
          match last (lineOf d c) with
          | Some lastSpan =>
              if truthy (clipOffset lastSpan) then default 0 (clipOffset lastSpan)
              else segPos lastSpan + strlen (innerText lastSpan) - 1
          | None => -1
          end
      | None => -1
      end
  | None => -1
  end.

(** The state of a pass when the traversal starts: [render] has cleared
    the viewport, and [renderTree] has appended the first line. *)
Definition startPass (v : FlowView) : Pass :=
  {| context := setViewportEndChar (Some (-1)) v;
     dom := {| children := [firstDiv]; lines := [[]] |};
     innerDiv := firstDiv; splitTopSeg := true; charLength := 0;
     firstSeg := true; cursorRendered := false |}.

(** [if (context.viewportEndChar < 0) { ... }] after the traversal. *)
Definition settleViewportEnd (p : Pass) : Pass :=
  if optLt (viewportEndChar (context p)) 0 then
    let endChar := findLastChar (dom p) in
    if endChar <? 0 then
      setContext
        (setViewportEndChar
           (match adjustedTopChar (context p) with
            | Some a => Some (charLength p + a)
            | None => None
            end) (context p)) p
    else setContext (setViewportEndChar (Some endChar) (context p)) p
  else p.

(** [if ((!cursorRendered) || (context.cursor.pos >
    context.viewportEndChar)) { ... }], the last step of [renderTree]. *)
Definition placeCursor (p : Pass) : Pass :=
  if negb (cursorRendered p)
     || gtOpt (pos (cursor (context p))) (viewportEndChar (context p)) then
    match lineOf (dom p) firstDiv with
    | firstSpan :: _ =>
        let curpos :=
          if truthy (offset firstSpan)
          then segPos firstSpan + default 0 (offset firstSpan)
          else segPos firstSpan in
        setContext (assign firstSpan (setCursorPos curpos (context p))) p
    | [] => p
    end
  else p.

(** [renderTree(div, pos, client, context)] on a cleared [div]: the pass
    at its end, or [None] when the visitor throws. *)
Definition renderTreePass (G : Geometry) (d : Doc) (start : Z) (v : FlowView)
    : option Pass :=
  match mapRange (renderSegment G d) d start (startPass v) with
  | None => None
  | Some p => Some (placeCursor (settleViewportEnd p))
  end.

Definition renderTree (G : Geometry) (d : Doc) (start : Z) (v : FlowView)
    : option FlowView :=
  match renderTreePass G d start v with
  | None => None
  | Some p => Some (setViewportDiv (page (dom p)) (context p))
  end.

(** *** [FlowView.render] *)

Definition clearSubtree (v : FlowView) : FlowView := setViewportDiv [] v.

(** [render(topChar?, changed = false)].  The method has no [return]
    with a value: the first component of the result is what a caller
    receives.  [None] is an exception of the layout pass.  The scroll
    bubble and the status messages, which the layout does not read, are
    left out. *)
Definition render (G : Geometry) (d : Doc) (topCharArg : option Z)
    (changed : bool) (v : FlowView) : option (JsValue * FlowView) :=
  let len := getLength d in
  let layout (v1 : FlowView) :=
    let start := floorScale G (topChar v1) len in
    match renderTree G d start (clearSubtree v1) with
    | Some v2 => Some (VUndefined, v2)
    | None => None
    end in
  match topCharArg with
  | Some t =>
      if ((topChar v =? t) || ((topChar v =? 0) && (t <=? 0))) && negb changed
      then Some (VUndefined, v)
      else
        let v1 := setTopChar t v in
        let v2 := if topChar v1 >=? len
                  then setTopChar (len - charsPerLine v1) v1 else v1 in
        let v3 := if topChar v2 <? 0 then setTopChar 0 v2 else v2 in
        layout v3
  | None => layout v
  end.

(** [loadFinished()], without its log line. *)
Definition loadFinished (G : Geometry) (d : Doc) (v : FlowView)
    : option (JsValue * FlowView) :=
  render G d (Some 0) true v.

(** *** Messages of the sequence *)

Module API.

Inductive MergeTreeDeltaType : Type :=
  | INSERT
  | REMOVE
  | ANNOTATE
  | GROUP.

Record IMergeTreeOp : Type := {
  type : MergeTreeDeltaType;
  pos1 : Z;
  pos2 : Z;
  text : string;
}.

Record ISequencedMessage : Type := {
  clientId : string;
  op : option IMergeTreeOp;
}.

End API.

(** *** The render scheduler *)

(** The closures handed to [window.requestAnimationFrame]. *)
Inductive FrameCallback : Type :=
  | LocalRender
  | RemoteRender (msg : API.ISequencedMessage).

(** The calls the view makes on the shared string. *)
Inductive SeqCall : Type :=
  | InsertText (t : string) (at_ : Z)
  | RemoveText (start stop : Z).

(** The view, the calls it has issued to the sequence and the animation
    frame callbacks that are waiting, oldest first. *)
Record World : Type := {
  view : FlowView;
  issued : list SeqCall;
  frameRequests : list FrameCallback;
}.

Definition newWorld (v : FlowView) : World :=
  {| view := v; issued := []; frameRequests := [] |}.

(** The cursor rule inside the callback of [queueRender]. *)
Definition rebaseCursor (delta : API.IMergeTreeOp) (v : FlowView) : FlowView :=
  let c := pos (cursor v) in
  match API.type delta with
  | API.INSERT =>
      if API.pos1 delta <=? c
      then setCursorPos (c + strlen (API.text delta)) v else v
  | API.REMOVE =>
      if API.pos2 delta <=? c
      then setCursorPos (c - (API.pos2 delta - API.pos1 delta)) v
      else if c >=? API.pos1 delta then setCursorPos (API.pos1 delta) v
      else v
  | _ => v
  end.

(** The callback of [queueRender] up to its call of [render]. *)
Definition remoteCallbackRebase (msg : API.ISequencedMessage) (v : FlowView)
    : FlowView :=
  let v1 := setPendingRender false v in
  if negb (String.eqb (API.clientId msg) (longClientId v1)) then
    match API.op msg with
    | Some delta => rebaseCursor delta v1
    | None => v1
    end
  else v1.

(** The callback of [queueRender]. *)
Definition remoteCallback (G : Geometry) (d : Doc)
    (msg : API.ISequencedMessage) (v : FlowView) : option FlowView :=
  let v1 := remoteCallbackRebase msg v in
  snd <$> render G d (Some (topChar v1)) true v1.

(** The callback of [localQueueRender]. *)
Definition localCallback (G : Geometry) (d : Doc) (v : FlowView)
    : option FlowView :=
  let v1 := setPendingRender false v in
  snd <$> render G d (Some (topChar v1)) true v1.

Definition runCallback (G : Geometry) (d : Doc) (cb : FrameCallback)
    (v : FlowView) : option FlowView :=
  match cb with
  | LocalRender => localCallback G d v
  | RemoteRender msg => remoteCallback G d msg v
  end.

(** The view a callback hands to [render]. *)
Definition beforeLayout (cb : FrameCallback) (v : FlowView) : FlowView :=
  match cb with
  | LocalRender => setPendingRender false v
  | RemoteRender msg => remoteCallbackRebase msg v
  end.

Definition localQueueRender (w : World) : World :=
  {| view := setPendingRender true (view w);
     issued := issued w;
     frameRequests := frameRequests w ++ [LocalRender] |}.

(** [queueRender(msg)]; [None] is a missing message. *)
Definition queueRender (msg : option API.ISequencedMessage) (w : World) : World :=
  match msg with
  | Some m =>
      if negb (pendingRender (view w)) && bool_decide (is_Some (API.op m)) then
        {| view := setPendingRender true (view w);
           issued := issued w;
           frameRequests := frameRequests w ++ [RemoteRender m] |}
      else w
  | None => w
  end.

(** An animation frame: the waiting callbacks run in the order of their
    requests, against the sequence as it is then. *)
Fixpoint runCallbacks (G : Geometry) (d : Doc) (cbs : list FrameCallback)
    (v : FlowView) : option FlowView :=
  match cbs with
  | [] => Some v
  | cb :: rest =>
      match runCallback G d cb v with
      | Some v' => runCallbacks G d rest v'
      | None => None
      end
  end.

Definition animationFrame (G : Geometry) (d : Doc) (w : World) : option World :=
  match runCallbacks G d (frameRequests w) (view w) with
  | Some v => Some {| view := v; issued := issued w; frameRequests := [] |}
  | None => None
  end.

(** *** Key handlers of [setEdit] *)

(** The keys of [keydownHandler] that the model covers.  Paging and the
    vertical arrows, which go through timers and hit testing, are not
    among them; [OtherKey] is a key the handler ignores. *)
Inductive Key : Type :=
  | Backspace
  | Home
  | End_
  | RightArrow
  | LeftArrow
  | OtherKey.

Definition withView (v : FlowView) (w : World) : World :=
  {| view := v; issued := issued w; frameRequests := frameRequests w |}.

Definition issue (c : SeqCall) (w : World) : World :=
  {| view := view w; issued := issued w ++ [c]; frameRequests := frameRequests w |}.

Definition keydownHandler (G : Geometry) (d : Doc) (k : Key) (w : World)
    : option World :=
  let v := setLastVerticalX (-1) (view w) in
  match k with
  | Backspace =>
      let v1 := setCursorPos (pos (cursor v) - 1) v in
      let c := pos (cursor v1) in
      Some (localQueueRender (issue (RemoveText c (c + 1)) (withView v1 w)))
  | Home =>
      let v1 := setCursorPos 0 v in
      (fun r => withView (snd r) w) <$> render G d (Some 0) false v1
  | End_ =>
      let halfport := viewportCharCount v / 2 in
      let topChar' := getLength d - halfport in
      let v1 := setCursorPos topChar' v in
      (fun r => withView (snd r) w) <$> render G d (Some topChar') false v1
  | RightArrow =>
      let v1 := setCursorPos (pos (cursor v) + 1) v in
      (fun r => withView (snd r) w) <$> render G d (Some (topChar v1)) true v1
  | LeftArrow =>
      let v1 := setCursorPos (pos (cursor v) - 1) v in
      (fun r => withView (snd r) w) <$> render G d (Some (topChar v1)) true v1
  | OtherKey => Some (withView v w)
  end.

(** [String.fromCharCode(code)] for a code below 256. *)
Definition fromCharCode (code : Z) : string :=
  String (ascii_of_nat (Z.to_nat code)) EmptyString.

Definition keypressHandler (charCode : Z) (w : World) : World :=
  let v := view w in
  let p := pos (cursor v) in
  let v1 := setCursorPos (p + 1) v in
  let code := if charCode =? 13 then CharacterCodes.linefeed else charCode in
  localQueueRender (issue (InsertText (fromCharCode code) p) (withView v1 w)).

(** What can happen to the view between two scheduling points. *)
Inductive Event : Type :=
  | KeyDown (k : Key)
  | KeyPress (charCode : Z)
  | OpReceived (msg : option API.ISequencedMessage)
  | AnimationFrame.

(** One event, against the sequence as it is when the event is handled. *)
Definition step (G : Geometry) (d : Doc) (e : Event) (w : World) : option World :=
  match e with
  | KeyDown k => keydownHandler G d k w
  | KeyPress c => Some (keypressHandler c w)
  | OpReceived msg => Some (queueRender msg w)
  | AnimationFrame => animationFrame G d w
  end.

Fixpoint run (G : Geometry) (trace : list (Doc * Event)) (w : World) : option World :=
  match trace with
  | [] => Some w
  | (d, e) :: rest =>
      match step G d e w with
      | Some w' => run G rest w'
      | None => None
      end
  end.

End Flow.

(** ** A monospace browser

    A concrete [Geometry], the input of the worked examples: every
    character is [charW] pixels wide and [hEst] pixels high, a line wraps
    after [cols] characters, the attached lines are stacked from the top
    of the viewport, which shows [rows] rows, and a line without text has
    no height.  [floorScale] is the identity, the value of the floating
    point expression at the offsets and lengths of the examples. *)

Module Mono.
Import Flow.

Section Browser.
Variables charW cols rows : Z.

Definition lineLen (d : Dom) (id : nat) : Z :=
  fold_right (fun s acc => strlen (innerText s) + acc) 0 (lineOf d id).

Definition rowsOf (n : Z) : Z :=
  if n =? 0 then 0 else (n + cols - 1) / cols.

Definition lineTop (d : Dom) (id : nat) : Z :=
  hEst * fold_right (fun k acc => rowsOf (lineLen d k) + acc) 0
           (previousSiblings (children d) id []).

Definition monoLineBounds (d : Dom) (id : nat) : Rect :=
  {| top := lineTop d id;
     bottom := lineTop d id + hEst * rowsOf (lineLen d id);
     left := 0; right := cols * charW |}.

(** The index, in the text of its line, of the first character of span
    [i]. *)
Definition spanFrom (d : Dom) (id i : nat) : Z :=
  fold_right (fun s acc => strlen (innerText s) + acc) 0 (take i (lineOf d id)).

Definition spanLen (d : Dom) (id i : nat) : Z :=
  match lineOf d id !! i with
  | Some s => strlen (innerText s)
  | None => 0
  end.

Definition firstRow (d : Dom) (id i : nat) : Z := spanFrom d id i / cols.

Definition lastRow (d : Dom) (id i : nat) : Z :=
  if spanLen d id i =? 0 then firstRow d id i
  else (spanFrom d id i + spanLen d id i - 1) / cols.

Definition monoSpanBounds (d : Dom) (id i : nat) : Rect :=
  {| top := lineTop d id + hEst * firstRow d id i;
     bottom := lineTop d id + hEst * (lastRow d id i + 1);
     left := 0; right := cols * charW |}.

Definition rowRect (d : Dom) (id i : nat) (r : Z) : Rect :=
  let s := spanFrom d id i in
  let e := s + spanLen d id i in
  {| top := lineTop d id + hEst * r;
     bottom := lineTop d id + hEst * (r + 1);
     left := charW * (if r =? firstRow d id i then s mod cols else 0);
     right := charW * (if r =? lastRow d id i then (e - 1) mod cols + 1 else cols) |}.

Definition monoSpanRects (d : Dom) (id i : nat) : list Rect :=
  map (fun k => rowRect d id i (firstRow d id i + Z.of_nat k))
      (seq 0 (Z.to_nat (lastRow d id i - firstRow d id i + 1))).

(** The span of a line that holds the character with index [k], with the
    index of that character inside the span and the lengths of the spans
    before it, nearest first. *)
Fixpoint locate (spans : Line) (j : nat) (k : Z) (before : list DomNode)
    : option (nat * Z * list DomNode) :=
  match spans with
  | [] => None
  | s :: rest =>
      let n := strlen (innerText s) in
      match rest with
      | [] => Some (j, Z.min k n, before)
      | _ => if k <? n then Some (j, k, before)
             else locate rest (S j) (k - n) (ElementNode n :: before)
      end
  end.

Definition monoCaret (d : Dom) (target : nat * nat) (x y : Z) : option IRangeInfo :=
  match List.find (fun id => (top (monoLineBounds d id) <=? y)
                             && (y <? bottom (monoLineBounds d id)))
                  (children d) with
  | None => None
  | Some id =>
      let row := (y - lineTop d id) / hEst in
      let col := Z.min (Z.max (x / charW) 0) cols in
      let k := Z.min (row * cols + col) (lineLen d id) in
      match locate (lineOf d id) O k [] with
      | None => None
      | Some (j, within, before) =>
          Some {| elmIsSpan := Nat.eqb id (fst target) && Nat.eqb j (snd target);
                  rangeOffset := within;
                  nodePreviousSiblings := [];
                  elmPreviousSiblings := before |}
      end
  end.

Definition geometry : Geometry :=
  {| bounds := {| top := 0; bottom := hEst * rows; left := 0; right := cols * charW |};
     charsPerViewport := rows * cols;
     lineBounds := monoLineBounds;
     spanBounds := monoSpanBounds;
     spanRects := monoSpanRects;
     caretRangeFromPoint := monoCaret;
     floorScale := fun t _ => t |}.

End Browser.
End Mono.

(** ** Properties of the view, as predicates *)

Module Props.
Import Flow.

(** [0 <= cursor.pos <= length]. *)
Definition cursorInRange (v : FlowView) (len : Z) : Prop :=
  0 <= pos (cursor v) <= len.

(** Modelled from the spec: what an op of the observation stream means
    for the sequence, which is not among the sources.  "Remote insertion
    of n characters at offset p" lies inside the sequence and makes it
    [n] characters longer; "Remote removal of range [p, q)" lies inside
    it and makes it [q - p] characters shorter. *)
Definition wellFormedOp (delta : API.IMergeTreeOp) (len : Z) : Prop :=
  match API.type delta with
  | API.INSERT => 0 <= API.pos1 delta <= len
  | API.REMOVE => 0 <= API.pos1 delta <= API.pos2 delta /\ API.pos2 delta <= len
  | _ => True
  end.

Definition lengthAfter (delta : API.IMergeTreeOp) (len : Z) : Z :=
  match API.type delta with
  | API.INSERT => len + strlen (API.text delta)
  | API.REMOVE => len - (API.pos2 delta - API.pos1 delta)
  | _ => len
  end.

(** A burst of notifications reaching [queueRender] one after the other. *)
Definition deliver (msgs : list API.ISequencedMessage) (w : World) : World :=
  fold_left (fun w' m => queueRender (Some m) w') msgs w.

(** The view with the pending flag cleared and the cursor rule applied
    for every message of a burst, in arrival order. *)
Definition rebaseAll (msgs : list API.ISequencedMessage) (v : FlowView) : FlowView :=
  fold_left (fun v' m => remoteCallbackRebase m v') msgs v.

(** The offset of the first character of a span. *)
Definition spanStart (s : ISegSpan) : Z := segPos s + default 0 (offset s).

(** The first span of the rendered page. *)
Definition firstRenderedSpan (d : Dom) : option ISegSpan :=
  head (concat (page d)).

(** The condition under which [renderTree] places the cursor anew. *)
Definition cursorOffPage (p : Pass) : Prop :=
  cursorRendered p = false
  \/ gtOpt (pos (cursor (context p))) (viewportEndChar (context p)) = true.




(** The condition on which [render] returns at once. *)
Definition returnsEarly (t : Z) (changed : bool) (v : FlowView) : bool :=
  ((topChar v =? t) || ((topChar v =? 0) && (t <=? 0))) && negb changed.

(** The top offset [render(t)] leaves in the view when it lays out. *)
Definition clampTop (t len cpl : Z) : Z :=
  let t1 := if t >=? len then len - cpl else t in
  if t1 <? 0 then 0 else t1.



(** Modelled from the spec: the length of the sequence after a local
    call, for a call that lies inside the sequence.  "insertText(text,
    offset), removeText(start, end): local mutation". *)
Definition lengthAfterCall (c : SeqCall) (len : Z) : Z :=
  match c with
  | InsertText t _ => len + strlen t
  | RemoveText start stop => len - (stop - start)
  end.

End Props.

(** ** Worked inputs *)

Module Examples.
Import Flow Props.

Definition insertAt (who : string) (p : Z) (txt : string) : API.ISequencedMessage :=
  {| API.clientId := who;
     API.op := Some {| API.type := API.INSERT; API.pos1 := p; API.pos2 := 0;
                       API.text := txt |} |}.

Definition removeRange (who : string) (p q : Z) : API.ISequencedMessage :=
  {| API.clientId := who;
     API.op := Some {| API.type := API.REMOVE; API.pos1 := p; API.pos2 := q;
                       API.text := "" |} |}.

(** A view of client ["me"] in a window ten characters wide. *)
Definition freshView (vcc : Z) : FlowView := newFlowView 8 10 vcc "me".

(** Two segments of fifty characters, words of four letters. *)
Definition segA : TextSegment :=
  {| segId := 1; text := "abcd abcd abcd abcd abcd abcd abcd abcd abcd abcd " |}.
Definition segB : TextSegment :=
  {| segId := 2; text := "efgh efgh efgh efgh efgh efgh efgh efgh efgh efgh " |}.
Definition docAB : Doc := [TextSeg segA; TextSeg segB].

(** The browser shows ten rows of ten characters. *)
Definition tenRows : Geometry := Mono.geometry 8 10 10.

(** The view after [loadFinished()] on [docAB]. *)
Definition loadedAB : FlowView :=
  match loadFinished tenRows docAB (freshView 100) with
  | Some (_, v) => v
  | None => freshView 100
  end.

(** A collapsed viewport: no row is visible. *)
Definition collapsed : Geometry := Mono.geometry 8 10 0.

Definition segHello : TextSegment := {| segId := 1; text := "hello " |}.
Definition segWorld : TextSegment := {| segId := 2; text := "world foo" |}.
Definition docHello : Doc := [TextSeg segHello; TextSeg segWorld].

(** The view after [loadFinished()] on [docHello] in the collapsed
    viewport. *)
Definition loadedCollapsed : FlowView :=
  match loadFinished collapsed docHello (freshView 0) with
  | Some (_, v) => v
  | None => freshView 0
  end.

(** The pass of [render(8)] on [loadedCollapsed], as the traversal leaves
    it. *)
Definition collapsedTraversed : Pass :=
  match mapRange (renderSegment collapsed docHello) docHello 8
          (startPass (clearSubtree (setTopChar 8 loadedCollapsed))) with
  | Some p => p
  | None => startPass (freshView 0)
  end.

(** A first paragraph of three segments, taller than a viewport of four
    rows, and a cursor further down than the pass reaches. *)
Definition segP1 : TextSegment :=
  {| segId := 1; text := "abcd abcd abcd abcd abcd abcd " |}.
Definition segP2 : TextSegment :=
  {| segId := 2; text := "efgh efgh efgh efgh efgh efgh " |}.
Definition segP3 : TextSegment :=
  {| segId := 3; text := "ijkl ijkl ijkl ijkl ijkl ijkl ijkl ijkl ijkl ijkl " |}.
Definition docLong : Doc := [TextSeg segP1; TextSeg segP2; TextSeg segP3].
Definition fourRows : Geometry := Mono.geometry 8 10 4.
Definition cursorBelow : FlowView := setCursorPos 100 (freshView 40).

(** The pass on [docLong] after the traversal and the settling of
    [viewportEndChar], before the cursor is placed. *)
Definition longBeforePlacement : option Pass :=
  settleViewportEnd <$>
    mapRange (renderSegment fourRows docLong) docLong 0
      (startPass (clearSubtree cursorBelow)).

(** The pass on [docAB] in ten rows, with the cursor past the text, as
    the traversal leaves it. *)
Definition abTraversed : Pass :=
  match mapRange (renderSegment tenRows docAB) docAB 0
          (startPass (clearSubtree (setCursorPos 500 (freshView 100)))) with
  | Some p => p
  | None => startPass (freshView 100)
  end.

(** The pass on an empty document. *)
Definition emptyBeforePlacement : Pass :=
  match mapRange (renderSegment tenRows []) [] 0
          (startPass (clearSubtree (setCursorPos 5 (freshView 100)))) with
  | Some p => settleViewportEnd p
  | None => startPass (freshView 100)
  end.

(** The view at rest on [docAB], cursor at the start. *)
Definition startWorld : World := newWorld loadedAB.

(** Two insertions by another client at the start of the text, and the
    sequence once both have landed. *)
Definition burst : list API.ISequencedMessage :=
  [insertAt "other" 0 "X"; insertAt "other" 0 "Y"].
Definition segYX : TextSegment := {| segId := 3; text := "YX" |}.
Definition docYXAB : Doc := [TextSeg segYX; TextSeg segA; TextSeg segB].
Definition burstWorld : World :=
  deliver burst (newWorld (setCursorPos 5 loadedAB)).

(** The view after [render(90)] on the loaded document. *)
Definition scrolledTo90 : FlowView :=
  match render tenRows docAB (Some 90) false loadedAB with
  | Some (_, v) => v
  | None => loadedAB
  end.

(** Ten characters, the cursor in the middle, and two removals by
    another client that together empty the sequence. *)
Definition segTen : TextSegment := {| segId := 1; text := "abcdefghij" |}.
Definition docTen : Doc := [TextSeg segTen].
Definition removals : list API.ISequencedMessage :=
  [removeRange "other" 8 10; removeRange "other" 0 8].
Definition removalsWorld : World :=
  deliver removals
    (newWorld (setCursorPos 5
                 (match loadFinished tenRows docTen (freshView 100) with
                  | Some (_, v) => v
                  | None => freshView 100
                  end))).


End Examples.

(** ** The header of a document, read through the Historian *)

Module Header.
Import Historian.

(** [value.endsWith(ending)]. *)
Definition js_endsWith (value ending : string) : bool :=
  (String.length ending <=? String.length value)%nat
  && String.eqb
       (String.substring (String.length value - String.length ending)
          (String.length ending) value)
       ending.

(** The helper [endsWith(value, endings)] at the head of the file. *)
Fixpoint endsWith (value : string) (endings : list string) : bool :=
  match endings with
  | [] => false
  | ending :: rest => if js_endsWith value ending then true else endsWith value rest
  end.

(** An entry of a Git tree, as [getHeaderDirect] reads it. *)
Record ITreeEntry : Type := {
  path : string;
  type : string;
  sha : string;
}.

Record ITree : Type := {
  treeSha : string;
  tree : list ITreeEntry;
}.

Record IHeader (B : Type) : Type := {
  blobs : list B;
  headerTree : ITree;
}.
Arguments blobs {B} _.
Arguments headerTree {B} _.

Definition includeBlobs : list string :=
  [".attributes"; ".blobs"; ".messages"; "header"].

(** The values of the promises that are fulfilled, when all are. *)
Fixpoint fulfilledValues {A : Type} (ps : list (Promise A)) : option (list A) :=
  match ps with
  | [] => Some []
  | Fulfilled a :: rest =>
      match fulfilledValues rest with
      | Some l => Some (a :: l)
      | None => None
      end
  | _ :: _ => None
  end.

(** The reasons of the promises that are rejected, in the order of the
    list. *)
Fixpoint rejections {A : Type} (ps : list (Promise A)) : list JsValue :=
  match ps with
  | [] => []
  | Rejected e :: rest => e :: rejections rest
  | _ :: rest => rejections rest
  end.

(** [Promise.all(ps)].  It rejects as soon as one promise rejects; which
    rejection came first is decided by the time the requests take, and
    [race] stands for that choice among the reasons. *)
Definition promiseAll {A : Type} (race : list JsValue -> JsValue)
    (ps : list (Promise A)) : Promise (list A) :=
  match rejections ps with
  | [] =>
      match fulfilledValues ps with
      | Some l => Fulfilled l
      | None => Pending
      end
  | errs => Rejected (race errs)
  end.

Section Requests.
(** The blobs are opaque to the client. *)
Variable IBlob : Type.
(** [RestWrapper.get] at the three result types it is used with here,
    [encodeURIComponent] and the order in which rejections arrive: none
    of them is part of the sources.  [now] is what [Date.now()] gives
    when a request is made. *)
Variable restGetTree : string -> option QueryString -> Promise ITree.
Variable restGetBlob : string -> option QueryString -> Promise IBlob.
Variable restGetHeader : string -> option QueryString -> Promise (IHeader IBlob).
Variable encodeURIComponent : string -> string.
Variable race : list JsValue -> JsValue.

Definition getBlob (now : Z) (h : Historian) (sha0 : string) : Promise IBlob :=
  let queryString := generateCacheQueryString now h in
  restGetBlob ("/git/blobs/" ++ encodeURIComponent sha0)%string queryString.

Definition getTree (now : Z) (h : Historian) (sha0 : string) (recursive : bool)
    : Promise ITree :=
  let queryString :=
    spread [("recursive", VNumber (if recursive then 1 else 0))]
      (generateCacheQueryString now h) in
  restGetTree ("/git/trees/" ++ encodeURIComponent sha0)%string (Some queryString).

(** [clock k] is what [Date.now()] gives at request [k] of the call: the
    tree is request 0, and the blob requests follow as the loop over
    [tree.tree] makes them, each pushed onto [blobsP]. *)
Definition getHeaderDirect (clock : nat -> Z) (h : Historian) (sha0 : string)
    : Promise (IHeader IBlob) :=
  match getTree (clock O) h sha0 true with
  | Fulfilled t =>
      let blobsP :=
        fold_left
          (fun (blobsP : list (Promise IBlob)) entry =>
             if String.eqb (type entry) "blob" && endsWith (path entry) includeBlobs
             then blobsP ++ [getBlob (clock (S (List.length blobsP))) h (sha entry)]
             else blobsP)
          (tree t) [] in
      match promiseAll race blobsP with
      | Fulfilled bs => Fulfilled {| blobs := bs; headerTree := t |}
      | Rejected e => Rejected e
      | Pending => Pending
      end
  | Rejected e => Rejected e
  | Pending => Pending
  end.

Definition getHeader (clock : nat -> Z) (h : Historian) (sha0 : string)
    : Promise (IHeader IBlob) :=
  if historianApi h then
    restGetHeader ("/headers/" ++ encodeURIComponent sha0)%string
      (generateCacheQueryString (clock O) h)
  else getHeaderDirect clock h sha0.

End Requests.
End Header.

(** ** Scrolling, and what a layout leaves alone *)

Module Navigation.
Import Flow.

(** [scroll(up)]. *)
Definition scroll (G : Geometry) (d : Doc) (up : bool) (v : FlowView)
    : option FlowView :=
  let len := getLength d in
  let halfport := viewportCharCount v / 2 in
  if (up && (topChar v =? 0)) || (negb up && (topChar v >? len - halfport))
  then Some v
  else
    let scrollTo := if up then topChar v - halfport else topChar v + halfport in
    snd <$> render G d (Some scrollTo) false v.

(** The fields of the view that only the constructor, [render], the
    scheduler and the key handlers assign. *)
Definition settings (v : FlowView)
    : Z * Z * Z * string * Z * Z * bool :=
  (wEst v, viewportCharCount v, charsPerLine v, longClientId v, topChar v,
   lastVerticalX v, pendingRender v).

(** What the steps of a pass after the choice of the top offset leave
    alone as well. *)
Definition steady (v : FlowView)
    : (Z * Z * Z * string * Z * Z * bool) * option Z * Z * option TextSegment :=
  (settings v, adjustedTopChar v, pos (cursor v), prevTopSegment v).

Definition isLocal (cb : FrameCallback) : bool :=
  match cb with
  | LocalRender => true
  | RemoteRender _ => false
  end.

(** The state of the scheduler between two events: [pendingRender] is
    set exactly while callbacks are waiting, and only the oldest waiting
    callback can be one of [queueRender]. *)
Definition scheduled (w : World) : Prop :=
  (pendingRender (view w) = true <-> frameRequests w <> [])
  /\ forallb isLocal (tail (frameRequests w)) = true.

(** The text of a span is the part of the text of its segment that
    starts at the offset the span records. *)
Definition spanOffset (s : ISegSpan) : Z := default 0 (offset s).

Definition sliceOfSegment (s : ISegSpan) : Prop :=
  0 <= spanOffset s
  /\ innerText s
     = js_substring (text (seg s)) (spanOffset s)
         (spanOffset s + strlen (innerText s)).

(** A span that shows a part of a text segment of the sequence, and a
    store of lines that holds such spans only. *)
Definition faithfulSpan (d : Doc) (s : ISegSpan) : Prop :=
  sliceOfSegment s /\ In (TextSeg (seg s)) d.

Definition faithfulDom (d : Doc) (dm : Dom) : Prop :=
  Forall (Forall (faithfulSpan d)) (lines dm).

(** The caret offsets of the browser are never negative. *)
Definition caretsNonNegative (G : Geometry) : Prop :=
  forall d target x y r,
    caretRangeFromPoint G d target x y = Some r -> 0 <= elmOffToSegOff r.

End Navigation.

(** ** Further scenarios *)

Module Cases.
Import Flow Props Examples.

(** Half a viewport down from the start of [docAB], and back. *)
Definition scrolledDown : FlowView :=
  match Navigation.scroll tenRows docAB false loadedAB with
  | Some v => v
  | None => loadedAB
  end.

Definition scrolledBack : FlowView :=
  match Navigation.scroll tenRows docAB true scrolledDown with
  | Some v => v
  | None => loadedAB
  end.

(** Scrolling down once more, from exactly half a viewport before the
    end. *)
Definition scrolledFromEdge : FlowView :=
  match Navigation.scroll tenRows docAB false scrolledDown with
  | Some v => v
  | None => scrolledDown
  end.

(** The Home and the End key on the loaded document. *)
Definition afterHome : World :=
  match keydownHandler tenRows docAB Home startWorld with
  | Some w => w
  | None => startWorld
  end.

Definition afterEnd : World :=
  match keydownHandler tenRows docAB End_ startWorld with
  | Some w => w
  | None => startWorld
  end.

(** A pass at its start, the cursor inside the first word. *)
Definition cursorAt3 : Pass := startPass (setCursorPos 3 (freshView 100)).

(** The visitor on the first segment of [docAB] when the requested top
    offset, 25, lies inside it. *)
Definition topRequested : Pass := startPass (setTopChar 25 loadedAB).

Definition topStep : Pass * bool :=
  match renderSegment tenRows docAB (TextSeg segA) 0 25 100 topRequested with
  | Some r => r
  | None => (topRequested, true)
  end.

(** The page of [docAB] from the requested top offset 25: the first
    span starts inside the first segment. *)
Definition splitView : FlowView :=
  match renderTree tenRows docAB 25 (clearSubtree (setTopChar 25 loadedAB)) with
  | Some v => v
  | None => loadedAB
  end.

(** One segment of a hundred characters in four rows of ten: the pass
    when the loop over the spans of the pruned line starts, as
    [renderSegment] reaches it on a first layout. *)
Definition segAB : TextSegment :=
  {| segId := 1; text := (text segA ++ text segB)%string |}.
Definition docOne : Doc := [TextSeg segAB].


(** The view after [loadFinished()] on [docOne] in four rows. *)
Definition loadedOne : FlowView :=
  match loadFinished fourRows docOne (freshView 40) with
  | Some (_, v) => v
  | None => freshView 40
  end.


(** A tree of four entries, two of which belong to the header, and a
    server that answers every blob request with the path asked for. *)
Definition exampleTree : Header.ITree :=
  {| Header.treeSha := "t1";
     Header.tree :=
       [ {| Header.path := ".app/header"; Header.type := "blob"; Header.sha := "b1" |};
         {| Header.path := "readme"; Header.type := "blob"; Header.sha := "b2" |};
         {| Header.path := ".blobs"; Header.type := "tree"; Header.sha := "b3" |};
         {| Header.path := ".attributes"; Header.type := "blob"; Header.sha := "b4" |} ] |}.

Definition serveTree (url : string) (q : option Historian.QueryString)
    : Historian.Promise Header.ITree :=
  Historian.Fulfilled exampleTree.

Definition serveBlob (url : string) (q : option Historian.QueryString)
    : Historian.Promise string :=
  Historian.Fulfilled url.

Definition plainHistorian : Historian.Historian :=
  {| Historian.endpoint := "https://historian";
     Historian.historianApi := false;
     Historian.disableCache := true |}.

Definition firstReason (errs : list JsValue) : JsValue :=
  List.hd VUndefined errs.

Definition exampleHeader : Header.IHeader string :=
  {| Header.blobs := ["/git/blobs/b1"; "/git/blobs/b4"];
     Header.headerTree := exampleTree |}.

End Cases.

(** * Theorems *)

(** ** Historian *)

Lemma strictEq_number_true (e : JsValue) (n : Z) :
  strictEq e (VNumber n) = true <-> e = VNumber n.
Proof.
  destruct e; simpl; split; intros H; try discriminate.
  - apply Z.eqb_eq in H. now subst.
  - injection H as ->. apply Z.eqb_refl.
Qed.

Lemma strictEq_number_false (e : JsValue) (n : Z) :
  e <> VNumber n -> strictEq e (VNumber n) = false.
Proof.
  intros Hne. destruct (strictEq e (VNumber n)) eqn:E; [|reflexivity].
  apply strictEq_number_true in E. contradiction.
Qed.

(** C10.  [getCommits] resolves with the empty array when the REST
    request rejects with the value 400, and rejects with the original
    error for every other rejection value, whatever [sha] and [count]. *)
Theorem getCommits_catches_400 :
  forall (T : Type)
         (restGet : string -> option Historian.QueryString -> Historian.Promise (list T))
         (now : Z) (h : Historian.Historian) (sha : string) (count : Z),
    let request :=
      restGet "/commits"
        (Some (Historian.spread [("count", VNumber count); ("sha", VString sha)]
                 (Historian.generateCacheQueryString now h))) in
    (request = Historian.Rejected (VNumber 400) ->
     Historian.getCommits T restGet now h sha count = Historian.Fulfilled [])
    /\ (forall e, request = Historian.Rejected e -> e <> VNumber 400 ->
        Historian.getCommits T restGet now h sha count = Historian.Rejected e).
Proof.
  intros T restGet now h sha count request. unfold Historian.getCommits.
  fold request. split.
  - intros ->. reflexivity.
  - intros e -> Hne. simpl. now rewrite (strictEq_number_false e 400 Hne).
Qed.

Lemma getCommits_catches_400_witness :
  Historian.getCommits nat (fun _ _ => Historian.Rejected (VNumber 400)) 0
    {| Historian.endpoint := "http://historian";
       Historian.historianApi := true; Historian.disableCache := false |}
    "c0ffee" 10 = Historian.Fulfilled []
  /\ Historian.getCommits nat (fun _ _ => Historian.Rejected (VNumber 404)) 0
       {| Historian.endpoint := "http://historian";
          Historian.historianApi := true; Historian.disableCache := false |}
       "c0ffee" 10 = Historian.Rejected (VNumber 404).
Proof.
  split.
  - apply (proj1 (getCommits_catches_400 nat
                    (fun _ _ => Historian.Rejected (VNumber 400)) 0 _ "c0ffee" 10)).
    reflexivity.
  - apply (proj2 (getCommits_catches_400 nat
                    (fun _ _ => Historian.Rejected (VNumber 404)) 0 _ "c0ffee" 10)).
    + reflexivity.
    + discriminate.
Defined.

(** A fulfilled or pending request passes through [getCommits]. *)
Lemma getCommits_passes_result :
  forall (T : Type) restGet (now : Z) h sha count (l : list T),
    (forall url q, restGet url q = Historian.Fulfilled l) ->
    Historian.getCommits T restGet now h sha count = Historian.Fulfilled l.
Proof. intros * H. unfold Historian.getCommits. now rewrite H. Qed.

(** ** The cursor rule *)

Section CursorRule.
Import Flow Props.

Lemma pos_setCursorPos (p : Z) (v : FlowView) : pos (cursor (setCursorPos p v)) = p.
Proof. reflexivity. Qed.


(** The callback of a message from another client applies the cursor
    rule to the view with the pending flag cleared. *)
Lemma remoteCallbackRebase_remote (msg : API.ISequencedMessage)
    (delta : API.IMergeTreeOp) (v : FlowView) :
  API.clientId msg <> longClientId v ->
  API.op msg = Some delta ->
  remoteCallbackRebase msg v = rebaseCursor delta (setPendingRender false v).
Proof.
  intros Hne Hop. unfold remoteCallbackRebase. rewrite Hop.
  replace (longClientId (setPendingRender false v)) with (longClientId v) by reflexivity.
  destruct (String.eqb_spec (API.clientId msg) (longClientId v)); [contradiction|].
  reflexivity.
Qed.

(** The callback of the view's own message leaves the cursor alone. *)
Lemma remoteCallbackRebase_own (msg : API.ISequencedMessage) (v : FlowView) :
  API.clientId msg = longClientId v ->
  cursor (remoteCallbackRebase msg v) = cursor v.
Proof.
  intros He. unfold remoteCallbackRebase.
  replace (longClientId (setPendingRender false v)) with (longClientId v) by reflexivity.
  rewrite He, String.eqb_refl. reflexivity.
Qed.


End CursorRule.





(** ** The range of the cursor *)

Section CursorRange.
Import Flow Props.

Lemma strlen_nonneg (s : string) : 0 <= strlen s.
Proof. unfold strlen. lia. Qed.

(** The cursor rule keeps the cursor inside the sequence the op has been
    applied to, without clamping. *)
Lemma rebaseCursor_in_range (delta : API.IMergeTreeOp) (v : FlowView) (len : Z) :
  wellFormedOp delta len ->
  cursorInRange v len ->
  cursorInRange (rebaseCursor delta v) (lengthAfter delta len).
Proof.
  unfold wellFormedOp, lengthAfter, cursorInRange, rebaseCursor.
  pose proof (strlen_nonneg (API.text delta)) as Hn.
  intros Hwf Hc. destruct (API.type delta).
  - destruct (Z.leb_spec (API.pos1 delta) (pos (cursor v))); simpl; lia.
  - destruct (Z.leb_spec (API.pos2 delta) (pos (cursor v))); simpl; [lia|].
    destruct (Z.geb_spec (pos (cursor v)) (API.pos1 delta)); simpl; lia.
  - exact Hc.
  - exact Hc.
Qed.

End CursorRange.

(** C3, as the code has it.  The cursor is clamped nowhere.  The range
    [0 <= cursor.pos <= length] is kept by the rule itself in three
    cases: the rebase of one op of another client that is well formed
    for the sequence it was applied to, a key press, and a backspace with
    the cursor at 1 or more. *)
Theorem range_kept_without_clamp :
  forall (v : Flow.FlowView) (len : Z),
    Props.cursorInRange v len ->
    (forall msg delta,
        Flow.API.clientId msg <> Flow.longClientId v ->
        Flow.API.op msg = Some delta ->
        Props.wellFormedOp delta len ->
        Props.cursorInRange (Flow.remoteCallbackRebase msg v)
          (Props.lengthAfter delta len))
    /\ (forall code w,
           Flow.view w = v ->
           exists c,
             Flow.issued (Flow.keypressHandler code w) = Flow.issued w ++ [c]
             /\ Props.cursorInRange (Flow.view (Flow.keypressHandler code w))
                  (Props.lengthAfterCall c len))
    /\ (forall G d w,
           Flow.view w = v ->
           1 <= Flow.pos (Flow.cursor v) ->
           exists w' c,
             Flow.keydownHandler G d Flow.Backspace w = Some w'
             /\ Flow.issued w' = Flow.issued w ++ [c]
             /\ Props.cursorInRange (Flow.view w') (Props.lengthAfterCall c len)).
Proof.
  intros v len Hc. split; [|split].
  - intros msg delta Hne Hop Hwf.
    rewrite (remoteCallbackRebase_remote msg delta v Hne Hop).
    apply rebaseCursor_in_range; [exact Hwf | exact Hc].
  - intros code w <-. eexists. split; [reflexivity|].
    unfold Props.cursorInRange in *. simpl. unfold strlen. simpl. lia.
  - intros G d w <- Hpos. eexists. eexists. split; [reflexivity|].
    split; [reflexivity|].
    unfold Props.cursorInRange in *. simpl. lia.
Qed.

Lemma range_kept_without_clamp_witness :
  Props.cursorInRange
    (Flow.remoteCallbackRebase (Examples.removeRange "other" 3 8)
       (Flow.setCursorPos 5 (Examples.freshView 100)))
    (Props.lengthAfter
       {| Flow.API.type := Flow.API.REMOVE; Flow.API.pos1 := 3;
          Flow.API.pos2 := 8; Flow.API.text := "" |} 10).
Proof.
  apply (proj1 (range_kept_without_clamp
                  (Flow.setCursorPos 5 (Examples.freshView 100)) 10
                  ltac:(unfold Props.cursorInRange; simpl; lia))
           (Examples.removeRange "other" 3 8) _
           ltac:(discriminate) eq_refl).
  unfold Props.wellFormedOp. simpl. lia.
Defined.

(** C3 fails as stated: a backspace with the cursor at offset 0 leaves
    [cursor.pos = -1], below every range, and asks the sequence to remove
    [[-1, 0)]. *)
Lemma backspace_at_start_leaves_range :
  Props.cursorInRange (Flow.view Examples.startWorld) (Flow.getLength Examples.docAB)
  /\ exists w,
       Flow.run Examples.tenRows [(Examples.docAB, Flow.KeyDown Flow.Backspace)]
         Examples.startWorld = Some w
       /\ Flow.pos (Flow.cursor (Flow.view w)) = -1
       /\ Flow.issued w = [Flow.RemoveText (-1) 0]
       /\ forall len, ~ Props.cursorInRange (Flow.view w) len.
Proof.
  split.
  - vm_compute. split; discriminate.
  - eexists. split; [reflexivity|].
    split; [vm_compute; reflexivity|].
    split; [vm_compute; reflexivity|].
    intros len [H _]. vm_compute in H. apply H. reflexivity.
Qed.

(** The rebase path leaves the range as well: of two removals that empty
    a sequence of ten characters only the first reaches the cursor, and
    the layout of the empty sequence leaves the cursor at 5. *)
Lemma burst_of_removals_leaves_range :
  exists w,
    Flow.animationFrame Examples.tenRows [] Examples.removalsWorld = Some w
    /\ Flow.pos (Flow.cursor (Flow.view w)) = 5
    /\ Flow.getLength [] = 0
    /\ ~ Props.cursorInRange (Flow.view w) (Flow.getLength []).
Proof.
  eexists. split; [vm_compute; reflexivity|]. split; [reflexivity|].
  split; [reflexivity|]. intros [_ H]. vm_compute in H. apply H. reflexivity.
Qed.

(** ** The scheduler *)

Section Scheduler.
Import Flow Props.

Lemma queueRender_absorbed (m : API.ISequencedMessage) (w : World) :
  pendingRender (view w) = true -> queueRender (Some m) w = w.
Proof. intros H. unfold queueRender. now rewrite H. Qed.

Lemma deliver_cons (m : API.ISequencedMessage) (rest : list API.ISequencedMessage)
    (w : World) :
  deliver (m :: rest) w = deliver rest (queueRender (Some m) w).
Proof. reflexivity. Qed.

Lemma deliver_absorbed (msgs : list API.ISequencedMessage) (w : World) :
  pendingRender (view w) = true -> deliver msgs w = w.
Proof.
  induction msgs as [|m rest IH]; intros H; [reflexivity|].
  rewrite deliver_cons, (queueRender_absorbed m w H). now apply IH.
Qed.

Lemma queueRender_idle (m : API.ISequencedMessage) (w : World) :
  pendingRender (view w) = false ->
  is_Some (API.op m) ->
  queueRender (Some m) w
  = {| view := setPendingRender true (view w); issued := issued w;
       frameRequests := frameRequests w ++ [RemoteRender m] |}.
Proof.
  intros H Hop. unfold queueRender. rewrite H. simpl.
  now rewrite (bool_decide_eq_true_2 _ Hop).
Qed.

Lemma deliver_idle (m : API.ISequencedMessage) (rest : list API.ISequencedMessage)
    (w : World) :
  pendingRender (view w) = false ->
  is_Some (API.op m) ->
  deliver (m :: rest) w
  = {| view := setPendingRender true (view w); issued := issued w;
       frameRequests := frameRequests w ++ [RemoteRender m] |}.
Proof.
  intros H Hop. rewrite deliver_cons, (queueRender_idle m w H Hop).
  now apply (deliver_absorbed rest).
Qed.

Lemma runCallbacks_single (G : Geometry) (d : Doc) (cb : FrameCallback)
    (v : FlowView) :
  runCallbacks G d [cb] v = runCallback G d cb v.
Proof.
  unfold runCallbacks. destruct (runCallback G d cb v); reflexivity.
Qed.

Lemma animationFrame_view (G : Geometry) (d : Doc) (w : World) :
  view <$> animationFrame G d w = runCallbacks G d (frameRequests w) (view w).
Proof.
  unfold animationFrame.
  destruct (runCallbacks G d (frameRequests w) (view w)); reflexivity.
Qed.

Lemma remoteCallbackRebase_ignores_flag (m : API.ISequencedMessage) (b : bool)
    (v : FlowView) :
  remoteCallbackRebase m (setPendingRender b v) = remoteCallbackRebase m v.
Proof. reflexivity. Qed.

End Scheduler.

(** C4, as the code has it.  A notification that arrives while a render
    is pending is absorbed without a trace.  The job queued by the first
    notification of a burst applies the cursor rule for that notification
    only, and it does so before the layout. *)
Theorem burst_job_rebases_first_op :
  forall (G : Flow.Geometry) (d : Flow.Doc) (w : Flow.World)
         (m : Flow.API.ISequencedMessage) (rest : list Flow.API.ISequencedMessage),
    Flow.pendingRender (Flow.view w) = false ->
    Flow.frameRequests w = [] ->
    is_Some (Flow.API.op m) ->
    let w' := Props.deliver (m :: rest) w in
    let v1 := Flow.remoteCallbackRebase m (Flow.view w) in
    Flow.frameRequests w' = [Flow.RemoteRender m]
    /\ Flow.cursor (Flow.view w') = Flow.cursor (Flow.view w)
    /\ Flow.view <$> Flow.animationFrame G d w'
       = snd <$> Flow.render G d (Some (Flow.topChar v1)) true v1.
Proof.
  intros G d w m rest Hidle Hq Hop w' v1. subst w'.
  rewrite (deliver_idle m rest w Hidle Hop), Hq.
  split; [reflexivity|]. split; [reflexivity|].
  rewrite animationFrame_view.
  change (Flow.runCallbacks G d [Flow.RemoteRender m]
            (Flow.setPendingRender true (Flow.view w))
          = snd <$> Flow.render G d (Some (Flow.topChar v1)) true v1).
  rewrite runCallbacks_single. reflexivity.
Qed.

Lemma burst_job_rebases_first_op_witness :
  Flow.frameRequests Examples.burstWorld
  = [Flow.RemoteRender (Examples.insertAt "other" 0 "X")].
Proof.
  apply (proj1 (burst_job_rebases_first_op Examples.tenRows Examples.docYXAB
                  (Flow.newWorld (Flow.setCursorPos 5 Examples.loadedAB))
                  (Examples.insertAt "other" 0 "X")
                  [Examples.insertAt "other" 0 "Y"]
                  eq_refl eq_refl (mk_is_Some _ _ eq_refl))).
Defined.

(** C4 fails as stated: of a burst of two insertions by another client
    only the first reaches the cursor.  The job hands the layout a cursor
    at 6; the rule applied for both gives 7. *)
Lemma burst_of_two_is_rebased_once :
  Flow.frameRequests Examples.burstWorld
  = [Flow.RemoteRender (Examples.insertAt "other" 0 "X")]
  /\ Flow.pos (Flow.cursor
                 (Flow.beforeLayout (Flow.RemoteRender (Examples.insertAt "other" 0 "X"))
                    (Flow.view Examples.burstWorld))) = 6
  /\ Flow.pos (Flow.cursor (Props.rebaseAll Examples.burst
                              (Flow.view Examples.burstWorld))) = 7
  /\ Flow.view <$> Flow.animationFrame Examples.tenRows Examples.docYXAB
                     Examples.burstWorld
     = snd <$> Flow.render Examples.tenRows Examples.docYXAB (Some 0) true
                 (Flow.beforeLayout
                    (Flow.RemoteRender (Examples.insertAt "other" 0 "X"))
                    (Flow.view Examples.burstWorld)).
Proof.
  split; [reflexivity|]. split; [vm_compute; reflexivity|].
  split; [vm_compute; reflexivity|]. vm_compute. reflexivity.
Qed.

(** ** Strings and spans *)

Section Strings.

Lemma substring_zero_all (s : string) :
  String.substring 0 (String.length s) s = s.
Proof. induction s as [|c s IH]; simpl; [reflexivity | now rewrite IH]. Qed.

Lemma substring_skip_append (p e : string) :
  String.substring (String.length p) (String.length e) (p ++ e)%string = e.
Proof.
  induction p as [|c p IH]; simpl; [apply substring_zero_all | exact IH].
Qed.

Lemma substring_split (k : nat) (s : string) :
  (k <= String.length s)%nat ->
  (String.substring 0 k s ++ String.substring k (String.length s - k) s)%string = s.
Proof.
  revert s. induction k as [|k IH]; intros s Hk.
  - rewrite Nat.sub_0_r, substring_zero_all. destruct s; reflexivity.
  - destruct s as [|c s]; simpl in *; [lia|]. rewrite IH by lia. reflexivity.
Qed.

Lemma length_substring (n m : nat) (s : string) :
  String.length (String.substring n m s) = Nat.min m (String.length s - n).
Proof.
  revert n m. induction s as [|c s IH]; intros n m.
  - destruct n, m; reflexivity.
  - destruct n as [|n].
    + destruct m as [|m]; simpl; [reflexivity|]. rewrite IH. simpl. lia.
    + simpl. apply IH.
Qed.

Lemma length_append (a b : string) :
  String.length (a ++ b)%string = (String.length a + String.length b)%nat.
Proof. induction a as [|c a IH]; simpl; [reflexivity | now rewrite IH]. Qed.

Lemma substring_substring (a b i j : nat) (s : string) :
  (i + j <= b)%nat ->
  String.substring i j (String.substring a b s) = String.substring (a + i) j s.
Proof.
  revert a b i j. induction s as [|c s IH]; intros a b i j Hij.
  - destruct a, b, i, j; reflexivity.
  - destruct a as [|a].
    + destruct b as [|b].
      * assert (i = 0%nat) by lia. assert (j = 0%nat) by lia. subst. reflexivity.
      * simpl. destruct i as [|i].
        -- destruct j as [|j]; [reflexivity|]. simpl.
           f_equal. rewrite (IH 0%nat b 0%nat j) by lia. reflexivity.
        -- simpl. rewrite (IH 0%nat b i j) by lia. reflexivity.
    + simpl. apply IH. exact Hij.
Qed.

End Strings.

Section JsStrings.

Lemma clampIndex_le (s : string) (i : Z) : (clampIndex s i <= String.length s)%nat.
Proof. unfold clampIndex, strlen. lia. Qed.

Lemma clampIndex_inside (s : string) (i : Z) :
  0 <= i <= strlen s -> clampIndex s i = Z.to_nat i.
Proof. unfold clampIndex, strlen. intros H. f_equal. lia. Qed.

Lemma clampIndex_strlen (s : string) : clampIndex s (strlen s) = String.length s.
Proof. unfold clampIndex, strlen. lia. Qed.

Lemma js_substring_nat (s : string) (a b : Z) :
  a <= b ->
  js_substring s a b
  = String.substring (clampIndex s a) (clampIndex s b - clampIndex s a) s.
Proof.
  intros H. unfold js_substring.
  assert (clampIndex s a <= clampIndex s b)%nat by (unfold clampIndex; lia).
  now rewrite Nat.min_l, Nat.max_r by lia.
Qed.

Lemma js_substring_from_nat (s : string) (a : Z) :
  js_substring_from s a
  = String.substring (clampIndex s a) (String.length s - clampIndex s a) s.
Proof.
  unfold js_substring_from, js_substring. rewrite clampIndex_strlen.
  pose proof (clampIndex_le s a).
  now rewrite Nat.min_l, Nat.max_r by lia.
Qed.

Lemma strlen_js_substring_from (s : string) (a : Z) :
  strlen (js_substring_from s a) = strlen s - Z.min (Z.max a 0) (strlen s).
Proof.
  rewrite js_substring_from_nat. unfold strlen at 1. rewrite length_substring.
  unfold clampIndex, strlen. lia.
Qed.

(** [s.substring(0, k) + s.substring(k)] is [s], for every [k]. *)
Lemma js_substring_split (s : string) (k : Z) :
  (js_substring s 0 k ++ js_substring_from s k)%string = s.
Proof.
  rewrite js_substring_from_nat. unfold js_substring.
  replace (clampIndex s 0) with 0%nat by (unfold clampIndex, strlen; lia).
  rewrite Nat.min_0_l, Nat.max_0_l, Nat.sub_0_r.
  apply substring_split, clampIndex_le.
Qed.

Lemma js_substring_from_zero (s : string) : js_substring_from s 0 = s.
Proof.
  rewrite js_substring_from_nat.
  replace (clampIndex s 0) with 0%nat by (unfold clampIndex, strlen; lia).
  rewrite Nat.sub_0_r. apply substring_zero_all.
Qed.

Lemma append_empty (s : string) : (s ++ "")%string = s.
Proof. induction s as [|c s IH]; simpl; [reflexivity | now rewrite IH]. Qed.

Lemma substring_none (n : nat) (s : string) : String.substring n 0 s = ""%string.
Proof.
  revert n. induction s as [|c s IH]; intros [|n]; simpl; try reflexivity. apply IH.
Qed.

End JsStrings.

Section Spans.
Import Flow Props Navigation.

Lemma lineOf_appendSpanTo_eq (d : Dom) (id : nat) (s : ISegSpan) :
  (id < List.length (lines d))%nat ->
  lineOf (appendSpanTo d id s) id = lineOf d id ++ [s].
Proof.
  intros H. unfold lineOf at 1, appendSpanTo. cbn [lines].
  now rewrite list_lookup_insert_eq.
Qed.

Lemma lineOf_appendSpanTo_ne (d : Dom) (id id' : nat) (s : ISegSpan) :
  id <> id' -> lineOf (appendSpanTo d id s) id' = lineOf d id'.
Proof.
  intros H. unfold lineOf, appendSpanTo. cbn [lines].
  now rewrite list_lookup_insert_ne.
Qed.

Lemma length_lines_appendSpanTo (d : Dom) (id : nat) (s : ISegSpan) :
  List.length (lines (appendSpanTo d id s)) = List.length (lines d).
Proof. unfold appendSpanTo. cbn [lines]. apply length_insert. Qed.

Lemma spanStart_makeSegSpan (segText : string) (ts : TextSegment) (off startChar : Z) :
  0 <= off -> spanStart (makeSegSpan segText ts off startChar) = startChar + off.
Proof.
  intros H. unfold spanStart, makeSegSpan. cbn [segPos offset].
  destruct (Z.gtb_spec off 0); simpl; lia.
Qed.

End Spans.

(** ** Word boundaries *)

Section Trimming.
Import Flow Props.

Lemma charCodeIsNot_false (txt : string) (i code : Z) :
  charCodeIsNot txt i code = false <-> charCodeAt txt i = Some code.
Proof.
  unfold charCodeIsNot. destruct (charCodeAt txt i) as [c|]; split; intros H;
    try discriminate.
  - apply negb_false_iff, Z.eqb_eq in H. now subst.
  - injection H as ->. now rewrite Z.eqb_refl.
Qed.



(** The backward scan at the top of the viewport: it stops right after
    the nearest space below [k], or at 0. *)
Lemma trimTopFrom_spec (txt : string) (k : nat) :
  (trimTopFrom txt k <= k)%nat
  /\ ((0 < trimTopFrom txt k)%nat ->
      charCodeAt txt (Z.of_nat (trimTopFrom txt k) - 1) = Some CharacterCodes.space)
  /\ (forall i : nat, (trimTopFrom txt k <= i < k)%nat ->
      charCodeAt txt (Z.of_nat i) <> Some CharacterCodes.space).
Proof.
  induction k as [|k [IHle [IHsp IHnone]]]; simpl.
  - split; [lia|]. split; [lia|]. intros i Hi. lia.
  - destruct (charCodeIsNot txt (Z.of_nat k) CharacterCodes.space) eqn:E.
    + split; [lia|]. split; [exact IHsp|].
      intros i Hi. destruct (Nat.eq_dec i k) as [->|Hne].
      * intros Hb. apply charCodeIsNot_false in Hb. congruence.
      * apply IHnone. lia.
    + split; [lia|]. split.
      * intros _. apply charCodeIsNot_false in E.
        replace (Z.of_nat (S k) - 1) with (Z.of_nat k) by lia. exact E.
      * intros i Hi. lia.
Qed.

End Trimming.

Section ClipStep.
Import Flow Props.




End ClipStep.




(** A first layout of one segment of a hundred characters in four rows:
    the span is cut before the space at offset 39, and the page shows
    the text up to it. *)
Lemma first_layout_is_cut_before_a_space :
  exists v,
    Flow.loadFinished Examples.fourRows Cases.docOne (Examples.freshView 40)
    = Some (VUndefined, v)
    /\ map (map Flow.innerText) (Flow.viewportDiv v)
       = [["abcd abcd abcd abcd abcd abcd abcd abcd"%string]]
    /\ charCodeAt (Flow.text Cases.segAB) 39 = Some CharacterCodes.space
    /\ Flow.viewportEndChar v = Some 39.
Proof.
  eexists. split; [vm_compute; reflexivity|].
  split; [reflexivity|]. split; reflexivity.
Qed.

(** The cut of a span that starts inside its segment: after
    [render(25)] the top segment is rendered from offset 20, the span
    overflows, and what the cut puts on the page is the text of the
    segment from its start, offsets 0 to 39, split at the cursor. *)
Lemma clipped_span_shows_segment_prefix :
  exists v,
    Flow.render Examples.fourRows Cases.docOne (Some 25) false Cases.loadedOne
    = Some (VUndefined, v)
    /\ Flow.adjustedTopChar v = Some 20
    /\ map (map (fun s => (Flow.innerText s, Flow.offset s))) (Flow.viewportDiv v)
       = [[("abcd abcd abcd abcd "%string, None);
           ("abcd abcd abcd abcd"%string, Some 20)]]
    /\ Flow.viewportEndChar v = Some 39.
Proof.
  eexists. split; [vm_compute; reflexivity|].
  split; [reflexivity|]. split; reflexivity.
Qed.

(** ** The end of a layout pass *)

Section PassEnd.
Import Flow Props.

Lemma truthy_start (s : ISegSpan) :
  (if truthy (offset s) then segPos s + default 0 (offset s) else segPos s)
  = spanStart s.
Proof.
  unfold spanStart, truthy. destruct (offset s) as [z|]; simpl; [|lia].
  destruct (Z.eqb_spec z 0); simpl; lia.
Qed.

(** Placing the cursor touches neither the page nor the viewport
    offsets. *)
Lemma placeCursor_frame (p : Pass) :
  dom (placeCursor p) = dom p
  /\ charLength (placeCursor p) = charLength p
  /\ viewportEndChar (context (placeCursor p)) = viewportEndChar (context p)
  /\ adjustedTopChar (context (placeCursor p)) = adjustedTopChar (context p)
  /\ topChar (context (placeCursor p)) = topChar (context p).
Proof.
  unfold placeCursor.
  destruct (negb (cursorRendered p)
            || gtOpt (pos (cursor (context p))) (viewportEndChar (context p)));
    [|repeat split].
  destruct (lineOf (dom p) firstDiv); repeat split.
Qed.

Lemma cursorOffPage_test (p : Pass) :
  cursorOffPage p ->
  negb (cursorRendered p)
  || gtOpt (pos (cursor (context p))) (viewportEndChar (context p)) = true.
Proof.
  intros [H|H]; rewrite H; [reflexivity | apply orb_true_r].
Qed.

Lemma firstRenderedSpan_first_line (d : Dom) (rest : list nat) (s : ISegSpan)
    (l : Line) :
  children d = firstDiv :: rest ->
  lineOf d firstDiv = s :: l ->
  firstRenderedSpan d = Some s.
Proof.
  intros Hk Hl. unfold firstRenderedSpan, page. rewrite Hk. simpl.
  rewrite Hl. reflexivity.
Qed.

Lemma renderTreePass_steps (G : Geometry) (d : Doc) (start : Z) (v : FlowView)
    (p : Pass) :
  mapRange (renderSegment G d) d start (startPass v) = Some p ->
  renderTreePass G d start v = Some (placeCursor (settleViewportEnd p)).
Proof. intros H. unfold renderTreePass. now rewrite H. Qed.

(** On a sequence without segments the visitor is never called. *)
Lemma mapRange_empty (G : Geometry) (start : Z) (p : Pass) :
  mapRange (renderSegment G []) [] start p = Some p.
Proof. reflexivity. Qed.

End PassEnd.

(** ** The bound of the span loop *)

Section Fuel.
Import Flow Props.

Lemma lineOf_moved (d : Dom) (lp inner i : nat) (s sp : ISegSpan) :
  lp <> inner ->
  lineOf d lp !! i = Some sp ->
  lineOf (appendSpanTo (removeSpanAt d lp i) inner s) lp = delete i (lineOf d lp).
Proof.
  intros Hne Hi. unfold lineOf at 1. unfold appendSpanTo, removeSpanAt. cbn [lines].
  rewrite list_lookup_insert_ne by congruence.
  assert (Hlt : (lp < List.length (lines d))%nat).
  { unfold lineOf in Hi.
    match type of Hi with
    | context [from_option _ _ ?o] => destruct o eqn:E
    end.
    - apply lookup_lt_Some in E. exact E.
    - discriminate. }
  rewrite list_lookup_insert_eq by exact Hlt. reflexivity.
Qed.

(** One more round than the spans of [lastPruned] changes nothing: the
    bound of [reinsertSpans] is never what ends the loop. *)
Lemma reinsertSpans_fuel (G : Geometry) (constraint : Z) (lp : nat) (n : nat) :
  forall (i : nat) (p : Pass) (ls : option TextSegment) (lo : Z),
    lp <> innerDiv p ->
    (List.length (lineOf (dom p) lp) < n + i)%nat ->
    reinsertSpans G constraint lp (S n) i p ls lo
    = reinsertSpans G constraint lp n i p ls lo.
Proof.
  induction n as [|n IH]; intros i p ls lo Hne Hlen.
  - cbn [reinsertSpans].
    match goal with
    | |- match ?o with _ => _ end = _ => destruct o eqn:Hi
    end; [|reflexivity].
    apply lookup_lt_Some in Hi. lia.
  - remember (S n) as m eqn:Hm. cbn [reinsertSpans]. subst m. cbn [reinsertSpans].
    match goal with
    | |- match ?o with _ => _ end = _ => destruct o as [sp|] eqn:Hi
    end; [|reflexivity].
    destruct (bottom (spanBounds G (dom p) lp i) <=? constraint); [|reflexivity].
    apply IH; [exact Hne|]. cbn [dom setDom].
    rewrite (lineOf_moved (dom p) lp (innerDiv p) i sp sp Hne Hi).
    rewrite length_delete by (rewrite Hi; eauto). lia.
Qed.
End Fuel.

(** C5, as the code has it.  After a layout pass, if no rendered span
    contained the cursor or the cursor's offset exceeds
    [viewportEndChar], and the first line laid out by the pass is still
    the first line of the page and holds a span, the cursor is rebound to
    the offset of that line's first span, which is the first rendered
    character of the page; if that line holds no span the cursor is left
    where it is. *)
Theorem cursor_rebound_to_first_line :
  forall (G : Flow.Geometry) (d : Flow.Doc) (start : Z) (v : Flow.FlowView)
         (p0 : Flow.Pass),
    Flow.mapRange (Flow.renderSegment G d) d start (Flow.startPass v) = Some p0 ->
    let p := Flow.settleViewportEnd p0 in
    Props.cursorOffPage p ->
    Flow.renderTreePass G d start v = Some (Flow.placeCursor p)
    /\ (forall rest s l,
           Flow.children (Flow.dom p) = Flow.firstDiv :: rest ->
           Flow.lineOf (Flow.dom p) Flow.firstDiv = s :: l ->
           Props.firstRenderedSpan (Flow.dom (Flow.placeCursor p)) = Some s
           /\ Flow.pos (Flow.cursor (Flow.context (Flow.placeCursor p)))
              = Props.spanStart s
           /\ Flow.parentSpan (Flow.cursor (Flow.context (Flow.placeCursor p)))
              = Some s)
    /\ (Flow.lineOf (Flow.dom p) Flow.firstDiv = [] -> Flow.placeCursor p = p).
Proof.
  intros G d start v p0 Hmap p Hoff.
  split; [exact (renderTreePass_steps G d start v p0 Hmap)|].
  pose proof (cursorOffPage_test p Hoff) as Htest. split.
  - intros rest s l Hk Hl.
    destruct (placeCursor_frame p) as [Hdom _]. rewrite Hdom.
    split; [exact (firstRenderedSpan_first_line _ rest s l Hk Hl)|].
    unfold Flow.placeCursor. rewrite Htest, Hl. simpl.
    rewrite truthy_start. split; reflexivity.
  - intros Hl. unfold Flow.placeCursor. rewrite Htest, Hl. reflexivity.
Qed.

Lemma cursor_rebound_to_first_line_witness :
  Flow.pos (Flow.cursor (Flow.context
     (Flow.placeCursor (Flow.settleViewportEnd Examples.abTraversed)))) = 0.
Proof.
  assert (Hmap : Flow.mapRange (Flow.renderSegment Examples.tenRows Examples.docAB)
                   Examples.docAB 0
                   (Flow.startPass
                      (Flow.clearSubtree (Flow.setCursorPos 500 (Examples.freshView 100))))
                 = Some Examples.abTraversed) by (vm_compute; reflexivity).
  assert (Hoff : Props.cursorOffPage (Flow.settleViewportEnd Examples.abTraversed))
    by (left; vm_compute; reflexivity).
  destruct (cursor_rebound_to_first_line _ _ _ _ _ Hmap Hoff) as [_ [Hspan _]].
  destruct (Hspan [1%nat]
              (Flow.makeSegSpan (Flow.text Examples.segA) Examples.segA 0 0)
              [Flow.makeSegSpan (Flow.text Examples.segB) Examples.segB 0 50])
    as [_ [Hpos _]].
  - vm_compute. reflexivity.
  - vm_compute. reflexivity.
  - rewrite Hpos. reflexivity.
Defined.

(** C5 fails as stated, in two ways.  On an empty document no span
    contained the cursor, there is no first rendered character and the
    cursor stays at 5.  On a first paragraph that is taller than the
    viewport the pass prunes the first line and moves its first span to a
    new line; the cursor is rebound to offset 30, the start of a span
    left behind in the detached line, while the first rendered character
    of the page has offset 0. *)
Lemma cursor_not_rebound_to_page_start :
  (Props.cursorOffPage Examples.emptyBeforePlacement
   /\ Props.firstRenderedSpan (Flow.dom (Flow.placeCursor Examples.emptyBeforePlacement))
      = None
   /\ Flow.pos (Flow.cursor (Flow.context (Flow.placeCursor Examples.emptyBeforePlacement)))
      = 5)
  /\ exists p s,
       Examples.longBeforePlacement = Some p
       /\ Props.cursorOffPage p
       /\ Flow.page (Flow.dom (Flow.placeCursor p)) = [[s]]
       /\ Props.firstRenderedSpan (Flow.dom (Flow.placeCursor p)) = Some s
       /\ Props.spanStart s = 0
       /\ Flow.pos (Flow.cursor (Flow.context (Flow.placeCursor p))) = 30.
Proof.
  split.
  - split; [left; reflexivity|]. split; reflexivity.
  - eexists. eexists. split; [vm_compute; reflexivity|].
    split; [left; reflexivity|]. split; [vm_compute; reflexivity|].
    split; [reflexivity|]. split; reflexivity.
Qed.

(** C7 fails as stated: in a collapsed viewport [render(8)] on
    ["hello world foo"] leaves an empty page, counts the 9 characters of
    the segment it visited and sets [viewportEndChar] to 15, which is
    neither [topChar] (8) nor [topChar] plus the characters counted
    (17). *)
Lemma collapsed_viewport_end_is_adjusted :
  exists v,
    Flow.render Examples.collapsed Examples.docHello (Some 8) false
      Examples.loadedCollapsed = Some (VUndefined, v)
    /\ concat (Flow.viewportDiv v) = []
    /\ Flow.topChar v = 8
    /\ Flow.charLength Examples.collapsedTraversed = 9
    /\ Flow.adjustedTopChar v = Some 6
    /\ Flow.viewportEndChar v = Some 15
    /\ Flow.viewportEndChar v <> Some (Flow.topChar v)
    /\ Flow.viewportEndChar v <> Some (Flow.topChar v + 9).
Proof.
  eexists. split; [vm_compute; reflexivity|].
  split; [reflexivity|]. split; [reflexivity|].
  split; [vm_compute; reflexivity|]. split; [reflexivity|].
  split; [reflexivity|]. split; discriminate.
Qed.

(** On a fresh view and an empty document the first pass leaves
    [viewportEndChar] without a number: [adjustedTopChar] is still
    undefined when it is added to the character count. *)
Lemma first_pass_on_empty_document :
  exists v,
    Flow.loadFinished Examples.tenRows [] (Examples.freshView 100)
    = Some (VUndefined, v)
    /\ Flow.viewportDiv v = [[]]
    /\ Flow.topChar v = 0
    /\ Flow.viewportEndChar v = None.
Proof.
  eexists. split; [vm_compute; reflexivity|]. repeat split.
Qed.

(** ** The result of [render] *)

Section RenderResult.
Import Flow Props.

Lemma render_early (G : Geometry) (d : Doc) (t : Z) (changed : bool)
    (v : FlowView) :
  returnsEarly t changed v = true ->
  render G d (Some t) changed v = Some (VUndefined, v).
Proof. intros H. unfold render. unfold returnsEarly in H. now rewrite H. Qed.

Lemma render_result_undefined (G : Geometry) (d : Doc) (t : option Z)
    (changed : bool) (v : FlowView) (r : JsValue) (v' : FlowView) :
  render G d t changed v = Some (r, v') -> r = VUndefined.
Proof.
  unfold render. intros H.
  destruct t as [t|].
  - destruct (((topChar v =? t) || (topChar v =? 0) && (t <=? 0)) && negb changed).
    + now injection H as <- _.
    + match type of H with
      | match ?e with _ => _ end = _ => destruct e; [|discriminate]
      end.
      now injection H as <- _.
  - match type of H with
    | match ?e with _ => _ end = _ => destruct e; [|discriminate]
    end.
    now injection H as <- _.
Qed.

End RenderResult.

(** C9, as the code has it.  [render(topChar?, changed)] returns no
    value.  Called with a [topChar] equal to the current one (or at most
    0 while the current one is 0) and [changed] false it returns at once
    and leaves the view as it is.  Otherwise it stores the requested top
    offset, brought into the sequence ([length - charsPerLine] when it
    is at or past the end, 0 when it is negative), and the view it
    leaves is the one the layout pass from that offset computes on the
    cleared page: the page of the pass, and its bottom-of-view offset in
    the [viewportEndChar] field.  Without a [topChar] the pass starts
    from the current top offset. *)
Theorem render_returns_no_value :
  forall (G : Flow.Geometry) (d : Flow.Doc) (t : option Z) (changed : bool)
         (v : Flow.FlowView) (r : JsValue) (v' : Flow.FlowView),
    Flow.render G d t changed v = Some (r, v') ->
    r = VUndefined
    /\ (forall t0, t = Some t0 -> Props.returnsEarly t0 changed v = true -> v' = v)
    /\ (forall v1,
          (t = None /\ v1 = v)
          \/ (exists t0,
                t = Some t0 /\ Props.returnsEarly t0 changed v = false
                /\ v1 = Flow.setTopChar
                          (Props.clampTop t0 (Flow.getLength d) (Flow.charsPerLine v)) v) ->
          exists p,
            Flow.renderTreePass G d
              (Flow.floorScale G (Flow.topChar v1) (Flow.getLength d))
              (Flow.clearSubtree v1) = Some p
            /\ v' = Flow.setViewportDiv (Flow.page (Flow.dom p)) (Flow.context p)
            /\ Flow.viewportEndChar v' = Flow.viewportEndChar (Flow.context p)
            /\ Flow.viewportDiv v' = Flow.page (Flow.dom p)).
Proof.
  intros G d t changed v r v' H.
  split; [exact (render_result_undefined G d t changed v r v' H)|]. split.
  - intros t0 -> He. rewrite (render_early G d t0 changed v He) in H.
    now injection H as _ <-.
  - intros v1 Hlay. unfold Flow.render in H.
    assert (Hgo : match Flow.renderTree G d
                          (Flow.floorScale G (Flow.topChar v1) (Flow.getLength d))
                          (Flow.clearSubtree v1) with
                  | Some v2 => Some (VUndefined, v2)
                  | None => None
                  end = Some (r, v')).
    { destruct Hlay as [[-> ->]|[t0 [-> [He ->]]]]; [exact H|].
      unfold Props.returnsEarly in He. rewrite He in H.
      match goal with
      | |- match Flow.renderTree G d _ (Flow.clearSubtree ?x) with _ => _ end = _ =>
          match type of H with
          | match Flow.renderTree G d _ (Flow.clearSubtree ?y) with _ => _ end = _ =>
              replace x with y; [exact H|]
          end
      end.
      unfold Props.clampTop. cbn [Flow.topChar Flow.setTopChar Flow.charsPerLine].
      destruct (t0 >=? Flow.getLength d); cbn [Flow.topChar Flow.setTopChar];
        match goal with |- context [?a <? 0] => destruct (a <? 0) end;
        reflexivity. }
    unfold Flow.renderTree in Hgo.
    destruct (Flow.renderTreePass G d
                (Flow.floorScale G (Flow.topChar v1) (Flow.getLength d))
                (Flow.clearSubtree v1)) as [p|]; [|discriminate].
    exists p. split; [reflexivity|]. injection Hgo as _ <-.
    split; [reflexivity|]. split; reflexivity.
Qed.

Lemma render_returns_no_value_witness :
  exists p,
    Flow.renderTreePass Examples.tenRows Examples.docAB
      (Flow.floorScale Examples.tenRows
         (Flow.topChar (Flow.setTopChar 90 Examples.loadedAB))
         (Flow.getLength Examples.docAB))
      (Flow.clearSubtree (Flow.setTopChar 90 Examples.loadedAB)) = Some p
    /\ Examples.scrolledTo90
       = Flow.setViewportDiv (Flow.page (Flow.dom p)) (Flow.context p)
    /\ Flow.viewportEndChar Examples.scrolledTo90
       = Flow.viewportEndChar (Flow.context p)
    /\ Flow.viewportDiv Examples.scrolledTo90 = Flow.page (Flow.dom p).
Proof.
  apply (proj2 (proj2 (render_returns_no_value Examples.tenRows Examples.docAB
                         (Some 90) false Examples.loadedAB VUndefined
                         Examples.scrolledTo90 ltac:(vm_compute; reflexivity)))).
  right. exists 90. split; [reflexivity|]. split; reflexivity.
Defined.

(** C9 fails as stated: [render(0, true)] on the loaded document leaves
    99 in [viewportEndChar] and returns [undefined]; a second
    [render(0)] returns at once, without a layout. *)
Lemma render_result_is_undefined :
  exists v,
    Flow.render Examples.tenRows Examples.docAB (Some 0) true (Examples.freshView 100)
    = Some (VUndefined, v)
    /\ Flow.viewportEndChar v = Some 99
    /\ VUndefined <> VNumber 99
    /\ Flow.render Examples.tenRows Examples.docAB (Some 0) false v
       = Some (VUndefined, v).
Proof.
  eexists. split; [vm_compute; reflexivity|]. split; [reflexivity|].
  split; [discriminate|]. vm_compute. reflexivity.
Qed.

(** ** Rendering twice *)

(** The layout pass never assigns [topChar]. *)
Section TopCharFrame.
Import Flow Props.

Lemma segmentToSpan_topChar (segText : string) (ts : TextSegment) (off startChar : Z)
    (rc : bool) (p : Pass) :
  topChar (context (segmentToSpan segText ts off startChar rc p)) = topChar (context p).
Proof.
  unfold segmentToSpan.
  destruct (rc && (pos (cursor (context p)) >=? startChar + off)
            && (pos (cursor (context p)) <? startChar + off + strlen segText));
    [|reflexivity].
  destruct (pos (cursor (context p)) - (startChar + off) >? 0); reflexivity.
Qed.

Lemma freshDiv_context (p : Pass) : context (freshDiv p) = context p.
Proof. reflexivity. Qed.

Lemma renderFirstSegment_topChar (G : Geometry) (segPos0 start : Z) (txt : string)
    (ts : TextSegment) (p : Pass) :
  topChar (context (fst (fst (renderFirstSegment G segPos0 start txt ts p))))
  = topChar (context p).
Proof.
  unfold renderFirstSegment. cbn [fst].
  change (topChar (context (segmentToSpan txt ts 0 segPos0 false p)) = topChar (context p)).
  apply segmentToSpan_topChar.
Qed.

Lemma reinsertSpans_topChar (G : Geometry) (constraint : Z) (lp : nat) (n : nat) :
  forall (i : nat) (p : Pass) (ls : option TextSegment) (lo : Z) p' ls' lo',
    reinsertSpans G constraint lp n i p ls lo = Some (p', ls', lo') ->
    topChar (context p') = topChar (context p).
Proof.
  induction n as [|n IH]; intros i p ls lo p' ls' lo' H; simpl in H.
  - now injection H as <- _ _.
  - destruct (lineOf (dom p) lp !! i) as [sp|]; [|now injection H as <- _ _].
    destruct (bottom (spanBounds G (dom p) lp i) <=? constraint).
    + apply IH in H. exact H.
    + destruct (constraint - top (spanBounds G (dom p) lp i) >? hEst);
        [|now injection H as <- _ _].
      destruct (lastFittingPoint _ _ _ _) as [x y].
      destruct (y >? 0); [|now injection H as <- _ _].
      destruct (caretRangeFromPoint G (dom p) (lp, i) x y); [|discriminate].
      injection H as <- _ _.
      destruct (clipBack _ _ >? 0); [apply segmentToSpan_topChar | reflexivity].
Qed.

Lemma overflowCheck_topChar (G : Geometry) (d : Doc) (last : bool) (p p' : Pass)
    (b : bool) :
  overflowCheck G d last p = Some (p', b) ->
  topChar (context p') = topChar (context p).
Proof.
  unfold overflowCheck. intros H.
  destruct ((bottom (lineBounds G (dom p) (innerDiv p)) >? _) || last);
    [|now injection H as <- _].
  set (p1 := if 0 <? Z.of_nat (List.length (lineOf (dom p) (innerDiv p)))
             then freshDiv p else p) in *.
  assert (Hp1 : topChar (context p1) = topChar (context p)).
  { subst p1. destruct (0 <? _); reflexivity. }
  destruct (previousSiblings (children (dom p1)) (innerDiv p1) []) as [|c cs];
    [now injection H as <- _|].
  destruct (pruneLines G _ (c :: cs) (dom p1) None) as [d1 [lp|]];
    [|now injection H as <- _].
  match type of H with
  | match ?e with _ => _ end = _ => destruct e as [[[p4 ls] lo]|] eqn:E; [|discriminate]
  end.
  apply reinsertSpans_topChar in E. simpl in E.
  destruct ls; injection H as <- _; simpl; congruence.
Qed.

Lemma renderSegment_topChar (G : Geometry) (d : Doc) (s : Segment)
    (segPos0 start stop : Z) (p p' : Pass) (b : bool) :
  renderSegment G d s segPos0 start stop p = Some (p', b) ->
  topChar (context p') = topChar (context p).
Proof.
  unfold renderSegment. destruct s as [ts|n]; [|now intros [= <- _]].
  set (p1 := if firstSeg p && notSameSegment ts (prevTopSegment (context p))
             then _ else p).
  assert (Hp1 : topChar (context p1) = topChar (context p)).
  { subst p1. destruct (firstSeg p && _); reflexivity. }
  assert (Hcur : forall (a : Z) (v : FlowView),
             topChar (if pos (cursor (setAdjustedTopChar (Some a) v)) <? a
                      then setCursorPos a (setAdjustedTopChar (Some a) v)
                      else setAdjustedTopChar (Some a) v) = topChar v).
  { intros a v. destruct (_ <? a); reflexivity. }
  match goal with
  | |- match ?e with _ => _ end = _ -> _ =>
      assert (Hp2 : topChar (context (fst (fst e))) = topChar (context p));
      [|destruct e as [[p2 segText] segOffset]]
  end.
  { destruct (start >? 0).
    - destruct (splitTopSeg p1).
      + pose proof (renderFirstSegment_topChar G segPos0 start (text ts) ts p1) as Hf.
        destruct (renderFirstSegment G segPos0 start (text ts) ts p1) as [[q st] so].
        cbn [fst] in *. cbn [context setContext]. rewrite Hcur. congruence.
      + cbn [fst context setContext]. rewrite Hcur. exact Hp1.
    - destruct (firstSeg p1); cbn [fst]; [exact Hp1 | exact Hp1]. }
  cbn [fst] in Hp2. intros H.
  set (p5 := segmentToSpan segText ts segOffset segPos0 true _) in H.
  assert (Hp5 : topChar (context p5) = topChar (context p)).
  { subst p5. rewrite segmentToSpan_topChar. exact Hp2. }
  set (p6 := if endsWithNewline segText then freshDiv p5 else p5) in H.
  assert (Hp6 : topChar (context p6) = topChar (context p)).
  { subst p6. destruct (endsWithNewline segText); [rewrite freshDiv_context|]; exact Hp5. }
  destruct ((charLength p6 >? charsPerViewport G) || _).
  - apply overflowCheck_topChar in H. congruence.
  - injection H as <- _. exact Hp6.
Qed.

Lemma nodeMap_topChar (G : Geometry) (d : Doc) (segs : list Segment) :
  forall (at_ start stop : Z) (p p' : Pass),
    nodeMap (renderSegment G d) segs at_ start stop p = Some p' ->
    topChar (context p') = topChar (context p).
Proof.
  induction segs as [|s rest IH]; intros at_ start stop p p' H; simpl in H.
  - now injection H as <-.
  - destruct ((stop >? 0) && (segLength s >? 0) && (start <? segLength s)).
    + destruct (renderSegment G d s at_ start stop p) as [[q go]|] eqn:E;
        [|discriminate].
      apply renderSegment_topChar in E. destruct go.
      * apply IH in H. congruence.
      * injection H as <-. exact E.
    + now apply IH in H.
Qed.

Lemma settleViewportEnd_topChar (p : Pass) :
  topChar (context (settleViewportEnd p)) = topChar (context p).
Proof.
  unfold settleViewportEnd. destruct (optLt _ 0); [|reflexivity].
  destruct (findLastChar (dom p) <? 0); reflexivity.
Qed.

Lemma renderTree_topChar (G : Geometry) (d : Doc) (start : Z) (v v' : FlowView) :
  renderTree G d start v = Some v' -> topChar v' = topChar v.
Proof.
  unfold renderTree, renderTreePass, mapRange. intros H.
  destruct (nodeMap (renderSegment G d) d 0 start (getLength d) (startPass v))
    as [p|] eqn:E; [|discriminate].
  injection H as <-. apply nodeMap_topChar in E.
  destruct (placeCursor_frame (settleViewportEnd p)) as [_ [_ [_ [_ Ht]]]].
  change (topChar (context (placeCursor (settleViewportEnd p))) = topChar v).
  rewrite Ht, settleViewportEnd_topChar. exact E.
Qed.

Lemma render_topChar (G : Geometry) (d : Doc) (t : Z) (changed : bool)
    (v : FlowView) (r : JsValue) (v' : FlowView) :
  render G d (Some t) changed v = Some (r, v') ->
  returnsEarly t changed v = false ->
  topChar v' = clampTop t (getLength d) (charsPerLine v).
Proof.
  unfold render, returnsEarly. intros H He. rewrite He in H.
  match type of H with
  | match renderTree G d ?s ?x with _ => _ end = _ =>
      destruct (renderTree G d s x) as [v2|] eqn:E; [|discriminate]
  end.
  injection H as _ <-. apply renderTree_topChar in E. rewrite E.
  unfold clampTop. cbn [topChar setTopChar clearSubtree setViewportDiv charsPerLine].
  destruct (t >=? getLength d); cbn [topChar setTopChar];
    match goal with |- context [?a <? 0] => destruct (a <? 0) end; reflexivity.
Qed.
End TopCharFrame.

(** C8, as the code has it.  For every [topChar] below the length of the
    sequence, a second [render(topChar)] with no mutation in between
    returns at once and leaves the rendered page and the whole view
    exactly as the first call left them. *)
Theorem render_twice_below_end :
  forall (G : Flow.Geometry) (d : Flow.Doc) (t : Z) (v : Flow.FlowView)
         (r : JsValue) (v' : Flow.FlowView),
    t < Flow.getLength d ->
    Flow.render G d (Some t) false v = Some (r, v') ->
    Flow.render G d (Some t) false v' = Some (VUndefined, v').
Proof.
  intros G d t v r v' Hlt H. apply render_early.
  destruct (Props.returnsEarly t false v) eqn:He.
  - rewrite (render_early G d t false v He) in H. injection H as _ <-. exact He.
  - pose proof (render_topChar G d t false v r v' H He) as Htop.
    unfold Props.returnsEarly, Props.clampTop in *. rewrite Htop.
    destruct (Z.geb_spec t (Flow.getLength d)); [lia|].
    destruct (Z.ltb_spec t 0).
    + destruct (Z.leb_spec t 0); [|lia]. rewrite orb_true_r. reflexivity.
    + rewrite Z.eqb_refl. reflexivity.
Qed.

Lemma render_twice_below_end_witness :
  Flow.render Examples.tenRows Examples.docAB (Some 90) false Examples.scrolledTo90
  = Some (VUndefined, Examples.scrolledTo90).
Proof.
  apply (render_twice_below_end Examples.tenRows Examples.docAB 90
           Examples.loadedAB VUndefined Examples.scrolledTo90).
  - vm_compute. reflexivity.
  - vm_compute. reflexivity.
Defined.

(** C8 fails as stated: [render(150)] on a sequence of 100 characters
    stores 90 as the top offset, so a second [render(150)] lays out
    again.  The first pass meets the top segment for the first time and
    renders it whole; the second finds it again, probes for the top line
    and renders the segment from its offset 30. *)
Lemma render_twice_past_end_differs :
  exists v1 v2,
    Flow.render Examples.tenRows Examples.docAB (Some 150) false Examples.loadedAB
    = Some (VUndefined, v1)
    /\ Flow.render Examples.tenRows Examples.docAB (Some 150) false v1
       = Some (VUndefined, v2)
    /\ Flow.topChar v1 = 90 /\ Flow.topChar v2 = 90
    /\ map (map Flow.innerText) (Flow.viewportDiv v1)
       = [["efgh efgh efgh efgh efgh efgh efgh efgh efgh efgh "]; []]
    /\ map (map Flow.innerText) (Flow.viewportDiv v2)
       = [["efgh efgh efgh efgh "]; []]
    /\ Flow.adjustedTopChar v1 = Some 50
    /\ Flow.adjustedTopChar v2 = Some 80
    /\ Flow.viewportDiv v1 <> Flow.viewportDiv v2.
Proof.
  eexists. eexists. split; [vm_compute; reflexivity|].
  split; [vm_compute; reflexivity|].
  repeat (split; [reflexivity|]). discriminate.
Qed.

(** * Further properties *)

(** ** The helper [endsWith] and the header of a document *)

Section HeaderFacts.
Import Historian Header.

Lemma js_endsWith_suffix (value ending : string) :
  js_endsWith value ending = true
  <-> exists prefix, value = (prefix ++ ending)%string.
Proof.
  unfold js_endsWith. rewrite andb_true_iff, Nat.leb_le, String.eqb_eq. split.
  - intros [Hle Heq].
    exists (String.substring 0 (String.length value - String.length ending) value).
    rewrite <- Heq at 2.
    pose proof (substring_split (String.length value - String.length ending) value
                  ltac:(lia)) as Hs.
    replace (String.length value - (String.length value - String.length ending))%nat
      with (String.length ending) in Hs by lia.
    now symmetry.
  - intros [prefix ->]. rewrite length_append. split; [lia|].
    replace (String.length prefix + String.length ending - String.length ending)%nat
      with (String.length prefix) by lia.
    apply substring_skip_append.
Qed.

Lemma fulfilledValues_Forall2 {A : Type} (ps : list (Promise A)) (l : list A) :
  fulfilledValues ps = Some l <-> Forall2 (fun p a => p = Fulfilled a) ps l.
Proof.
  revert l. induction ps as [|p ps IH]; intros l; simpl.
  - split.
    + intros [= <-]. constructor.
    + intros H. inversion H. reflexivity.
  - destruct p as [a|e|].
    + destruct (fulfilledValues ps) as [l'|] eqn:E.
      * split.
        -- intros [= <-]. constructor; [reflexivity|]. now apply IH.
        -- intros H. inversion H as [|? b ? l2 Hp Hrest]; subst.
           injection Hp as <-. apply IH in Hrest. now injection Hrest as ->.
      * split; [discriminate|].
        intros H. inversion H as [|? b ? l2 Hp Hrest]; subst.
        apply IH in Hrest. discriminate.
    + split; [discriminate|]. intros H. inversion H; discriminate.
    + split; [discriminate|]. intros H. inversion H; discriminate.
Qed.

Lemma rejections_nil {A : Type} (ps : list (Promise A)) (l : list A) :
  fulfilledValues ps = Some l -> rejections ps = [].
Proof.
  revert l. induction ps as [|p ps IH]; intros l H; [reflexivity|].
  simpl in *. destruct p; try discriminate.
  destruct (fulfilledValues ps) eqn:E; [|discriminate]. now apply (IH _ eq_refl).
Qed.

Lemma promiseAll_fulfilled {A : Type} (race : list JsValue -> JsValue)
    (ps : list (Promise A)) (l : list A) :
  promiseAll race ps = Fulfilled l <-> Forall2 (fun p a => p = Fulfilled a) ps l.
Proof.
  rewrite <- fulfilledValues_Forall2. unfold promiseAll. split.
  - destruct (rejections ps); [|discriminate].
    destruct (fulfilledValues ps); [|discriminate]. now intros [= ->].
  - intros H. rewrite (rejections_nil ps l H), H. reflexivity.
Qed.

End HeaderFacts.

(** X1.  [endsWith(value, endings)] is true exactly when one of the
    endings is a suffix of the value; with no endings it is false. *)
Theorem endsWith_some_suffix :
  forall (value : string) (endings : list string),
    Header.endsWith value endings = true
    <-> exists ending prefix,
          In ending endings /\ value = (prefix ++ ending)%string.
Proof.
  intros value endings. induction endings as [|e rest IH]; simpl.
  - split; [discriminate|]. intros [? [? [[] _]]].
  - destruct (Header.js_endsWith value e) eqn:E.
    + split; [|reflexivity]. intros _.
      apply js_endsWith_suffix in E. destruct E as [prefix ->].
      exists e, prefix. split; [now left | reflexivity].
    + rewrite IH. split.
      * intros [ending [prefix [Hin ->]]]. exists ending, prefix. split; [now right | reflexivity].
      * intros [ending [prefix [[<-|Hin] Hv]]].
        -- assert (Header.js_endsWith value e = true)
             by (apply js_endsWith_suffix; eauto). congruence.
        -- exists ending, prefix. split; assumption.
Qed.

Lemma endsWith_some_suffix_witness :
  Header.endsWith ".app/header" Header.includeBlobs = true.
Proof.
  apply (proj2 (endsWith_some_suffix ".app/header" Header.includeBlobs)).
  exists "header"%string, ".app/"%string. split; [simpl; tauto | reflexivity].
Defined.

(** X2.  Without the header API, the header of a document is fulfilled
    exactly when the recursive tree request and every blob request are.
    A blob is asked for each entry of the tree, in the order of the
    tree, whose type is ["blob"] and whose path ends in [.attributes],
    [.blobs], [.messages] or [header], and for no other; the header
    carries these blobs in that order, and the tree itself. *)
Theorem getHeaderDirect_fetches_header_blobs :
  forall (B : Type) restGetTree restGetBlob (enc : string -> string)
         (race : list JsValue -> JsValue) (clock : nat -> Z)
         (h : Historian.Historian) (sha0 : string) (hd : Header.IHeader B),
    let asked :=
      List.filter
        (fun entry =>
           String.eqb (Header.type entry) "blob"
           && Header.endsWith (Header.path entry)
                [".attributes"; ".blobs"; ".messages"; "header"])
        (Header.tree (Header.headerTree hd)) in
    Header.getHeaderDirect B restGetTree restGetBlob enc race clock h sha0
    = Historian.Fulfilled hd
    <-> Header.getTree restGetTree enc (clock O) h sha0 true
        = Historian.Fulfilled (Header.headerTree hd)
        /\ List.length (Header.blobs hd) = List.length asked
        /\ forall (i : nat) entry,
             asked !! i = Some entry ->
             exists b,
               Header.blobs hd !! i = Some b
               /\ Header.getBlob B restGetBlob enc (clock (S i)) h (Header.sha entry)
                  = Historian.Fulfilled b.
Proof.
  intros B restGetTree restGetBlob enc race clock h sha0 hd asked.
  unfold Header.getHeaderDirect.
  set (f := fun (i : nat) entry =>
              Header.getBlob B restGetBlob enc (clock (S i)) h (Header.sha entry)).
  set (sel := fun entry =>
                String.eqb (Header.type entry) "blob"
                && Header.endsWith (Header.path entry) Header.includeBlobs).
  assert (Hloop : forall entries acc,
             fold_left
               (fun (blobsP : list (Historian.Promise B)) entry =>
                  if sel entry then blobsP ++ [f (List.length blobsP) entry]
                  else blobsP) entries acc
             = acc ++ imap (fun i => f (List.length acc + i)%nat)
                        (List.filter sel entries)).
  { induction entries as [|e rest IH]; intros acc; simpl.
    - now rewrite app_nil_r.
    - rewrite IH. destruct (sel e); [|reflexivity].
      simpl. rewrite <- app_assoc. simpl. rewrite Nat.add_0_r. do 2 f_equal.
      apply imap_ext. intros i x _. rewrite length_app. simpl.
      f_equal. lia. }
  assert (Hsel : forall t bs,
             Forall2 (fun p b => p = Historian.Fulfilled b)
               (imap f (List.filter sel (Header.tree t))) bs
             <-> List.length bs = List.length (List.filter sel (Header.tree t))
                 /\ forall (i : nat) entry,
                      List.filter sel (Header.tree t) !! i = Some entry ->
                      exists b, bs !! i = Some b /\ f i entry = Historian.Fulfilled b).
  { intros t bs. rewrite Forall2_same_length_lookup, length_imap. split.
    - intros [Hlen H]. split; [now symmetry|].
      intros i entry Hi.
      destruct (bs !! i) as [b|] eqn:Hb.
      + exists b. split; [reflexivity|].
        apply (H i (f i entry) b); [|exact Hb].
        rewrite list_lookup_imap, Hi. reflexivity.
      + apply lookup_ge_None in Hb. apply lookup_lt_Some in Hi. lia.
    - intros [Hlen H]. split; [now symmetry|].
      intros i p b Hp Hb. rewrite list_lookup_imap in Hp.
      destruct (List.filter sel (Header.tree t) !! i) as [entry|] eqn:Hi;
        [|discriminate].
      simpl in Hp. injection Hp as <-.
      destruct (H i entry Hi) as [b2 [Hb2 Hf]]. congruence. }
  destruct (Header.getTree restGetTree enc (clock O) h sha0 true) as [t|e|] eqn:Et.
  - change (fun (blobsP : list (Historian.Promise B)) (entry : Header.ITreeEntry) =>
              if String.eqb (Header.type entry) "blob"
                 && Header.endsWith (Header.path entry) Header.includeBlobs
              then blobsP
                   ++ [Header.getBlob B restGetBlob enc (clock (S (List.length blobsP))) h
                         (Header.sha entry)]
              else blobsP)
      with (fun (blobsP : list (Historian.Promise B)) entry =>
              if sel entry then blobsP ++ [f (List.length blobsP) entry] else blobsP).
    rewrite Hloop. simpl app.
    change (fun i : nat => f (List.length (@nil (Historian.Promise B)) + i)%nat)
      with f.
    destruct (Header.promiseAll race _) as [bs|e|] eqn:Ea.
    + split.
      * intros [= <-]. simpl. split; [reflexivity|].
        apply (Hsel t bs). now apply (promiseAll_fulfilled race).
      * intros [Ht Hf]. destruct hd as [bs2 t2]. simpl in *.
        injection Ht as <-.
        apply (Hsel t bs2) in Hf. apply (proj2 (promiseAll_fulfilled race _ _)) in Hf.
        pose proof (eq_trans (eq_sym Ea) Hf) as He. now injection He as ->.
    + split; [discriminate|]. intros [Ht Hf]. destruct hd as [bs2 t2]. simpl in *.
      injection Ht as <-.
      apply (Hsel t bs2) in Hf. apply (proj2 (promiseAll_fulfilled race _ _)) in Hf.
      pose proof (eq_trans (eq_sym Ea) Hf) as He. discriminate He.
    + split; [discriminate|]. intros [Ht Hf]. destruct hd as [bs2 t2]. simpl in *.
      injection Ht as <-.
      apply (Hsel t bs2) in Hf. apply (proj2 (promiseAll_fulfilled race _ _)) in Hf.
      pose proof (eq_trans (eq_sym Ea) Hf) as He. discriminate He.
  - split; [discriminate|]. intros [H _]. discriminate.
  - split; [discriminate|]. intros [H _]. discriminate.
Qed.

Lemma getHeaderDirect_fetches_header_blobs_witness :
  List.length (Header.blobs Cases.exampleHeader) = 2%nat
  /\ exists b,
       Header.blobs Cases.exampleHeader !! 1%nat = Some b
       /\ Header.getBlob string Cases.serveBlob (fun s => s) 2 Cases.plainHistorian "b4"
          = Historian.Fulfilled b.
Proof.
  destruct (proj1 (getHeaderDirect_fetches_header_blobs string Cases.serveTree
                     Cases.serveBlob (fun s => s) Cases.firstReason
                     (fun k => Z.of_nat k) Cases.plainHistorian "t1"
                     Cases.exampleHeader) ltac:(vm_compute; reflexivity))
    as [_ [Hlen H]].
  split; [exact Hlen|].
  exact (H 1%nat
           {| Header.path := ".attributes"; Header.type := "blob";
              Header.sha := "b4" |} eq_refl).
Defined.

(** ** The cursor rule, further *)

(** X3.  Rebasing the cursor over an insertion and then over the removal
    of the inserted range brings it back to where it was. *)
Theorem rebase_insert_then_remove :
  forall (v : Flow.FlowView) (ins rem : Flow.API.IMergeTreeOp),
    Flow.API.type ins = Flow.API.INSERT ->
    Flow.API.type rem = Flow.API.REMOVE ->
    Flow.API.pos1 rem = Flow.API.pos1 ins ->
    Flow.API.pos2 rem = Flow.API.pos1 ins + strlen (Flow.API.text ins) ->
    Flow.pos (Flow.cursor (Flow.rebaseCursor rem (Flow.rebaseCursor ins v)))
    = Flow.pos (Flow.cursor v).
Proof.
  intros v ins rem Hi Hr H1 H2. unfold Flow.rebaseCursor at 2. rewrite Hi.
  pose proof (strlen_nonneg (Flow.API.text ins)) as Hn.
  destruct (Z.leb_spec (Flow.API.pos1 ins) (Flow.pos (Flow.cursor v))).
  - unfold Flow.rebaseCursor. rewrite Hr, pos_setCursorPos, H1, H2.
    destruct (Z.leb_spec (Flow.API.pos1 ins + strlen (Flow.API.text ins))
                (Flow.pos (Flow.cursor v) + strlen (Flow.API.text ins))); [|lia].
    rewrite pos_setCursorPos. lia.
  - unfold Flow.rebaseCursor. rewrite Hr, H1, H2.
    destruct (Z.leb_spec (Flow.API.pos1 ins + strlen (Flow.API.text ins))
                (Flow.pos (Flow.cursor v))); [lia|].
    destruct (Z.geb_spec (Flow.pos (Flow.cursor v)) (Flow.API.pos1 ins)); [lia|].
    reflexivity.
Qed.

Lemma rebase_insert_then_remove_witness :
  Flow.pos (Flow.cursor
     (Flow.rebaseCursor
        {| Flow.API.type := Flow.API.REMOVE; Flow.API.pos1 := 3;
           Flow.API.pos2 := 5; Flow.API.text := "" |}
        (Flow.rebaseCursor
           {| Flow.API.type := Flow.API.INSERT; Flow.API.pos1 := 3;
              Flow.API.pos2 := 0; Flow.API.text := "XY" |}
           (Flow.setCursorPos 4 (Examples.freshView 100))))) = 4.
Proof.
  apply (rebase_insert_then_remove (Flow.setCursorPos 4 (Examples.freshView 100))
           {| Flow.API.type := Flow.API.INSERT; Flow.API.pos1 := 3;
              Flow.API.pos2 := 0; Flow.API.text := "XY" |}
           {| Flow.API.type := Flow.API.REMOVE; Flow.API.pos1 := 3;
              Flow.API.pos2 := 5; Flow.API.text := "" |});
    reflexivity.
Defined.

(** X4.  The cursor rule keeps the order of two positions: of two views
    rebased over the same op, the one whose cursor was not behind is not
    behind afterwards. *)
Theorem rebase_keeps_order :
  forall (delta : Flow.API.IMergeTreeOp) (v1 v2 : Flow.FlowView),
    Flow.pos (Flow.cursor v1) <= Flow.pos (Flow.cursor v2) ->
    Flow.pos (Flow.cursor (Flow.rebaseCursor delta v1))
    <= Flow.pos (Flow.cursor (Flow.rebaseCursor delta v2)).
Proof.
  intros delta v1 v2 H. unfold Flow.rebaseCursor.
  pose proof (strlen_nonneg (Flow.API.text delta)) as Hn.
  destruct (Flow.API.type delta); try exact H.
  - destruct (Z.leb_spec (Flow.API.pos1 delta) (Flow.pos (Flow.cursor v1)));
      destruct (Z.leb_spec (Flow.API.pos1 delta) (Flow.pos (Flow.cursor v2)));
      rewrite ?pos_setCursorPos; lia.
  - destruct (Z.leb_spec (Flow.API.pos2 delta) (Flow.pos (Flow.cursor v1)));
      destruct (Z.leb_spec (Flow.API.pos2 delta) (Flow.pos (Flow.cursor v2)));
      try destruct (Z.geb_spec (Flow.pos (Flow.cursor v1)) (Flow.API.pos1 delta));
      try destruct (Z.geb_spec (Flow.pos (Flow.cursor v2)) (Flow.API.pos1 delta));
      rewrite ?pos_setCursorPos; lia.
Qed.

Lemma rebase_keeps_order_witness :
  Flow.pos (Flow.cursor
     (Flow.rebaseCursor
        {| Flow.API.type := Flow.API.REMOVE; Flow.API.pos1 := 3;
           Flow.API.pos2 := 8; Flow.API.text := "" |}
        (Flow.setCursorPos 5 (Examples.freshView 100))))
  <= Flow.pos (Flow.cursor
       (Flow.rebaseCursor
          {| Flow.API.type := Flow.API.REMOVE; Flow.API.pos1 := 3;
             Flow.API.pos2 := 8; Flow.API.text := "" |}
          (Flow.setCursorPos 9 (Examples.freshView 100)))).
Proof.
  apply (rebase_keeps_order
           {| Flow.API.type := Flow.API.REMOVE; Flow.API.pos1 := 3;
              Flow.API.pos2 := 8; Flow.API.text := "" |}
           (Flow.setCursorPos 5 (Examples.freshView 100))
           (Flow.setCursorPos 9 (Examples.freshView 100))).
  simpl. lia.
Defined.

(** X5.  The callback of [queueRender] does nothing but clear
    [pendingRender] when the message comes from the view's own client,
    or when its op is neither an insertion nor a removal. *)
Theorem callback_skips_own_and_other_ops :
  forall (msg : Flow.API.ISequencedMessage) (v : Flow.FlowView),
    (Flow.API.clientId msg = Flow.longClientId v
     \/ exists delta,
          Flow.API.op msg = Some delta
          /\ Flow.API.type delta <> Flow.API.INSERT
          /\ Flow.API.type delta <> Flow.API.REMOVE) ->
    Flow.remoteCallbackRebase msg v = Flow.setPendingRender false v.
Proof.
  intros msg v [Hown|[delta [Hop [Hi Hr]]]]; unfold Flow.remoteCallbackRebase.
  - replace (Flow.longClientId (Flow.setPendingRender false v))
      with (Flow.longClientId v) by reflexivity.
    rewrite Hown, String.eqb_refl. reflexivity.
  - rewrite Hop. destruct (negb _); [|reflexivity].
    unfold Flow.rebaseCursor. destruct (Flow.API.type delta); congruence.
Qed.

Lemma callback_skips_own_and_other_ops_witness :
  Flow.remoteCallbackRebase (Examples.insertAt "me" 0 "XX")
    (Flow.setCursorPos 5 (Examples.freshView 100))
  = Flow.setPendingRender false (Flow.setCursorPos 5 (Examples.freshView 100)).
Proof.
  apply (callback_skips_own_and_other_ops (Examples.insertAt "me" 0 "XX")
           (Flow.setCursorPos 5 (Examples.freshView 100))).
  left. reflexivity.
Defined.

(** ** Typing *)

(** X6.  A backspace right after a key press undoes it: the cursor is
    back where it was, and the sequence has been asked to insert one
    character at the cursor and then to remove exactly that character;
    each of the two keys has requested a frame of its own. *)
Theorem backspace_undoes_keypress :
  forall (G : Flow.Geometry) (d : Flow.Doc) (code : Z) (w : Flow.World),
    exists w' s,
      Flow.keydownHandler G d Flow.Backspace (Flow.keypressHandler code w) = Some w'
      /\ Flow.pos (Flow.cursor (Flow.view w')) = Flow.pos (Flow.cursor (Flow.view w))
      /\ strlen s = 1
      /\ Flow.issued w'
         = Flow.issued w
           ++ [Flow.InsertText s (Flow.pos (Flow.cursor (Flow.view w)));
               Flow.RemoveText (Flow.pos (Flow.cursor (Flow.view w)))
                 (Flow.pos (Flow.cursor (Flow.view w)) + 1)]
      /\ Flow.frameRequests w'
         = Flow.frameRequests w ++ [Flow.LocalRender; Flow.LocalRender]
      /\ Flow.pendingRender (Flow.view w') = true.
Proof.
  intros G d code w. eexists.
  exists (Flow.fromCharCode (if code =? 13 then CharacterCodes.linefeed else code)).
  split; [reflexivity|].
  split; [simpl; lia|]. split; [reflexivity|].
  split.
  - simpl. rewrite <- app_assoc. simpl.
    replace (Flow.pos (Flow.cursor (Flow.view w)) + 1 - 1)
      with (Flow.pos (Flow.cursor (Flow.view w))) by lia.
    reflexivity.
  - split; [simpl; now rewrite <- app_assoc | reflexivity].
Qed.

(** ** What a layout leaves alone *)

Section Frames.
Import Flow Props Navigation.

Lemma segmentToSpan_steady (segText : string) (ts : TextSegment) (off startChar : Z)
    (rc : bool) (p : Pass) :
  steady (context (segmentToSpan segText ts off startChar rc p)) = steady (context p).
Proof.
  unfold segmentToSpan.
  destruct (rc && (pos (cursor (context p)) >=? startChar + off)
            && (pos (cursor (context p)) <? startChar + off + strlen segText));
    [|reflexivity].
  destruct (pos (cursor (context p)) - (startChar + off) >? 0); reflexivity.
Qed.

Lemma renderFirstSegment_context (G : Geometry) (segPos0 start : Z) (txt : string)
    (ts : TextSegment) (p : Pass) :
  context (fst (fst (renderFirstSegment G segPos0 start txt ts p))) = context p.
Proof. reflexivity. Qed.

Lemma reinsertSpans_steady (G : Geometry) (constraint : Z) (lp : nat) (n : nat) :
  forall (i : nat) (p : Pass) (ls : option TextSegment) (lo : Z) p' ls' lo',
    reinsertSpans G constraint lp n i p ls lo = Some (p', ls', lo') ->
    steady (context p') = steady (context p).
Proof.
  induction n as [|n IH]; intros i p ls lo p' ls' lo' H; simpl in H.
  - now injection H as <- _ _.
  - destruct (lineOf (dom p) lp !! i) as [sp|]; [|now injection H as <- _ _].
    destruct (bottom (spanBounds G (dom p) lp i) <=? constraint).
    + apply IH in H. exact H.
    + destruct (constraint - top (spanBounds G (dom p) lp i) >? hEst);
        [|now injection H as <- _ _].
      destruct (lastFittingPoint _ _ _ _) as [x y].
      destruct (y >? 0); [|now injection H as <- _ _].
      destruct (caretRangeFromPoint G (dom p) (lp, i) x y); [|discriminate].
      injection H as <- _ _.
      destruct (clipBack _ _ >? 0); [apply segmentToSpan_steady | reflexivity].
Qed.

Lemma overflowCheck_steady (G : Geometry) (d : Doc) (last : bool) (p p' : Pass)
    (b : bool) :
  overflowCheck G d last p = Some (p', b) ->
  steady (context p') = steady (context p).
Proof.
  unfold overflowCheck. intros H.
  destruct ((bottom (lineBounds G (dom p) (innerDiv p)) >? _) || last);
    [|now injection H as <- _].
  set (p1 := if 0 <? Z.of_nat (List.length (lineOf (dom p) (innerDiv p)))
             then freshDiv p else p) in *.
  assert (Hp1 : steady (context p1) = steady (context p)).
  { subst p1. destruct (0 <? _); reflexivity. }
  destruct (previousSiblings (children (dom p1)) (innerDiv p1) []) as [|c cs];
    [now injection H as <- _|].
  destruct (pruneLines G _ (c :: cs) (dom p1) None) as [d1 [lp|]];
    [|now injection H as <- _].
  match type of H with
  | match ?e with _ => _ end = _ => destruct e as [[[p4 ls] lo]|] eqn:E; [|discriminate]
  end.
  apply reinsertSpans_steady in E. simpl in E.
  destruct ls; injection H as <- _; simpl; rewrite <- Hp1, <- E; reflexivity.
Qed.

Lemma steady_settings (v v' : FlowView) : steady v = steady v' -> settings v = settings v'.
Proof. intros H. exact (f_equal (fun x => fst (fst (fst x))) H). Qed.

Lemma renderSegment_settings (G : Geometry) (d : Doc) (s : Segment)
    (segPos0 start stop : Z) (p p' : Pass) (b : bool) :
  renderSegment G d s segPos0 start stop p = Some (p', b) ->
  settings (context p') = settings (context p).
Proof.
  unfold renderSegment. destruct s as [ts|n]; [|now intros [= <- _]].
  set (p1 := if firstSeg p && notSameSegment ts (prevTopSegment (context p))
             then _ else p).
  assert (Hp1 : settings (context p1) = settings (context p)).
  { subst p1. destruct (firstSeg p && _); reflexivity. }
  assert (Hcur : forall (a : Z) (v : FlowView),
             settings (if pos (cursor (setAdjustedTopChar (Some a) v)) <? a
                       then setCursorPos a (setAdjustedTopChar (Some a) v)
                       else setAdjustedTopChar (Some a) v) = settings v).
  { intros a v. destruct (_ <? a); reflexivity. }
  match goal with
  | |- match ?e with _ => _ end = _ -> _ =>
      assert (Hp2 : settings (context (fst (fst e))) = settings (context p));
      [|destruct e as [[p2 segText] segOffset]]
  end.
  { destruct (start >? 0).
    - destruct (splitTopSeg p1).
      + pose proof (renderFirstSegment_context G segPos0 start (text ts) ts p1) as Hf.
        destruct (renderFirstSegment G segPos0 start (text ts) ts p1) as [[q st] so].
        cbn [fst] in *. cbn [context setContext]. rewrite Hcur, Hf. exact Hp1.
      + cbn [fst context setContext]. rewrite Hcur. exact Hp1.
    - destruct (firstSeg p1); cbn [fst]; [exact Hp1 | exact Hp1]. }
  cbn [fst] in Hp2. intros H.
  set (p5 := segmentToSpan segText ts segOffset segPos0 true _) in H.
  assert (Hp5 : settings (context p5) = settings (context p)).
  { subst p5. rewrite (steady_settings _ _ (segmentToSpan_steady _ _ _ _ _ _)).
    exact Hp2. }
  set (p6 := if endsWithNewline segText then freshDiv p5 else p5) in H.
  assert (Hp6 : settings (context p6) = settings (context p)).
  { subst p6. destruct (endsWithNewline segText); exact Hp5. }
  destruct ((charLength p6 >? charsPerViewport G) || _).
  - apply overflowCheck_steady, steady_settings in H. congruence.
  - injection H as <- _. exact Hp6.
Qed.

Lemma nodeMap_settings (G : Geometry) (d : Doc) (segs : list Segment) :
  forall (at_ start stop : Z) (p p' : Pass),
    nodeMap (renderSegment G d) segs at_ start stop p = Some p' ->
    settings (context p') = settings (context p).
Proof.
  induction segs as [|s rest IH]; intros at_ start stop p p' H; simpl in H.
  - now injection H as <-.
  - destruct ((stop >? 0) && (segLength s >? 0) && (start <? segLength s)).
    + destruct (renderSegment G d s at_ start stop p) as [[q go]|] eqn:E;
        [|discriminate].
      apply renderSegment_settings in E. destruct go.
      * apply IH in H. congruence.
      * injection H as <-. exact E.
    + now apply IH in H.
Qed.

Lemma settleViewportEnd_settings (p : Pass) :
  settings (context (settleViewportEnd p)) = settings (context p).
Proof.
  unfold settleViewportEnd. destruct (optLt _ 0); [|reflexivity].
  destruct (findLastChar (dom p) <? 0); reflexivity.
Qed.

Lemma placeCursor_settings (p : Pass) :
  settings (context (placeCursor p)) = settings (context p).
Proof.
  unfold placeCursor. destruct (negb _ || _); [|reflexivity].
  destruct (lineOf (dom p) firstDiv); reflexivity.
Qed.

Lemma renderTree_settings (G : Geometry) (d : Doc) (start : Z) (v v' : FlowView) :
  renderTree G d start v = Some v' -> settings v' = settings v.
Proof.
  unfold renderTree, renderTreePass, mapRange. intros H.
  destruct (nodeMap (renderSegment G d) d 0 start (getLength d) (startPass v))
    as [p|] eqn:E; [|discriminate].
  injection H as <-. apply nodeMap_settings in E.
  change (settings (context (placeCursor (settleViewportEnd p))) = settings v).
  rewrite placeCursor_settings, settleViewportEnd_settings. exact E.
Qed.

(** [render] assigns [topChar] and nothing else of the settings. *)
Lemma render_settings (G : Geometry) (d : Doc) (t : option Z) (changed : bool)
    (v : FlowView) (r : JsValue) (v' : FlowView) :
  render G d t changed v = Some (r, v') ->
  exists t', settings v' = settings (setTopChar t' v).
Proof.
  unfold render. intros H. destruct t as [t|].
  - destruct (((topChar v =? t) || (topChar v =? 0) && (t <=? 0)) && negb changed).
    + injection H as _ <-. exists (topChar v). reflexivity.
    + match type of H with
      | match renderTree G d ?s ?x with _ => _ end = _ =>
          destruct (renderTree G d s x) as [v2|] eqn:E; [|discriminate]
      end.
      injection H as _ <-. apply renderTree_settings in E. rewrite E. clear E.
      repeat match goal with
             | |- context [if ?c then _ else _] => destruct c
             end; eexists; reflexivity.
  - match type of H with
    | match renderTree G d ?s ?x with _ => _ end = _ =>
        destruct (renderTree G d s x) as [v2|] eqn:E; [|discriminate]
    end.
    injection H as _ <-. apply renderTree_settings in E. rewrite E.
    exists (topChar v). reflexivity.
Qed.

Lemma render_pendingRender (G : Geometry) (d : Doc) (t : option Z) (changed : bool)
    (v : FlowView) (r : JsValue) (v' : FlowView) :
  render G d t changed v = Some (r, v') -> pendingRender v' = pendingRender v.
Proof.
  intros H. apply render_settings in H. destruct H as [t' H].
  unfold settings in H. now injection H.
Qed.

End Frames.

(** X7.  A layout pass assigns the page, the cursor, [prevTopSegment],
    [adjustedTopChar] and [viewportEndChar] and nothing else: the top
    offset, the estimates, the client id, the remembered column and
    [pendingRender] come out of [renderTree] as they went in, and out of
    [render] as well, but for the top offset. *)
Theorem layout_leaves_settings :
  forall (G : Flow.Geometry) (d : Flow.Doc),
    (forall start v v',
        Flow.renderTree G d start v = Some v' ->
        Navigation.settings v' = Navigation.settings v)
    /\ (forall t changed v r v',
           Flow.render G d t changed v = Some (r, v') ->
           Navigation.settings v'
           = Navigation.settings (Flow.setTopChar (Flow.topChar v') v)).
Proof.
  intros G d. split.
  - intros start v v'. apply renderTree_settings.
  - intros t changed v r v' H. destruct (render_settings G d t changed v r v' H) as [t' Ht].
    rewrite Ht. unfold Navigation.settings in *. injection Ht as _ _ _ _ -> _ _ .
    reflexivity.
Qed.

Lemma layout_leaves_settings_witness :
  Navigation.settings Examples.loadedAB = Navigation.settings (Examples.freshView 100).
Proof.
  apply (proj1 (layout_leaves_settings Examples.tenRows Examples.docAB) 0
           (Flow.clearSubtree (Examples.freshView 100))).
  vm_compute. reflexivity.
Defined.

(** ** The scheduler, over any run *)

Section SchedulerInvariant.
Import Flow Props Navigation.

Lemma scheduled_push_local (v : FlowView) (iss : list SeqCall)
    (q : list FrameCallback) :
  forallb isLocal (tail q) = true ->
  scheduled {| view := setPendingRender true v; issued := iss;
               frameRequests := q ++ [LocalRender] |}.
Proof.
  intros Hq. split.
  - split; [|reflexivity]. intros _. destruct q; discriminate.
  - cbn [frameRequests]. destruct q as [|c q]; [reflexivity|].
    cbn [tail app] in *. rewrite forallb_app, Hq. reflexivity.
Qed.

Lemma scheduled_same_queue (w : World) (v : FlowView) :
  pendingRender v = pendingRender (view w) ->
  scheduled w -> scheduled (withView v w).
Proof. intros Hp [Hiff Hq]. split; [cbn; now rewrite Hp | exact Hq]. Qed.

Lemma runCallback_pending (G : Geometry) (d : Doc) (cb : FrameCallback)
    (v v' : FlowView) :
  runCallback G d cb v = Some v' -> pendingRender v' = false.
Proof.
  destruct cb as [|msg]; cbn [runCallback]; unfold localCallback, remoteCallback;
    intros H.
  - destruct (render G d _ true (setPendingRender false v)) as [[r v2]|] eqn:E;
      [|discriminate].
    injection H as <-. now apply render_pendingRender in E.
  - destruct (render G d _ true (remoteCallbackRebase msg v)) as [[r v2]|] eqn:E;
      [|discriminate].
    injection H as <-. apply render_pendingRender in E. rewrite E.
    unfold remoteCallbackRebase. destruct (negb _); [|reflexivity].
    destruct (API.op msg) as [delta|]; [|reflexivity].
    unfold rebaseCursor. destruct (API.type delta); try reflexivity.
    + destruct (_ <=? _); reflexivity.
    + destruct (_ <=? _); [reflexivity|]. destruct (_ >=? _); reflexivity.
Qed.

Lemma runCallbacks_pending (G : Geometry) (d : Doc) (cbs : list FrameCallback) :
  forall (v v' : FlowView),
    cbs <> [] -> runCallbacks G d cbs v = Some v' -> pendingRender v' = false.
Proof.
  induction cbs as [|cb rest IH]; intros v v' Hne H; [contradiction|].
  cbn [runCallbacks] in H.
  destruct (runCallback G d cb v) as [v1|] eqn:E; [|discriminate].
  destruct rest as [|cb2 rest].
  - injection H as <-. now apply runCallback_pending in E.
  - now apply (IH v1 v').
Qed.

Lemma step_scheduled (G : Geometry) (d : Doc) (e : Event) (w w' : World) :
  scheduled w -> step G d e w = Some w' -> scheduled w'.
Proof.
  intros Hs H. pose proof Hs as [Hiff Hq]. destruct e as [k|code|msg|]; cbn [step] in H.
  - destruct k; cbn [keydownHandler] in H.
    + injection H as <-. now apply scheduled_push_local.
    + destruct (render G d (Some 0) false _) as [[r v2]|] eqn:E; [|discriminate].
      injection H as <-. apply render_pendingRender in E.
      now apply scheduled_same_queue.
    + destruct (render G d _ false _) as [[r v2]|] eqn:E; [|discriminate].
      injection H as <-. apply render_pendingRender in E.
      now apply scheduled_same_queue.
    + destruct (render G d _ true _) as [[r v2]|] eqn:E; [|discriminate].
      injection H as <-. apply render_pendingRender in E.
      now apply scheduled_same_queue.
    + destruct (render G d _ true _) as [[r v2]|] eqn:E; [|discriminate].
      injection H as <-. apply render_pendingRender in E.
      now apply scheduled_same_queue.
    + injection H as <-. now apply scheduled_same_queue.
  - injection H as <-. now apply scheduled_push_local.
  - injection H as <-. unfold queueRender. destruct msg as [m|]; [|exact Hs].
    destruct (pendingRender (view w)) eqn:Ep; cbn [negb andb]; [exact Hs|].
    destruct (bool_decide (is_Some (API.op m))); [|exact Hs].
    assert (Hempty : frameRequests w = []).
    { destruct (frameRequests w) as [|c q] eqn:Eq; [reflexivity|].
      assert (false = true) by (apply Hiff; discriminate). discriminate. }
    rewrite Hempty. split; [|reflexivity]. split; [discriminate | reflexivity].
  - unfold animationFrame in H.
    destruct (runCallbacks G d (frameRequests w) (view w)) as [v|] eqn:E;
      [|discriminate].
    injection H as <-. split; [|reflexivity]. cbn [view frameRequests].
    assert (Hf : pendingRender v = false).
    { destruct (frameRequests w) as [|c q] eqn:Eq.
      - injection E as <-. destruct (pendingRender (view w)) eqn:Ep; [|reflexivity].
        exfalso. now apply (proj1 Hiff eq_refl).
      - apply (runCallbacks_pending G d (c :: q) (view w) v); [discriminate | exact E]. }
    rewrite Hf. split; [discriminate | contradiction].
Qed.

Lemma scheduled_one_remote (w : World) :
  scheduled w ->
  (List.length (List.filter (fun cb => negb (isLocal cb)) (frameRequests w)) <= 1)%nat.
Proof.
  intros [_ Hq]. destruct (frameRequests w) as [|c q]; [simpl; lia|].
  cbn [tail] in Hq. cbn [List.filter].
  assert (Hnone : List.filter (fun cb => negb (isLocal cb)) q = []).
  { induction q as [|x q IH]; [reflexivity|]. cbn [forallb] in Hq.
    apply andb_true_iff in Hq. destruct Hq as [Hx Hq]. cbn [List.filter].
    rewrite Hx. cbn [negb]. now apply IH. }
  rewrite Hnone. destruct (negb (isLocal c)); simpl; lia.
Qed.

End SchedulerInvariant.

(** X8.  Whatever keys, notifications and animation frames follow one
    another, [pendingRender] is set exactly while callbacks are waiting
    for a frame, and of the waiting callbacks only the oldest can be one
    of [queueRender]: at most one is waiting at any time. *)
Theorem scheduler_keeps_one_remote_job :
  forall (G : Flow.Geometry) (trace : list (Flow.Doc * Flow.Event))
         (w w' : Flow.World),
    Navigation.scheduled w ->
    Flow.run G trace w = Some w' ->
    Navigation.scheduled w'
    /\ (List.length (List.filter (fun cb => negb (Navigation.isLocal cb))
                       (Flow.frameRequests w')) <= 1)%nat.
Proof.
  intros G trace. induction trace as [|[d e] rest IH]; intros w w' Hs H;
    cbn [Flow.run] in H.
  - injection H as <-. split; [exact Hs | now apply scheduled_one_remote].
  - destruct (Flow.step G d e w) as [w1|] eqn:E; [|discriminate].
    apply (IH w1 w'); [|exact H]. exact (step_scheduled G d e w w1 Hs E).
Qed.

Lemma scheduler_keeps_one_remote_job_witness :
  (List.length
     (List.filter (fun cb => negb (Navigation.isLocal cb))
        (Flow.frameRequests
           (Flow.keypressHandler 65
              (Flow.queueRender (Some (Examples.insertAt "other" 0 "Y"))
                 (Flow.queueRender (Some (Examples.insertAt "other" 0 "X"))
                    Examples.startWorld))))) <= 1)%nat.
Proof.
  apply (proj2 (scheduler_keeps_one_remote_job Examples.tenRows
                  [(Examples.docAB, Flow.OpReceived (Some (Examples.insertAt "other" 0 "X")));
                   (Examples.docAB, Flow.OpReceived (Some (Examples.insertAt "other" 0 "Y")));
                   (Examples.docAB, Flow.KeyPress 65)]
                  Examples.startWorld _
                  ltac:(split; [vm_compute; split; [discriminate | intros H; exfalso; now apply H]
                               | reflexivity])
                  eq_refl)).
Defined.

(** ** The top offset *)

Section TopOffset.
Import Flow Props Navigation.

Lemma render_topChar_unset (G : Geometry) (d : Doc) (changed : bool)
    (v : FlowView) (r : JsValue) (v' : FlowView) :
  render G d None changed v = Some (r, v') -> topChar v' = topChar v.
Proof.
  unfold render. intros H.
  match type of H with
  | match renderTree G d ?s ?x with _ => _ end = _ =>
      destruct (renderTree G d s x) as [v2|] eqn:E; [|discriminate]
  end.
  injection H as _ <-. now apply renderTree_topChar in E.
Qed.

Lemma clampTop_range (t len cpl : Z) :
  0 <= len -> 0 <= cpl ->
  0 <= clampTop t len cpl <= len
  /\ (t < len -> clampTop t len cpl = Z.max 0 t).
Proof.
  intros Hl Hc. unfold clampTop.
  destruct (Z.geb_spec t len).
  - destruct (Z.ltb_spec (len - cpl) 0); lia.
  - destruct (Z.ltb_spec t 0); lia.
Qed.

End TopOffset.

(** X9.  [render] keeps the top offset inside the sequence: if the top
    offset is between 0 and the length before the call, it is so after
    the call, whatever [topChar] is asked for; a call that lays out
    puts it there by itself.  (The estimate [charsPerLine] is not
    negative.) *)
Theorem render_keeps_top_in_range :
  forall (G : Flow.Geometry) (d : Flow.Doc) (t : option Z) (changed : bool)
         (v : Flow.FlowView) (r : JsValue) (v' : Flow.FlowView),
    0 <= Flow.getLength d ->
    0 <= Flow.charsPerLine v ->
    Flow.render G d t changed v = Some (r, v') ->
    (0 <= Flow.topChar v <= Flow.getLength d ->
     0 <= Flow.topChar v' <= Flow.getLength d)
    /\ (forall t0, t = Some t0 -> Props.returnsEarly t0 changed v = false ->
        0 <= Flow.topChar v' <= Flow.getLength d
        /\ (t0 < Flow.getLength d -> Flow.topChar v' = Z.max 0 t0)).
Proof.
  intros G d t changed v r v' Hl Hc H.
  assert (Hlay : forall t0, t = Some t0 -> Props.returnsEarly t0 changed v = false ->
                 0 <= Flow.topChar v' <= Flow.getLength d
                 /\ (t0 < Flow.getLength d -> Flow.topChar v' = Z.max 0 t0)).
  { intros t0 -> He. rewrite (render_topChar G d t0 changed v r v' H He).
    now apply clampTop_range. }
  split; [|exact Hlay]. intros Hv. destruct t as [t0|].
  - destruct (Props.returnsEarly t0 changed v) eqn:He.
    + rewrite (render_early G d t0 changed v He) in H. now injection H as _ <-.
    + now apply (Hlay t0 eq_refl).
  - now rewrite (render_topChar_unset G d changed v r v' H).
Qed.

Lemma render_keeps_top_in_range_witness :
  0 <= Flow.topChar Examples.scrolledTo90 <= Flow.getLength Examples.docAB.
Proof.
  apply (proj1 (render_keeps_top_in_range Examples.tenRows Examples.docAB (Some 90)
                  false Examples.loadedAB VUndefined Examples.scrolledTo90
                  ltac:(vm_compute; discriminate) ltac:(vm_compute; discriminate)
                  ltac:(vm_compute; reflexivity))).
  vm_compute. split; discriminate.
Defined.

(** X10.  [scroll] does nothing upwards when the top offset is 0 and
    nothing downwards when the top offset is past the length less half
    a viewport.  Otherwise it calls [render] with the top offset moved
    by half a viewport, which leaves the top offset there once [render]
    has brought it into the sequence ([length - charsPerLine] when it
    is at or past the end, 0 when it is negative), or where it was when
    [render] returns at once.  So when the top offset is not negative,
    half a viewport is at least one character and the top offset plus
    half a viewport is below the length, scrolling down moves the top
    offset half a viewport forth and scrolling up again brings it back;
    with the top offset exactly half a viewport before the end,
    scrolling down is no no-op and leaves
    [max(0, length - charsPerLine)]. *)
Theorem scroll_down_then_up :
  forall (G : Flow.Geometry) (d : Flow.Doc) (v : Flow.FlowView),
    let halfport := Flow.viewportCharCount v / 2 in
    (Flow.topChar v = 0 -> Navigation.scroll G d true v = Some v)
    /\ (Flow.topChar v > Flow.getLength d - halfport ->
        Navigation.scroll G d false v = Some v)
    /\ (forall v1 v2,
           0 <= Flow.topChar v ->
           0 < halfport ->
           Flow.topChar v + halfport < Flow.getLength d ->
           Navigation.scroll G d false v = Some v1 ->
           Navigation.scroll G d true v1 = Some v2 ->
           Flow.topChar v1 = Flow.topChar v + halfport
           /\ Flow.topChar v2 = Flow.topChar v)
    /\ (forall (up : bool) v1,
           (if up then Flow.topChar v <> 0
            else Flow.topChar v <= Flow.getLength d - halfport) ->
           Navigation.scroll G d up v = Some v1 ->
           let scrollTo :=
             if up then Flow.topChar v - halfport else Flow.topChar v + halfport in
           Flow.topChar v1
           = if Props.returnsEarly scrollTo false v then Flow.topChar v
             else Props.clampTop scrollTo (Flow.getLength d) (Flow.charsPerLine v))
    /\ (forall v1,
           0 < halfport ->
           Flow.topChar v + halfport = Flow.getLength d ->
           Navigation.scroll G d false v = Some v1 ->
           Flow.topChar v1 = Z.max 0 (Flow.getLength d - Flow.charsPerLine v)).
Proof.
  intros G d v halfport.
  assert (Hgen : forall (up : bool) v1,
             (if up then Flow.topChar v <> 0
              else Flow.topChar v <= Flow.getLength d - halfport) ->
             Navigation.scroll G d up v = Some v1 ->
             Flow.topChar v1
             = if Props.returnsEarly
                    (if up then Flow.topChar v - halfport else Flow.topChar v + halfport)
                    false v
               then Flow.topChar v
               else Props.clampTop
                      (if up then Flow.topChar v - halfport else Flow.topChar v + halfport)
                      (Flow.getLength d) (Flow.charsPerLine v)).
  { intros up v1 Hguard H. unfold Navigation.scroll in H. fold halfport in H.
    assert (Hno : (up && (Flow.topChar v =? 0))
                  || (negb up && (Flow.topChar v >? Flow.getLength d - halfport))
                  = false).
    { destruct up; cbn [andb negb orb].
      - destruct (Z.eqb_spec (Flow.topChar v) 0); [contradiction|reflexivity].
      - destruct (Z.gtb_spec (Flow.topChar v) (Flow.getLength d - halfport));
          [lia|reflexivity]. }
    rewrite Hno in H.
    set (scrollTo := if up then Flow.topChar v - halfport
                     else Flow.topChar v + halfport) in *.
    destruct (Flow.render G d (Some scrollTo) false v) as [[r x]|] eqn:E;
      [|discriminate].
    injection H as ->.
    destruct (Props.returnsEarly scrollTo false v) eqn:He.
    - rewrite (render_early G d scrollTo false v He) in E. now injection E as _ <-.
    - exact (render_topChar G d scrollTo false v r v1 E He). }
  split; [|split; [|split; [|split]]].
  - intros H0. unfold Navigation.scroll. rewrite H0. reflexivity.
  - intros Hend. unfold Navigation.scroll. fold halfport.
    destruct (Z.gtb_spec (Flow.topChar v) (Flow.getLength d - halfport)); [|lia].
    cbn [negb andb]. rewrite orb_true_r. reflexivity.
  - intros v1 v2 Hv Hh Hin H1 H2.
    assert (Ht1 : Flow.topChar v1 = Flow.topChar v + halfport
                  /\ Flow.viewportCharCount v1 = Flow.viewportCharCount v).
    { unfold Navigation.scroll in H1. fold halfport in H1. cbn [negb andb] in H1.
      destruct (Z.gtb_spec (Flow.topChar v) (Flow.getLength d - halfport)); [lia|].
      cbn [orb] in H1.
      destruct (Flow.render G d (Some (Flow.topChar v + halfport)) false v)
        as [[r x]|] eqn:E; [|discriminate].
      injection H1 as ->. split.
      - rewrite (render_topChar G d _ false v r v1 E).
        + unfold Props.clampTop.
          destruct (Z.geb_spec (Flow.topChar v + halfport) (Flow.getLength d)); [lia|].
          destruct (Z.ltb_spec (Flow.topChar v + halfport) 0); lia.
        + unfold Props.returnsEarly.
          destruct (Z.eqb_spec (Flow.topChar v) (Flow.topChar v + halfport)); [lia|].
          destruct (Z.leb_spec (Flow.topChar v + halfport) 0); [lia|].
          now rewrite andb_false_r.
      - destruct (render_settings G d _ false v r v1 E) as [t' Hs].
        unfold Navigation.settings in Hs. now injection Hs. }
    destruct Ht1 as [Ht1 Hvcc]. split; [exact Ht1|].
    unfold Navigation.scroll in H2. rewrite Hvcc in H2. fold halfport in H2.
    destruct (Z.eqb_spec (Flow.topChar v1) 0); [lia|]. cbn [andb negb orb] in H2.
    destruct (Flow.render G d (Some (Flow.topChar v1 - halfport)) false v1)
      as [[r x]|] eqn:E; [|discriminate].
    injection H2 as ->.
    rewrite (render_topChar G d _ false v1 r v2 E).
    + unfold Props.clampTop.
      destruct (Z.geb_spec (Flow.topChar v1 - halfport) (Flow.getLength d)); [lia|].
      destruct (Z.ltb_spec (Flow.topChar v1 - halfport) 0); lia.
    + unfold Props.returnsEarly.
      destruct (Z.eqb_spec (Flow.topChar v1) (Flow.topChar v1 - halfport)); [lia|].
      destruct (Z.eqb_spec (Flow.topChar v1) 0); [lia|]. reflexivity.
  - intros up v1 Hguard H scrollTo. exact (Hgen up v1 Hguard H).
  - intros v1 Hh Hedge H.
    assert (Hg : Flow.topChar v <= Flow.getLength d - halfport) by lia.
    rewrite (Hgen false v1 Hg H).
    assert (He : Props.returnsEarly (Flow.topChar v + halfport) false v = false).
    { unfold Props.returnsEarly.
      destruct (Z.eqb_spec (Flow.topChar v) (Flow.topChar v + halfport)); [lia|].
      destruct (Z.eqb_spec (Flow.topChar v) 0);
        destruct (Z.leb_spec (Flow.topChar v + halfport) 0);
        try reflexivity; lia. }
    rewrite He. unfold Props.clampTop.
    destruct (Z.geb_spec (Flow.topChar v + halfport) (Flow.getLength d)); [|lia].
    destruct (Z.ltb_spec (Flow.getLength d - Flow.charsPerLine v) 0); lia.
Qed.

Lemma scroll_down_then_up_witness :
  (Flow.topChar Cases.scrolledDown = Flow.topChar Examples.loadedAB + 100 / 2
   /\ Flow.topChar Cases.scrolledBack = Flow.topChar Examples.loadedAB)
  /\ Flow.topChar Cases.scrolledFromEdge
     = Z.max 0 (Flow.getLength Examples.docAB - Flow.charsPerLine Cases.scrolledDown).
Proof.
  split.
  - apply (proj1 (proj2 (proj2 (scroll_down_then_up Examples.tenRows Examples.docAB
                                  Examples.loadedAB)))
             Cases.scrolledDown Cases.scrolledBack).
    + vm_compute. discriminate.
    + vm_compute. reflexivity.
    + vm_compute. reflexivity.
    + vm_compute. reflexivity.
    + vm_compute. reflexivity.
  - apply (proj2 (proj2 (proj2 (proj2 (scroll_down_then_up Examples.tenRows
                                         Examples.docAB Cases.scrolledDown))))
             Cases.scrolledFromEdge).
    + vm_compute. reflexivity.
    + vm_compute. reflexivity.
    + vm_compute. reflexivity.
Defined.

(** X11.  The Home key brings the top offset to 0.  The End key brings
    it to half a viewport before the end of the sequence, or to 0 when
    the sequence is shorter than that.  (The top offset and the estimate
    [charsPerLine] are not negative, and half a viewport is at least one
    character.) *)
Theorem home_and_end_keys :
  forall (G : Flow.Geometry) (d : Flow.Doc) (w w' : Flow.World),
    0 <= Flow.getLength d ->
    0 <= Flow.charsPerLine (Flow.view w) ->
    (Flow.keydownHandler G d Flow.Home w = Some w' ->
     Flow.topChar (Flow.view w') = 0)
    /\ (0 <= Flow.topChar (Flow.view w) ->
        0 < Flow.viewportCharCount (Flow.view w) / 2 ->
        Flow.keydownHandler G d Flow.End_ w = Some w' ->
        Flow.topChar (Flow.view w')
        = Z.max 0 (Flow.getLength d - Flow.viewportCharCount (Flow.view w) / 2)).
Proof.
  intros G d w w' Hl Hc. split.
  - cbn [Flow.keydownHandler]. intros H.
    destruct (Flow.render G d (Some 0) false _) as [[r v2]|] eqn:E; [|discriminate].
    injection H as <-. cbn [Flow.view Flow.withView].
    match type of E with Flow.render _ _ _ _ ?v1 = _ => set (v1' := v1) in * end.
    destruct (Props.returnsEarly 0 false v1') eqn:He.
    + rewrite (render_early G d 0 false v1' He) in E. injection E as _ <-.
      unfold Props.returnsEarly in He. rewrite andb_true_r in He.
      apply orb_true_iff in He. destruct He as [He|He].
      * now apply Z.eqb_eq in He.
      * apply andb_true_iff in He. destruct He as [He _]. now apply Z.eqb_eq in He.
    + rewrite (render_topChar G d 0 false v1' r v2 E He).
      unfold Props.clampTop. change (Flow.charsPerLine v1') with (Flow.charsPerLine (Flow.view w)).
      destruct (Z.geb_spec 0 (Flow.getLength d)).
      * destruct (Z.ltb_spec (Flow.getLength d - Flow.charsPerLine (Flow.view w)) 0); lia.
      * reflexivity.
  - cbn [Flow.keydownHandler]. intros Hv Hh H.
    change (Flow.viewportCharCount (Flow.setLastVerticalX (-1) (Flow.view w)))
      with (Flow.viewportCharCount (Flow.view w)) in H.
    set (halfport := Flow.viewportCharCount (Flow.view w) / 2) in *.
    destruct (Flow.render G d (Some (Flow.getLength d - halfport)) false _)
      as [[r v2]|] eqn:E; [|discriminate].
    injection H as <-. cbn [Flow.view Flow.withView].
    match type of E with Flow.render _ _ _ _ ?v1 = _ => set (v1' := v1) in * end.
    assert (Htop : Flow.topChar v1' = Flow.topChar (Flow.view w)) by reflexivity.
    destruct (Props.returnsEarly (Flow.getLength d - halfport) false v1') eqn:He.
    + rewrite (render_early G d _ false v1' He) in E. injection E as _ <-.
      unfold Props.returnsEarly in He. rewrite andb_true_r in He.
      apply orb_true_iff in He. destruct He as [He|He].
      * apply Z.eqb_eq in He. lia.
      * apply andb_true_iff in He. destruct He as [He1 He2].
        apply Z.eqb_eq in He1. apply Z.leb_le in He2. lia.
    + rewrite (render_topChar G d _ false v1' r v2 E He).
      unfold Props.clampTop.
      destruct (Z.geb_spec (Flow.getLength d - halfport) (Flow.getLength d)); [lia|].
      destruct (Z.ltb_spec (Flow.getLength d - halfport) 0); lia.
Qed.

Lemma home_and_end_keys_witness :
  Flow.topChar (Flow.view Cases.afterHome) = 0
  /\ Flow.topChar (Flow.view Cases.afterEnd)
     = Z.max 0 (Flow.getLength Examples.docAB - 100 / 2).
Proof.
  split.
  - apply (proj1 (home_and_end_keys Examples.tenRows Examples.docAB
                    Examples.startWorld Cases.afterHome
                    ltac:(vm_compute; discriminate) ltac:(vm_compute; discriminate))).
    vm_compute. reflexivity.
  - apply (proj2 (home_and_end_keys Examples.tenRows Examples.docAB
                    Examples.startWorld Cases.afterEnd
                    ltac:(vm_compute; discriminate) ltac:(vm_compute; discriminate))).
    + vm_compute. discriminate.
    + vm_compute. reflexivity.
    + vm_compute. reflexivity.
Defined.

(** ** The spans of a segment *)

(** X12.  [segmentToSpan] adds one span to the current line, or two when
    the cursor lies inside the text: it touches no other line, the texts
    of the new spans put together are the text it was given, and it
    never moves the cursor.  When the cursor lies inside, the second
    span starts exactly at the cursor and becomes the host of the
    marker; otherwise the view is left as it was. *)
Theorem segmentToSpan_splits_at_cursor :
  forall (segText : string) (ts : Flow.TextSegment) (off startChar : Z)
         (renderCursor : bool) (p : Flow.Pass),
    (Flow.innerDiv p < List.length (Flow.lines (Flow.dom p)))%nat ->
    0 <= off ->
    let p' := Flow.segmentToSpan segText ts off startChar renderCursor p in
    let c := Flow.pos (Flow.cursor (Flow.context p)) in
    let inside := renderCursor && (c >=? startChar + off)
                  && (c <? startChar + off + strlen segText) in
    exists new,
      Flow.lineOf (Flow.dom p') (Flow.innerDiv p)
      = Flow.lineOf (Flow.dom p) (Flow.innerDiv p) ++ new
      /\ (forall id, id <> Flow.innerDiv p ->
          Flow.lineOf (Flow.dom p') id = Flow.lineOf (Flow.dom p) id)
      /\ Flow.children (Flow.dom p') = Flow.children (Flow.dom p)
      /\ Flow.innerDiv p' = Flow.innerDiv p
      /\ fold_right (fun s acc => (Flow.innerText s ++ acc)%string) ""%string new
         = segText
      /\ Forall (fun s => Flow.seg s = ts /\ Flow.segPos s = startChar) new
      /\ Flow.pos (Flow.cursor (Flow.context p')) = c
      /\ (inside = true ->
          Flow.cursorRendered p' = true
          /\ exists s,
               last new = Some s
               /\ Flow.parentSpan (Flow.cursor (Flow.context p')) = Some s
               /\ Props.spanStart s = c)
      /\ (inside = false ->
          List.length new = 1%nat
          /\ Flow.context p' = Flow.context p
          /\ Flow.cursorRendered p' = Flow.cursorRendered p).
Proof.
  intros segText ts off startChar rc p Hid Hoff p' c inside.
  subst p'. unfold Flow.segmentToSpan. fold c. fold inside.
  destruct inside eqn:Hin.
  - subst inside. apply andb_true_iff in Hin. destruct Hin as [Hin Hlt].
    apply andb_true_iff in Hin. destruct Hin as [_ Hge].
    apply Z.ltb_lt in Hlt. apply Z.geb_le in Hge.
    set (rel := c - (startChar + off)).
    set (relSpan := Flow.makeSegSpan (js_substring_from segText rel) ts (rel + off) startChar).
    destruct (Z.gtb_spec rel 0) as [Hrel|Hrel].
    + set (preSpan := Flow.makeSegSpan (js_substring segText 0 rel) ts off startChar).
      exists [preSpan; relSpan]. cbn [Flow.dom Flow.setDom Flow.setContext
        Flow.setCursorRendered Flow.appendSpan Flow.innerDiv Flow.context
        Flow.cursorRendered].
      split.
      { rewrite lineOf_appendSpanTo_eq
          by (rewrite length_lines_appendSpanTo; exact Hid).
        rewrite lineOf_appendSpanTo_eq by exact Hid.
        now rewrite <- app_assoc. }
      split.
      { intros id Hne. rewrite !lineOf_appendSpanTo_ne by congruence. reflexivity. }
      split; [reflexivity|]. split; [reflexivity|].
      split.
      { cbn [fold_right Flow.innerText relSpan preSpan Flow.makeSegSpan].
        rewrite append_empty.
        apply js_substring_split. }
      split; [repeat constructor|]. split; [reflexivity|].
      split; [|discriminate]. intros _. split; [reflexivity|].
      exists relSpan. split; [reflexivity|]. split; [reflexivity|].
      subst relSpan. rewrite spanStart_makeSegSpan by lia. subst rel. lia.
    + assert (rel = 0) by (subst rel; lia).
      exists [relSpan]. cbn [Flow.dom Flow.setDom Flow.setContext
        Flow.setCursorRendered Flow.appendSpan Flow.innerDiv Flow.context
        Flow.cursorRendered].
      split; [now apply lineOf_appendSpanTo_eq|].
      split; [intros id Hne; now rewrite lineOf_appendSpanTo_ne by congruence|].
      split; [reflexivity|]. split; [reflexivity|].
      split.
      { cbn [fold_right Flow.innerText relSpan Flow.makeSegSpan].
        replace rel with 0 by lia. rewrite js_substring_from_zero.
        apply append_empty. }
      split; [repeat constructor|]. split; [reflexivity|].
      split; [|discriminate]. intros _. split; [reflexivity|].
      exists relSpan. split; [reflexivity|]. split; [reflexivity|].
      subst relSpan. rewrite spanStart_makeSegSpan by lia. subst rel. lia.
  - exists [Flow.makeSegSpan segText ts off startChar].
    cbn [Flow.dom Flow.setDom Flow.appendSpan Flow.innerDiv Flow.context
         Flow.cursorRendered].
    split; [now apply lineOf_appendSpanTo_eq|].
    split; [intros id Hne; now rewrite lineOf_appendSpanTo_ne by congruence|].
    split; [reflexivity|]. split; [reflexivity|].
    split.
    { cbn [fold_right Flow.innerText Flow.makeSegSpan]. apply append_empty. }
    split; [repeat constructor|]. split; [reflexivity|].
    split; [discriminate|]. intros _. repeat split.
Qed.

Lemma segmentToSpan_splits_at_cursor_witness :
  exists new,
    Flow.lineOf (Flow.dom (Flow.segmentToSpan "hello " Examples.segHello 0 0 true
                             Cases.cursorAt3)) 0
    = Flow.lineOf (Flow.dom Cases.cursorAt3) 0 ++ new
    /\ fold_right (fun s acc => (Flow.innerText s ++ acc)%string) ""%string new
       = "hello "%string.
Proof.
  destruct (segmentToSpan_splits_at_cursor "hello " Examples.segHello 0 0 true
              Cases.cursorAt3 ltac:(vm_compute; lia) ltac:(lia))
    as [new [Hline [_ [_ [_ [Htext _]]]]]].
  exists new. split; [exact Hline | exact Htext].
Defined.

(** ** The top of the viewport *)

Section TopSegment.
Import Flow Props Navigation.

Lemma probeLoop_below (hit : Z -> option IRangeInfo) (start : Z) (ys : list Z) :
  forall off, off < start -> probeLoop hit start ys off < start.
Proof.
  induction ys as [|y ys IH]; intros off Hoff; simpl; [exact Hoff|].
  destruct (hit y) as [elmOff|]; [|exact Hoff].
  destruct (Z.ltb_spec (elmOffToSegOff elmOff) start); [now apply IH | exact Hoff].
Qed.

Lemma probeLoop_nonneg (hit : Z -> option IRangeInfo) (start : Z) (ys : list Z) :
  (forall y r, hit y = Some r -> 0 <= elmOffToSegOff r) ->
  forall off, 0 <= off -> 0 <= probeLoop hit start ys off.
Proof.
  intros Hhit. induction ys as [|y ys IH]; intros off Hoff; simpl; [exact Hoff|].
  destruct (hit y) as [elmOff|] eqn:E; [|exact Hoff].
  destruct (elmOffToSegOff elmOff <? start); [|exact Hoff].
  apply IH. now apply (Hhit y).
Qed.

Lemma trimTop_le (txt : string) (off : Z) : trimTop txt off <= off.
Proof.
  unfold trimTop. destruct (Z.geb_spec off 1); [|lia].
  destruct (trimTopFrom_spec txt (Z.to_nat off)) as [Hle _]. lia.
Qed.

Lemma trimTop_nonneg (txt : string) (off : Z) : 0 <= off -> 0 <= trimTop txt off.
Proof. unfold trimTop. intros H. destruct (off >=? 1); lia. Qed.

Lemma trimTop_after_space (txt : string) (off : Z) :
  1 <= trimTop txt off ->
  charCodeAt txt (trimTop txt off - 1) = Some CharacterCodes.space.
Proof.
  unfold trimTop. destruct (Z.geb_spec off 1) as [Hge|Hlt]; [|lia]. intros Hr.
  destruct (trimTopFrom_spec txt (Z.to_nat off)) as [_ [Hsp _]].
  apply Hsp. lia.
Qed.

Lemma probe_removed (d : Dom) (id : nat) (s : ISegSpan) :
  (id < List.length (lines d))%nat ->
  lineOf d id = [] ->
  removeSpanAt (appendSpanTo d id s) id 0 = d.
Proof.
  intros Hid Hl. unfold removeSpanAt. rewrite lineOf_appendSpanTo_eq by exact Hid.
  rewrite Hl. unfold appendSpanTo. cbn [children lines app delete list_delete].
  destruct d as [kids ls]. cbn [children lines] in *. f_equal.
  rewrite list_insert_insert_eq. apply list_insert_id.
  unfold lineOf in Hl. cbn [lines] in Hl.
  destruct (ls !! id) as [l|] eqn:E.
  - simpl in Hl. now subst.
  - apply lookup_ge_None in E. lia.
Qed.

End TopSegment.

(** X13.  [renderFirstSegment] on an empty line leaves no trace of its
    probe: the pass comes back as it went in.  The text it keeps is the
    text of the segment from [segOffset] on; [segOffset] lies before the
    requested start, and it is 0 or comes right after a space.  With
    caret offsets that are not negative it is not negative either. *)
Theorem renderFirstSegment_restores_line :
  forall (G : Flow.Geometry) (segPos0 start : Z) (txt : string)
         (ts : Flow.TextSegment) (p : Flow.Pass),
    (Flow.innerDiv p < List.length (Flow.lines (Flow.dom p)))%nat ->
    Flow.lineOf (Flow.dom p) (Flow.innerDiv p) = [] ->
    0 < start ->
    let result := Flow.renderFirstSegment G segPos0 start txt ts p in
    let segOffset := snd result in
    fst (fst result) = p
    /\ snd (fst result) = js_substring_from txt segOffset
    /\ (js_substring txt 0 segOffset ++ snd (fst result))%string = txt
    /\ segOffset < start
    /\ (1 <= segOffset -> charCodeAt txt (segOffset - 1) = Some CharacterCodes.space)
    /\ (Navigation.caretsNonNegative G -> 0 <= segOffset).
Proof.
  intros G segPos0 start txt ts p Hid Hl Hstart result segOffset.
  subst segOffset result. unfold Flow.renderFirstSegment. cbn [fst snd].
  split.
  { unfold Flow.segmentToSpan. cbn [andb].
    unfold Flow.appendSpan. cbn [Flow.dom Flow.setDom Flow.innerDiv].
    rewrite probe_removed by assumption. destruct p. reflexivity. }
  split; [reflexivity|]. split; [apply js_substring_split|].
  split.
  { eapply Z.le_lt_trans; [apply trimTop_le|]. apply probeLoop_below. exact Hstart. }
  split; [apply trimTop_after_space|].
  intros Hc. apply trimTop_nonneg. apply probeLoop_nonneg; [|lia].
  intros y r Hr. exact (Hc _ _ _ _ _ Hr).
Qed.

Lemma renderFirstSegment_restores_line_witness :
  snd (Flow.renderFirstSegment Examples.tenRows 50 40 (Flow.text Examples.segB)
         Examples.segB (Flow.startPass Examples.loadedAB)) < 40.
Proof.
  apply (renderFirstSegment_restores_line Examples.tenRows 50 40
           (Flow.text Examples.segB) Examples.segB (Flow.startPass Examples.loadedAB)).
  - unfold Flow.startPass, Flow.firstDiv. simpl. lia.
  - reflexivity.
  - lia.
Defined.

(** X14.  When the visitor meets a text segment that holds the requested
    start inside it ([start > 0]), the adjusted top offset it leaves is
    at or after [topChar - start] (the start of that segment, as the
    traversal calls the visitor) and before the top offset, and the
    cursor is not left before it.  When the segment starts at or after
    the requested start, the first text segment of the pass sets the
    adjusted top offset to the top offset, and a later one leaves it
    alone. *)
Theorem renderSegment_adjusts_top :
  forall (G : Flow.Geometry) (d : Flow.Doc) (ts : Flow.TextSegment)
         (segPos0 start stop : Z) (p p' : Flow.Pass) (go : bool),
    Flow.renderSegment G d (Flow.TextSeg ts) segPos0 start stop p = Some (p', go) ->
    let top := Flow.topChar (Flow.context p) in
    (0 < start ->
     exists a,
       Flow.adjustedTopChar (Flow.context p') = Some a
       /\ top - start <= a < top
       /\ a <= Flow.pos (Flow.cursor (Flow.context p')))
    /\ (start <= 0 -> Flow.firstSeg p = true ->
        Flow.adjustedTopChar (Flow.context p') = Some top)
    /\ (start <= 0 -> Flow.firstSeg p = false ->
        Flow.adjustedTopChar (Flow.context p')
        = Flow.adjustedTopChar (Flow.context p)).
Proof.
  intros G d ts segPos0 start stop p p' go H top.
  unfold Flow.renderSegment in H.
  set (p1 := if Flow.firstSeg p
                && Flow.notSameSegment ts (Flow.prevTopSegment (Flow.context p))
             then _ else p) in H.
  assert (Hp1 : Flow.topChar (Flow.context p1) = top
                /\ Flow.adjustedTopChar (Flow.context p1)
                   = Flow.adjustedTopChar (Flow.context p)
                /\ Flow.firstSeg p1 = Flow.firstSeg p).
  { subst p1. destruct (Flow.firstSeg p && _); repeat split. }
  destruct Hp1 as [Htop1 [Hadj1 Hfirst1]].
  (* the pass after the choice of the top offset *)
  match type of H with
  | match ?e with _ => _ end = _ => set (chosen := e) in H
  end.
  assert (Hlater : forall q segText segOffset,
             chosen = (q, segText, segOffset) ->
             Navigation.steady (Flow.context p') = Navigation.steady (Flow.context q)).
  { intros q segText segOffset Hq. rewrite Hq in H.
    set (p5 := Flow.segmentToSpan segText ts segOffset segPos0 true _) in H.
    assert (Hp5 : Navigation.steady (Flow.context p5) = Navigation.steady (Flow.context q)).
    { subst p5. rewrite segmentToSpan_steady. reflexivity. }
    set (p6 := if Flow.endsWithNewline segText then Flow.freshDiv p5 else p5) in H.
    assert (Hp6 : Navigation.steady (Flow.context p6) = Navigation.steady (Flow.context q)).
    { subst p6. destruct (Flow.endsWithNewline segText); exact Hp5. }
    destruct ((Flow.charLength p6 >? Flow.charsPerViewport G) || _).
    - apply overflowCheck_steady in H. congruence.
    - injection H as <- _. exact Hp6. }
  assert (Hread : forall q segText segOffset,
             chosen = (q, segText, segOffset) ->
             Flow.adjustedTopChar (Flow.context p') = Flow.adjustedTopChar (Flow.context q)
             /\ Flow.pos (Flow.cursor (Flow.context p')) = Flow.pos (Flow.cursor (Flow.context q))).
  { intros q segText segOffset Hq. pose proof (Hlater q segText segOffset Hq) as Hs.
    unfold Navigation.steady in Hs. injection Hs as _ ? ? _. now split. }
  clear H Hlater. subst chosen. split; [|split].
  - intros Hstart. destruct (Z.gtb_spec start 0); [|lia].
    destruct (Flow.splitTopSeg p1).
    + destruct (Flow.renderFirstSegment G segPos0 start (Flow.text ts) ts p1)
        as [[q segText] segOffset] eqn:Ef.
      pose proof (renderFirstSegment_context G segPos0 start (Flow.text ts) ts p1) as Hctx.
      rewrite Ef in Hctx. cbn [fst] in Hctx.
      assert (Hoff : segOffset < start /\ segText = js_substring_from (Flow.text ts) segOffset).
      { unfold Flow.renderFirstSegment in Ef. injection Ef as _ <- <-. split; [|reflexivity].
        eapply Z.le_lt_trans; [apply trimTop_le|]. apply probeLoop_below. lia. }
      destruct Hoff as [Hoff ->].
      match goal with
      | Hr : forall q0 s0 o0, ?lhs = _ -> _ |- _ =>
          destruct (Hr _ _ _ eq_refl) as [Ha Hp]
      end.
      cbn [Flow.context Flow.setContext] in Ha, Hp.
      rewrite strlen_js_substring_from in Ha, Hp. rewrite Hctx, Htop1 in Ha, Hp.
      pose proof (strlen_nonneg (Flow.text ts)) as Hn.
      set (a := top + (strlen (Flow.text ts)
                       - (strlen (Flow.text ts)
                          - Z.min (Z.max segOffset 0) (strlen (Flow.text ts))) - start)) in *.
      exists a. split.
      { rewrite Ha. destruct (_ <? a); reflexivity. }
      split; [subst a; lia|]. rewrite Hp.
      destruct (Z.ltb_spec (Flow.pos (Flow.cursor
                  (Flow.setAdjustedTopChar (Some a) (Flow.context p1)))) a) as [Hlt|Hge];
        [cbn; lia | exact Hge].
    + match goal with
      | Hr : forall q0 s0 o0, ?lhs = _ -> _ |- _ =>
          destruct (Hr _ _ _ eq_refl) as [Ha Hp]
      end.
      cbn [Flow.context Flow.setContext] in Ha, Hp. rewrite Htop1 in Ha, Hp.
      exists (top - start). split.
      { rewrite Ha. destruct (_ <? top - start); reflexivity. }
      split; [lia|]. rewrite Hp.
      destruct (Z.ltb_spec (Flow.pos (Flow.cursor
                  (Flow.setAdjustedTopChar (Some (top - start)) (Flow.context p1))))
                  (top - start)) as [Hlt|Hge];
        [cbn; lia | exact Hge].
  - intros Hstart Hfirst. destruct (Z.gtb_spec start 0); [lia|].
    rewrite Hfirst1, Hfirst in Hread.
    destruct (Hread _ _ _ eq_refl) as [Ha _]. rewrite Ha. cbn. now rewrite Htop1.
  - intros Hstart Hfirst. destruct (Z.gtb_spec start 0); [lia|].
    rewrite Hfirst1, Hfirst in Hread.
    destruct (Hread _ _ _ eq_refl) as [Ha _]. now rewrite Ha.
Qed.

Lemma renderSegment_adjusts_top_witness :
  exists a,
    Flow.adjustedTopChar (Flow.context (fst Cases.topStep)) = Some a
    /\ 25 - 25 <= a < 25
    /\ a <= Flow.pos (Flow.cursor (Flow.context (fst Cases.topStep))).
Proof.
  apply (proj1 (renderSegment_adjusts_top Examples.tenRows Examples.docAB
                  Examples.segA 0 25 100 Cases.topRequested (fst Cases.topStep)
                  (snd Cases.topStep) ltac:(vm_compute; reflexivity))).
  lia.
Defined.

(** ** Spans as slices of their segments *)

Section Slices.
Import Flow Props Navigation.

Lemma strlen_substring (n m : nat) (s : string) :
  strlen (String.substring n m s) = Z.of_nat (Nat.min m (String.length s - n)).
Proof. unfold strlen. now rewrite length_substring. Qed.

(** A part of a slice of [T] is a slice of [T]. *)
Lemma slice_of_slice (T piece : string) (a i j : Z) :
  0 <= a ->
  piece = js_substring T a (a + strlen piece) ->
  0 <= i <= j -> j <= strlen piece ->
  js_substring piece i j = js_substring T (a + i) (a + j)
  /\ strlen (js_substring piece i j) = j - i.
Proof.
  intros Ha Hpiece Hij Hj.
  pose proof (strlen_nonneg piece) as Hn.
  rewrite js_substring_nat in Hpiece by lia.
  assert (Hlen : strlen piece
                 = Z.of_nat (clampIndex T (a + strlen piece) - clampIndex T a)).
  { rewrite Hpiece at 1. rewrite strlen_substring.
    pose proof (clampIndex_le T (a + strlen piece)). lia. }
  rewrite !js_substring_nat by lia.
  destruct (Z_lt_ge_dec a (strlen T)) as [Hin|Hout].
  - assert (Hfit : a + strlen piece <= strlen T).
    { unfold clampIndex in Hlen. lia. }
    rewrite (clampIndex_inside piece i), (clampIndex_inside piece j) by lia.
    rewrite (clampIndex_inside T (a + i)), (clampIndex_inside T (a + j)) by lia.
    rewrite (clampIndex_inside T a), (clampIndex_inside T (a + strlen piece))
      in Hpiece by lia.
    rewrite Hpiece at 1 2.
    rewrite substring_substring by lia.
    replace (Z.to_nat a + Z.to_nat i)%nat with (Z.to_nat (a + i)) by lia.
    replace (Z.to_nat (a + j) - Z.to_nat (a + i))%nat
      with (Z.to_nat j - Z.to_nat i)%nat by lia.
    split; [reflexivity|]. rewrite strlen_substring. unfold strlen in *. lia.
  - assert (Hzero : strlen piece = 0) by (unfold clampIndex in Hlen; lia).
    assert (i = 0) by lia. assert (j = 0) by lia. subst i j.
    replace (clampIndex piece 0 - clampIndex piece 0)%nat with 0%nat by lia.
    replace (clampIndex T (a + 0) - clampIndex T (a + 0))%nat with 0%nat by lia.
    rewrite !substring_none. split; reflexivity.
Qed.

Lemma clampIndex_zero (T : string) : clampIndex T 0 = 0%nat.
Proof. unfold clampIndex, strlen. lia. Qed.

Lemma slice_whole (T : string) : T = js_substring T 0 (0 + strlen T).
Proof.
  unfold js_substring. rewrite clampIndex_zero.
  replace (clampIndex T (0 + strlen T)) with (String.length T)
    by (unfold clampIndex, strlen; lia).
  rewrite Nat.min_0_l, Nat.max_0_l, Nat.sub_0_r. now rewrite substring_zero_all.
Qed.

Lemma slice_from (T : string) (a : Z) :
  0 <= a ->
  js_substring_from T a = js_substring T a (a + strlen (js_substring_from T a)).
Proof.
  intros Ha. unfold js_substring_from at 1. unfold js_substring.
  replace (clampIndex T (a + strlen (js_substring_from T a)))
    with (clampIndex T (strlen T)); [reflexivity|].
  rewrite strlen_js_substring_from. unfold clampIndex, strlen. lia.
Qed.

Lemma slice_prefix (T : string) (c : Z) :
  0 <= c ->
  js_substring T 0 c = js_substring T 0 (0 + strlen (js_substring T 0 c)).
Proof.
  intros Hc.
  assert (Hlen : strlen (js_substring T 0 c) = Z.of_nat (clampIndex T c)).
  { rewrite js_substring_nat by lia. rewrite strlen_substring, clampIndex_zero.
    pose proof (clampIndex_le T c). lia. }
  rewrite Hlen. unfold js_substring.
  replace (clampIndex T (0 + Z.of_nat (clampIndex T c))) with (clampIndex T c);
    [reflexivity|].
  unfold clampIndex, strlen. lia.
Qed.

End Slices.

Section MonoCarets.
Import Flow.
Variables charW cols rows : Z.
Hypothesis cols_nonneg : 0 <= cols.

Lemma locate_nonneg (spans : Line) :
  forall (j : nat) (k : Z) (before : list DomNode) r,
    0 <= k ->
    Forall (fun n => 0 <= domNodeLength n) before ->
    Mono.locate spans j k before = Some r ->
    0 <= snd (fst r) /\ Forall (fun n => 0 <= domNodeLength n) (snd r).
Proof.
  induction spans as [|s rest IH]; intros j k before r Hk Hb H; simpl in H;
    [discriminate|].
  pose proof (strlen_nonneg (innerText s)) as Hn.
  destruct rest as [|s2 rest2].
  - injection H as <-. simpl. split; [lia | exact Hb].
  - destruct (Z.ltb_spec k (strlen (innerText s))).
    + injection H as <-. simpl. split; [lia | exact Hb].
    + apply IH in H; [exact H | lia |]. constructor; [exact Hn | exact Hb].
Qed.

Lemma chain_nonneg (chain : list DomNode) :
  forall acc, 0 <= acc -> Forall (fun n => 0 <= domNodeLength n) chain ->
    0 <= fold_left (fun off n => off + domNodeLength n) chain acc.
Proof.
  induction chain as [|n rest IH]; intros acc Ha Hc; simpl; [exact Ha|].
  inversion Hc; subst. apply IH; [lia | assumption].
Qed.

Lemma lineLen_nonneg (d : Dom) (id : nat) : 0 <= Mono.lineLen d id.
Proof.
  unfold Mono.lineLen. induction (lineOf d id) as [|s l IH]; simpl; [lia|].
  pose proof (strlen_nonneg (innerText s)). lia.
Qed.

Lemma mono_carets_nonneg :
  Navigation.caretsNonNegative (Mono.geometry charW cols rows).
Proof.
  intros d target x y r. cbn [caretRangeFromPoint Mono.geometry].
  unfold Mono.monoCaret.
  destruct (List.find _ (children d)) as [id|] eqn:Ef; [|discriminate].
  apply List.find_some in Ef. destruct Ef as [_ Ef].
  apply andb_true_iff in Ef. destruct Ef as [Htop _].
  apply Z.leb_le in Htop. cbn [top Mono.monoLineBounds] in Htop.
  set (k := Z.min _ (Mono.lineLen d id)).
  assert (Hk : 0 <= k).
  { subst k. pose proof (lineLen_nonneg d id).
    assert (0 <= (y - Mono.lineTop cols d id) / hEst)
      by (apply Z.div_pos; [lia | unfold hEst; lia]).
    assert (0 <= (y - Mono.lineTop cols d id) / hEst * cols) by nia.
    lia. }
  destruct (Mono.locate (lineOf d id) 0 k []) as [[[j within] before]|] eqn:El;
    [|discriminate].
  intros [= <-]. apply locate_nonneg in El; [|exact Hk|constructor].
  destruct El as [Hw Hb]. cbn [fst snd] in Hw, Hb.
  unfold elmOffToSegOff. cbn [nodePreviousSiblings elmIsSpan elmPreviousSiblings rangeOffset].
  destruct (negb _); apply chain_nonneg; try assumption; constructor.
Qed.

End MonoCarets.

Section Faithful.
Import Flow Props Navigation.
Variable d : Doc.

Lemma faithful_lineOf (dm : Dom) (id : nat) :
  faithfulDom d dm -> Forall (faithfulSpan d) (lineOf dm id).
Proof.
  intros H. unfold lineOf. destruct (lines dm !! id) as [l|] eqn:E; simpl.
  - exact (Forall_lookup_1 _ _ _ _ H E).
  - constructor.
Qed.

Lemma faithful_appendSpanTo (dm : Dom) (id : nat) (s : ISegSpan) :
  faithfulDom d dm -> faithfulSpan d s -> faithfulDom d (appendSpanTo dm id s).
Proof.
  intros H Hs. unfold faithfulDom, appendSpanTo. cbn [lines].
  apply Forall_insert; [exact H|]. apply Forall_app. split.
  - now apply faithful_lineOf.
  - now constructor.
Qed.

Lemma faithful_removeSpanAt (dm : Dom) (id i : nat) :
  faithfulDom d dm -> faithfulDom d (removeSpanAt dm id i).
Proof.
  intros H. unfold faithfulDom, removeSpanAt. cbn [lines].
  apply Forall_insert; [exact H|]. apply Forall_delete. now apply faithful_lineOf.
Qed.

Lemma faithful_freshDiv (p : Pass) :
  faithfulDom d (dom p) -> faithfulDom d (dom (freshDiv p)).
Proof.
  intros H. unfold freshDiv, appendNewLine, faithfulDom. cbn [dom setDom setInnerDiv lines].
  apply Forall_app. split; [exact H|]. repeat constructor.
Qed.

Lemma faithful_makeSegSpan (segText : string) (ts : TextSegment) (off startChar : Z) :
  0 <= off ->
  segText = js_substring (text ts) off (off + strlen segText) ->
  In (TextSeg ts) d ->
  faithfulSpan d (makeSegSpan segText ts off startChar).
Proof.
  intros Hoff Hs Hin. split; [|exact Hin].
  unfold sliceOfSegment, spanOffset, makeSegSpan. cbn [offset innerText seg].
  destruct (Z.gtb_spec off 0); simpl.
  - split; [lia | exact Hs].
  - replace off with 0 in Hs by lia. split; [lia | exact Hs].
Qed.

Lemma segmentToSpan_faithful (segText : string) (ts : TextSegment)
    (off startChar : Z) (rc : bool) (p : Pass) :
  0 <= off ->
  segText = js_substring (text ts) off (off + strlen segText) ->
  In (TextSeg ts) d ->
  faithfulDom d (dom p) ->
  faithfulDom d (dom (segmentToSpan segText ts off startChar rc p)).
Proof.
  intros Hoff Hs Hin Hd. unfold segmentToSpan.
  destruct (rc && (pos (cursor (context p)) >=? startChar + off)
            && (pos (cursor (context p)) <? startChar + off + strlen segText)) eqn:Hc.
  - apply andb_true_iff in Hc. destruct Hc as [Hc Hlt].
    apply andb_true_iff in Hc. destruct Hc as [_ Hge].
    apply Z.ltb_lt in Hlt. apply Z.geb_le in Hge.
    set (rel := pos (cursor (context p)) - (startChar + off)) in *.
    assert (Hrel : 0 <= rel < strlen segText) by (subst rel; lia).
    assert (Hr : faithfulSpan d (makeSegSpan (js_substring_from segText rel) ts
                                   (rel + off) startChar)).
    { apply faithful_makeSegSpan; [lia| |exact Hin].
      destruct (slice_of_slice (text ts) segText off rel (strlen segText)
                  Hoff Hs ltac:(lia) ltac:(lia)) as [He Hl].
      unfold js_substring_from. rewrite Hl, He. f_equal; lia. }
    cbn [dom setContext setDom setCursorRendered appendSpan innerDiv].
    destruct (Z.gtb_spec rel 0).
    + cbn [dom setDom appendSpan innerDiv].
      apply faithful_appendSpanTo; [|exact Hr].
      apply faithful_appendSpanTo; [exact Hd|].
      apply faithful_makeSegSpan; [exact Hoff| |exact Hin].
      destruct (slice_of_slice (text ts) segText off 0 rel
                  Hoff Hs ltac:(lia) ltac:(lia)) as [He Hl].
      rewrite Hl, He. f_equal; lia.
    + apply faithful_appendSpanTo; [exact Hd | exact Hr].
  - cbn [dom setDom appendSpan]. apply faithful_appendSpanTo; [exact Hd|].
    now apply faithful_makeSegSpan.
Qed.

Lemma renderFirstSegment_faithful (G : Geometry) (segPos0 start : Z)
    (ts : TextSegment) (p : Pass) :
  In (TextSeg ts) d ->
  faithfulDom d (dom p) ->
  faithfulDom d (dom (fst (fst (renderFirstSegment G segPos0 start (text ts) ts p)))).
Proof.
  intros Hin Hd. unfold renderFirstSegment. cbn [fst dom setDom].
  apply faithful_removeSpanAt.
  apply segmentToSpan_faithful; [lia|apply slice_whole|exact Hin|exact Hd].
Qed.

Lemma pruneLines_lines (G : Geometry) (constraint : Z) (cands : list nat) :
  forall (dm : Dom) (lp : option nat),
    lines (fst (pruneLines G constraint cands dm lp)) = lines dm.
Proof.
  induction cands as [|c cs IH]; intros dm lp; simpl; [reflexivity|].
  destruct (bottom (lineBounds G dm c) >? constraint); [|reflexivity].
  now rewrite IH.
Qed.

Lemma reinsertSpans_faithful (G : Geometry) (constraint : Z) (lp : nat) (n : nat) :
  forall (i : nat) (p : Pass) (ls : option TextSegment) (lo : Z) p' ls' lo',
    faithfulDom d (dom p) ->
    reinsertSpans G constraint lp n i p ls lo = Some (p', ls', lo') ->
    faithfulDom d (dom p').
Proof.
  induction n as [|n IH]; intros i p ls lo p' ls' lo' Hd H; simpl in H.
  - now injection H as <- _ _.
  - destruct (lineOf (dom p) lp !! i) as [sp|] eqn:Hi; [|now injection H as <- _ _].
    assert (Hsp : faithfulSpan d sp).
    { exact (Forall_lookup_1 _ _ _ _ (faithful_lineOf (dom p) lp Hd) Hi). }
    destruct (bottom (spanBounds G (dom p) lp i) <=? constraint).
    + apply IH in H; [exact H|]. cbn [dom setDom].
      apply faithful_appendSpanTo; [|exact Hsp]. now apply faithful_removeSpanAt.
    + destruct (constraint - top (spanBounds G (dom p) lp i) >? hEst);
        [|now injection H as <- _ _].
      destruct (lastFittingPoint _ _ _ _) as [x y].
      destruct (y >? 0); [|now injection H as <- _ _].
      destruct (caretRangeFromPoint G (dom p) (lp, i) x y); [|discriminate].
      injection H as <- _ _.
      destruct (Z.gtb_spec (clipBack (text (seg sp)) (elmOffToSegOff i0 + 1)) 0);
        [|exact Hd].
      apply segmentToSpan_faithful; [lia| |exact (proj2 Hsp)|exact Hd].
      apply slice_prefix. lia.
Qed.

Lemma overflowCheck_faithful (G : Geometry) (last : bool) (p p' : Pass) (b : bool) :
  faithfulDom d (dom p) ->
  overflowCheck G d last p = Some (p', b) ->
  faithfulDom d (dom p').
Proof.
  unfold overflowCheck. intros Hd H.
  destruct ((bottom (lineBounds G (dom p) (innerDiv p)) >? _) || last);
    [|now injection H as <- _].
  set (p1 := if 0 <? Z.of_nat (List.length (lineOf (dom p) (innerDiv p)))
             then freshDiv p else p) in *.
  assert (Hp1 : faithfulDom d (dom p1)).
  { subst p1. destruct (0 <? _); [now apply faithful_freshDiv | exact Hd]. }
  destruct (previousSiblings (children (dom p1)) (innerDiv p1) []) as [|c cs];
    [now injection H as <- _|].
  pose proof (pruneLines_lines G (height (bounds G) + top (bounds G)) (c :: cs)
                (dom p1) None) as Hl.
  destruct (pruneLines G _ (c :: cs) (dom p1) None) as [d1 [lp|]]; cbn [fst] in Hl.
  - match type of H with
    | match ?e with _ => _ end = _ => destruct e as [[[p4 ls] lo]|] eqn:E; [|discriminate]
    end.
    apply reinsertSpans_faithful in E.
    + destruct ls; injection H as <- _; exact E.
    + unfold faithfulDom. cbn [dom setDom appendChild lines]. rewrite Hl. exact Hp1.
  - injection H as <- _. unfold faithfulDom. cbn [dom setDom]. rewrite Hl. exact Hp1.
Qed.

Lemma renderSegment_faithful (G : Geometry) (s : Segment)
    (segPos0 start stop : Z) (p p' : Pass) (b : bool) :
  caretsNonNegative G ->
  In s d ->
  faithfulDom d (dom p) ->
  renderSegment G d s segPos0 start stop p = Some (p', b) ->
  faithfulDom d (dom p').
Proof.
  intros Hc Hin Hd. unfold renderSegment. destruct s as [ts|n]; [|now intros [= <- _]].
  set (p1 := if firstSeg p && notSameSegment ts (prevTopSegment (context p))
             then _ else p).
  assert (Hp1 : faithfulDom d (dom p1)).
  { subst p1. destruct (firstSeg p && _); exact Hd. }
  match goal with
  | |- match ?e with _ => _ end = _ -> _ =>
      assert (Hp2 : faithfulDom d (dom (fst (fst e)))
                    /\ 0 <= snd e
                    /\ snd (fst e)
                       = js_substring (text ts) (snd e) (snd e + strlen (snd (fst e))));
      [|destruct e as [[p2 segText] segOffset]]
  end.
  { destruct (start >? 0).
    - destruct (splitTopSeg p1).
      + pose proof (renderFirstSegment_faithful G segPos0 start ts p1 Hin Hp1) as Hf.
        assert (Hoff : 0 <= snd (renderFirstSegment G segPos0 start (text ts) ts p1)
                       /\ snd (fst (renderFirstSegment G segPos0 start (text ts) ts p1))
                          = js_substring_from (text ts)
                              (snd (renderFirstSegment G segPos0 start (text ts) ts p1))).
        { unfold renderFirstSegment. cbn [fst snd]. split; [|reflexivity].
          apply trimTop_nonneg. apply probeLoop_nonneg; [|lia].
          intros y r Hr. exact (Hc _ _ _ _ _ Hr). }
        destruct (renderFirstSegment G segPos0 start (text ts) ts p1) as [[q st] so].
        cbn [fst snd] in *. destruct Hoff as [Hso ->].
        split; [exact Hf|]. split; [exact Hso|]. now apply slice_from.
      + cbn [fst snd dom setContext]. split; [exact Hp1|]. split; [lia|].
        apply slice_whole.
    - destruct (firstSeg p1); cbn [fst snd dom setContext];
        (split; [exact Hp1|]; split; [lia | apply slice_whole]). }
  cbn [fst snd] in Hp2. destruct Hp2 as [Hp2 [Hoff Hslice]]. intros H.
  set (p5 := segmentToSpan segText ts segOffset segPos0 true _) in H.
  assert (Hp5 : faithfulDom d (dom p5)).
  { subst p5. apply segmentToSpan_faithful; assumption. }
  set (p6 := if endsWithNewline segText then freshDiv p5 else p5) in H.
  assert (Hp6 : faithfulDom d (dom p6)).
  { subst p6. destruct (endsWithNewline segText);
      [now apply faithful_freshDiv | exact Hp5]. }
  destruct ((charLength p6 >? charsPerViewport G) || _).
  - exact (overflowCheck_faithful G _ p6 p' b Hp6 H).
  - injection H as <- _. exact Hp6.
Qed.

Lemma nodeMap_faithful (G : Geometry) (segs : list Segment) :
  caretsNonNegative G ->
  (forall s, In s segs -> In s d) ->
  forall (at_ start stop : Z) (p p' : Pass),
    faithfulDom d (dom p) ->
    nodeMap (renderSegment G d) segs at_ start stop p = Some p' ->
    faithfulDom d (dom p').
Proof.
  intros Hc. induction segs as [|s rest IH]; intros Hsub at_ start stop p p' Hd H;
    simpl in H.
  - now injection H as <-.
  - assert (Hrest : forall x, In x rest -> In x d) by (intros x Hx; apply Hsub; now right).
    destruct ((stop >? 0) && (segLength s >? 0) && (start <? segLength s)).
    + destruct (renderSegment G d s at_ start stop p) as [[q go]|] eqn:E;
        [|discriminate].
      apply renderSegment_faithful in E; [|exact Hc|apply Hsub; now left|exact Hd].
      destruct go.
      * exact (IH Hrest _ _ _ q p' E H).
      * now injection H as <-.
    + exact (IH Hrest _ _ _ p p' Hd H).
Qed.

End Faithful.

(** X15.  Every span on the page a layout pass renders shows a part of a
    text segment of the sequence: its text is the text of its segment
    from the offset the span records, over the length of the span.  (The
    caret offsets the browser reports are not negative.) *)
Theorem rendered_spans_are_slices :
  forall (G : Flow.Geometry) (d : Flow.Doc) (start : Z) (v v' : Flow.FlowView),
    Navigation.caretsNonNegative G ->
    Flow.renderTree G d start v = Some v' ->
    Forall (Forall (fun s =>
                      In (Flow.TextSeg (Flow.seg s)) d
                      /\ 0 <= Navigation.spanOffset s
                      /\ Flow.innerText s
                         = js_substring (Flow.text (Flow.seg s)) (Navigation.spanOffset s)
                             (Navigation.spanOffset s + strlen (Flow.innerText s))))
      (Flow.viewportDiv v').
Proof.
  intros G d start v v' Hc H. unfold Flow.renderTree, Flow.renderTreePass in H.
  destruct (Flow.mapRange (Flow.renderSegment G d) d start (Flow.startPass v))
    as [p|] eqn:E; [|discriminate].
  injection H as <-. cbn [Flow.viewportDiv Flow.setViewportDiv].
  destruct (placeCursor_frame (Flow.settleViewportEnd p)) as [Hdom _]. rewrite Hdom.
  assert (Hsettle : Flow.dom (Flow.settleViewportEnd p) = Flow.dom p).
  { unfold Flow.settleViewportEnd. destruct (Flow.optLt _ 0); [|reflexivity].
    destruct (Flow.findLastChar (Flow.dom p) <? 0); reflexivity. }
  rewrite Hsettle. unfold Flow.mapRange in E.
  apply (nodeMap_faithful d G d Hc (fun s Hs => Hs)) in E.
  - unfold Flow.page. apply Forall_map. apply Forall_forall. intros id _.
    pose proof (faithful_lineOf d (Flow.dom p) id E) as Hl.
    eapply Forall_impl; [exact Hl|]. intros s [[Ho Hs] Hin]. repeat split; assumption.
  - repeat constructor.
Qed.

Lemma rendered_spans_are_slices_witness :
  Forall (Forall (fun s =>
                    In (Flow.TextSeg (Flow.seg s)) Examples.docAB
                    /\ 0 <= Navigation.spanOffset s
                    /\ Flow.innerText s
                       = js_substring (Flow.text (Flow.seg s)) (Navigation.spanOffset s)
                           (Navigation.spanOffset s + strlen (Flow.innerText s))))
    (Flow.viewportDiv Cases.splitView).
Proof.
  apply (rendered_spans_are_slices Examples.tenRows Examples.docAB 25
           (Flow.clearSubtree (Flow.setTopChar 25 Examples.loadedAB))).
  - apply mono_carets_nonneg. lia.
  - vm_compute. reflexivity.
Defined.

(** ** What a pass counts *)

Section Counting.
Import Flow Props Navigation.

Lemma segmentToSpan_counted (segText : string) (ts : TextSegment)
    (off startChar : Z) (rc : bool) (p : Pass) :
  charLength (segmentToSpan segText ts off startChar rc p) = charLength p
  /\ firstSeg (segmentToSpan segText ts off startChar rc p) = firstSeg p.
Proof.
  unfold segmentToSpan.
  destruct (rc && (pos (cursor (context p)) >=? startChar + off)
            && (pos (cursor (context p)) <? startChar + off + strlen segText));
    [|split; reflexivity].
  destruct (pos (cursor (context p)) - (startChar + off) >? 0); split; reflexivity.
Qed.

Lemma freshDiv_counted (p : Pass) :
  charLength (freshDiv p) = charLength p /\ firstSeg (freshDiv p) = firstSeg p.
Proof. split; reflexivity. Qed.

Lemma reinsertSpans_counted (G : Geometry) (constraint : Z) (lp : nat) (n : nat) :
  forall (i : nat) (p : Pass) (ls : option TextSegment) (lo : Z) p' ls' lo',
    reinsertSpans G constraint lp n i p ls lo = Some (p', ls', lo') ->
    charLength p' = charLength p /\ firstSeg p' = firstSeg p.
Proof.
  induction n as [|n IH]; intros i p ls lo p' ls' lo' H; simpl in H.
  - injection H as <- _ _. split; reflexivity.
  - destruct (lineOf (dom p) lp !! i) as [sp|];
      [|injection H as <- _ _; split; reflexivity].
    destruct (bottom (spanBounds G (dom p) lp i) <=? constraint).
    + apply IH in H. exact H.
    + destruct (constraint - top (spanBounds G (dom p) lp i) >? hEst);
        [|injection H as <- _ _; split; reflexivity].
      destruct (lastFittingPoint _ _ _ _) as [x y].
      destruct (y >? 0); [|injection H as <- _ _; split; reflexivity].
      destruct (caretRangeFromPoint G (dom p) (lp, i) x y); [|discriminate].
      injection H as <- _ _.
      destruct (clipBack (text (seg sp)) (elmOffToSegOff i0 + 1) >? 0);
        [apply segmentToSpan_counted | split; reflexivity].
Qed.

Lemma overflowCheck_counted (G : Geometry) (d : Doc) (last : bool) (p p' : Pass)
    (b : bool) :
  overflowCheck G d last p = Some (p', b) ->
  charLength p' = charLength p /\ firstSeg p' = firstSeg p.
Proof.
  unfold overflowCheck. intros H.
  destruct ((bottom (lineBounds G (dom p) (innerDiv p)) >? _) || last);
    [|injection H as <- _; split; reflexivity].
  set (p1 := if 0 <? Z.of_nat (List.length (lineOf (dom p) (innerDiv p)))
             then freshDiv p else p) in *.
  assert (Hp1 : charLength p1 = charLength p /\ firstSeg p1 = firstSeg p).
  { subst p1. destruct (0 <? _); split; reflexivity. }
  destruct (previousSiblings (children (dom p1)) (innerDiv p1) []) as [|c cs];
    [injection H as <- _; exact Hp1|].
  destruct (pruneLines G _ (c :: cs) (dom p1) None) as [d1 [lp|]].
  - match type of H with
    | match ?e with _ => _ end = _ => destruct e as [[[p4 ls] lo]|] eqn:E; [|discriminate]
    end.
    apply reinsertSpans_counted in E. cbn [charLength firstSeg setDom] in E.
    destruct ls; injection H as <- _; cbn [charLength firstSeg setDom setContext];
      destruct E, Hp1; split; congruence.
  - injection H as <- _. exact Hp1.
Qed.

Lemma steady_top (v v' : FlowView) :
  steady v = steady v' ->
  topChar v = topChar v' /\ adjustedTopChar v = adjustedTopChar v'.
Proof.
  unfold steady, settings. intros H. injection H. intros. split; assumption.
Qed.

(** A visit of a text segment: what it adds to the count, and the
    adjusted top offset it leaves. *)
Lemma renderSegment_visit (G : Geometry) (d : Doc) (ts : TextSegment)
    (segPos0 start stop : Z) (p p' : Pass) (go : bool) :
  renderSegment G d (TextSeg ts) segPos0 start stop p = Some (p', go) ->
  let probed := (start >? 0) && splitTopSeg p
                && negb (firstSeg p && notSameSegment ts (prevTopSegment (context p))) in
  let kept := if probed
              then snd (fst (renderFirstSegment G segPos0 start (text ts) ts p))
              else text ts in
  firstSeg p' = false
  /\ charLength p' = charLength p + strlen kept
  /\ topChar (context p') = topChar (context p)
  /\ adjustedTopChar (context p')
     = if start >? 0
       then Some (topChar (context p) + (strlen (text ts) - strlen kept - start))
       else if firstSeg p then Some (topChar (context p))
            else adjustedTopChar (context p).
Proof.
  intros H probed kept. unfold renderSegment in H.
  match type of H with
  | match ?e with _ => _ end = _ => set (chosen := e) in H
  end.
  assert (Htail : forall q segText segOffset,
             chosen = (q, segText, segOffset) ->
             firstSeg p' = false
             /\ charLength p' = charLength q + strlen segText
             /\ topChar (context p') = topChar (context q)
             /\ adjustedTopChar (context p') = adjustedTopChar (context q)).
  { intros q segText segOffset Hq. rewrite Hq in H.
    set (p5 := segmentToSpan segText ts segOffset segPos0 true _) in H.
    assert (Hp5 : firstSeg p5 = false
                  /\ charLength p5 = charLength q + strlen segText
                  /\ steady (context p5) = steady (context q)).
    { subst p5.
      match goal with
      | |- context [segmentToSpan ?a ?b ?c ?e ?f ?g] =>
          destruct (segmentToSpan_counted a b c e f g) as [Hc Hf];
          pose proof (segmentToSpan_steady a b c e f g) as Hs
      end.
      rewrite Hc, Hf, Hs. repeat split. }
    set (p6 := if endsWithNewline segText then freshDiv p5 else p5) in H.
    assert (Hp6 : firstSeg p6 = false
                  /\ charLength p6 = charLength q + strlen segText
                  /\ steady (context p6) = steady (context q)).
    { subst p6. destruct (endsWithNewline segText); exact Hp5. }
    destruct Hp6 as [H1 [H2 H3]].
    assert (Hend : firstSeg p' = firstSeg p6 /\ charLength p' = charLength p6
                   /\ steady (context p') = steady (context p6)).
    { destruct ((charLength p6 >? charsPerViewport G) || _).
      - pose proof (overflowCheck_counted _ _ _ _ _ _ H) as [Hc Hf].
        apply overflowCheck_steady in H. repeat split; assumption.
      - injection H as <- _. repeat split. }
    destruct Hend as [E1 [E2 E3]]. rewrite H3 in E3. apply steady_top in E3.
    destruct E3 as [Ht Ha]. repeat split; congruence. }
  clear H. subst chosen probed kept.
  destruct (firstSeg p && notSameSegment ts (prevTopSegment (context p))) eqn:Hc;
    destruct (Z.gtb_spec start 0) as [Hs|Hs];
    destruct (splitTopSeg p) eqn:Hsp;
    cbn [andb negb splitTopSeg setSplitTopSeg setContext firstSeg context] in *.
  all: try (destruct (firstSeg p) eqn:Hf; [|discriminate Hc]).
  all: unfold renderFirstSegment in *; cbn [fst snd] in *.
  all: try match goal with
       | Hr : context [if firstSeg ?x then _ else _] |- _ => destruct (firstSeg x)
       end.
  all: match goal with
       | Hr : forall q0 s0 o0, ?lhs = _ -> _ |- _ =>
           destruct (Hr _ _ _ eq_refl) as [H1 [H2 [H3 H4]]]; clear Hr
       end.
  all: split; [exact H1|]; split; [rewrite H2; reflexivity|].
  all: rewrite H3, H4; cbn [context setContext].
  all: repeat match goal with
         | |- context [if ?c then _ else _] => destruct c
         end.
  all: cbn [topChar adjustedTopChar setCursorPos setCursor setAdjustedTopChar
            setPrevTopSegment].
  all: try (split; reflexivity).
  all: split; [reflexivity|]; f_equal; lia.
Qed.


Lemma getLength_take_S (s : Segment) (rest : Doc) (k : nat) :
  getLength (take (S k) (s :: rest)) = segLength s + getLength (take k rest).
Proof. reflexivity. Qed.

Lemma getLength_take_0 (segs : Doc) : getLength (take 0 segs) = 0.
Proof. reflexivity. Qed.

Lemma getLength_text_nonneg (segs : Doc) :
  Forall (fun s => exists ts, s = TextSeg ts) segs -> 0 <= getLength segs.
Proof.
  induction 1 as [|s rest [ts ->] _ IH]; simpl; [lia|].
  pose proof (strlen_nonneg (text ts)). lia.
Qed.

(** Once a text segment has been visited, every later one that is not
    empty is visited whole, until the visitor stops the traversal. *)
Lemma nodeMap_counts_on (G : Geometry) (d0 : Doc) (segs : Doc) :
  Forall (fun s => exists ts, s = TextSeg ts) segs ->
  forall (at_ st stop : Z) (p p' : Pass),
    st <= 0 ->
    getLength segs <= stop ->
    firstSeg p = false ->
    nodeMap (renderSegment G d0) segs at_ st stop p = Some p' ->
    firstSeg p' = false
    /\ topChar (context p') = topChar (context p)
    /\ adjustedTopChar (context p') = adjustedTopChar (context p)
    /\ exists k, (k <= List.length segs)%nat
                 /\ charLength p' = charLength p + getLength (take k segs).
Proof.
  induction 1 as [|s rest [ts ->] Hrest IH]; intros at_ st stop p p' Hst Hstop Hf H.
  - simpl in H. injection H as <-. repeat split; try assumption.
    exists O. split; [simpl; lia|]. simpl. lia.
  - pose proof (strlen_nonneg (text ts)) as Hn.
    pose proof (getLength_text_nonneg rest Hrest) as Hr.
    cbn [nodeMap segLength] in H. cbn [getLength fold_right segLength] in Hstop.
    fold (getLength rest) in Hstop.
    destruct ((stop >? 0) && (strlen (text ts) >? 0) && (st <? strlen (text ts))) eqn:Hc.
    + destruct (renderSegment G d0 (TextSeg ts) at_ st stop p) as [[q go]|] eqn:E;
        [|discriminate].
      apply renderSegment_visit in E. cbv zeta in E.
      destruct (Z.gtb_spec st 0) as [|_]; [lia|]. cbn [andb] in E. rewrite Hf in E.
      destruct E as [Eq1 [Eq2 [Eq3 Eq4]]].
      destruct go.
      * apply IH in H; [|lia|lia|exact Eq1].
        destruct H as [H1 [H2 [H3 [k [Hk H4]]]]].
        split; [exact H1|]. split; [congruence|]. split; [congruence|].
        exists (S k). split; [simpl; lia|].
        rewrite getLength_take_S. cbn [segLength]. lia.
      * injection H as <-. split; [exact Eq1|]. split; [exact Eq3|].
        split; [exact Eq4|]. exists 1%nat. split; [simpl; lia|].
        rewrite getLength_take_S, getLength_take_0. cbn [segLength]. lia.
    + assert (Hz : strlen (text ts) = 0).
      { apply andb_false_iff in Hc. destruct Hc as [Hc|Hc].
        - apply andb_false_iff in Hc. destruct Hc as [Hc|Hc].
          + destruct (Z.gtb_spec stop 0); [discriminate|]. lia.
          + destruct (Z.gtb_spec (strlen (text ts)) 0); [discriminate|]. lia.
        - destruct (Z.ltb_spec st (strlen (text ts))); [discriminate|]. lia. }
      apply IH in H; [|lia|lia|exact Hf].
      destruct H as [H1 [H2 [H3 [k [Hk H4]]]]].
      split; [exact H1|]. split; [exact H2|]. split; [exact H3|].
      exists (S k). split; [simpl; lia|].
      rewrite getLength_take_S. cbn [segLength]. lia.
Qed.

(** From the start of a pass: the segments before the requested start
    are skipped, the first one visited sets the adjusted top offset. *)
Lemma nodeMap_counts_from (G : Geometry) (d0 : Doc) (segs : Doc) :
  Forall (fun s => exists ts, s = TextSeg ts) segs ->
  forall (at_ st stop : Z) (p p' : Pass),
    0 <= st ->
    getLength segs <= stop ->
    firstSeg p = true ->
    nodeMap (renderSegment G d0) segs at_ st stop p = Some p' ->
    p' = p
    \/ exists a k,
         (k <= List.length segs)%nat
         /\ adjustedTopChar (context p') = Some a
         /\ a + charLength p'
            = charLength p + topChar (context p) - st + getLength (take k segs).
Proof.
  induction 1 as [|s rest [ts ->] Hrest IH]; intros at_ st stop p p' Hst Hstop Hf H.
  - simpl in H. injection H as <-. now left.
  - pose proof (strlen_nonneg (text ts)) as Hn.
    pose proof (getLength_text_nonneg rest Hrest) as Hr.
    cbn [nodeMap segLength] in H. cbn [getLength fold_right segLength] in Hstop.
    fold (getLength rest) in Hstop.
    destruct ((stop >? 0) && (strlen (text ts) >? 0) && (st <? strlen (text ts))) eqn:Hc.
    + right.
      apply andb_true_iff in Hc. destruct Hc as [_ Hlt]. apply Z.ltb_lt in Hlt.
      destruct (renderSegment G d0 (TextSeg ts) at_ st stop p) as [[q go]|] eqn:E;
        [|discriminate].
      apply renderSegment_visit in E. cbv zeta in E. rewrite Hf in E.
      destruct E as [Eq1 [Eq2 [Eq3 Eq4]]].
      set (kept := if (st >? 0) && splitTopSeg p
                      && negb (true && notSameSegment ts (prevTopSegment (context p)))
                   then snd (fst (renderFirstSegment G at_ st (text ts) ts p))
                   else text ts) in *.
      assert (Hq : exists a, adjustedTopChar (context q) = Some a
                             /\ a + charLength q
                                = charLength p + topChar (context p) - st
                                  + strlen (text ts)).
      { destruct (Z.gtb_spec st 0) as [Hpos|Hzero].
        - eexists. split; [exact Eq4|]. lia.
        - exists (topChar (context p)). split; [exact Eq4|].
          subst kept. cbn [andb] in Eq2. lia. }
      destruct Hq as [a [Ha Hsum]].
      destruct go.
      * apply nodeMap_counts_on in H; [|exact Hrest|lia|lia|exact Eq1].
        destruct H as [_ [_ [H3 [k [Hk H4]]]]].
        exists a, (S k). split; [simpl; lia|]. split; [congruence|].
        rewrite getLength_take_S. cbn [segLength]. lia.
      * injection H as <-. exists a, 1%nat. split; [simpl; lia|].
        split; [exact Ha|].
        rewrite getLength_take_S, getLength_take_0. cbn [segLength]. lia.
    + assert (Hskip : 0 <= st - strlen (text ts)).
      { apply andb_false_iff in Hc. destruct Hc as [Hc|Hc].
        - apply andb_false_iff in Hc. destruct Hc as [Hc|Hc].
          + destruct (Z.gtb_spec stop 0); [discriminate|]. lia.
          + destruct (Z.gtb_spec (strlen (text ts)) 0); [discriminate|]. lia.
        - destruct (Z.ltb_spec st (strlen (text ts))); [discriminate|]. lia. }
      apply IH in H; [|exact Hskip|lia|exact Hf].
      destruct H as [->|[a [k [Hk [Ha Hsum]]]]]; [now left|right].
      exists a, (S k). split; [simpl; lia|]. split; [exact Ha|].
      rewrite getLength_take_S. cbn [segLength]. lia.
Qed.

End Counting.

(** C7, as the code has it.  If the traversal leaves no span on the page
    for [findLastChar] and no pruning has fixed [viewportEndChar], the
    pass raises no failure past the traversal, keeps the page and sets
    [viewportEndChar] to [adjustedTopChar + charLength].  [charLength]
    grows at every visit of a text segment by the length of the text
    kept of it, rendered or pruned: the whole text, or, for a top
    segment that is rendered from a probed offset, the text from that
    offset on; a visit of another segment leaves the pass alone.  On a
    sequence of text segments and a start that is not negative, the sum
    [adjustedTopChar + charLength] after the traversal is the offset at
    which one of the segments ends (the last one visited), moved by
    [topChar - start].  On an empty document the traversal raises no
    failure, no character is counted and the page is one empty line. *)
Theorem viewport_end_without_spans :
  forall (G : Flow.Geometry),
    (forall (start : Z) (v : Flow.FlowView) (d : Flow.Doc) (p : Flow.Pass) (a : Z),
        Flow.mapRange (Flow.renderSegment G d) d start (Flow.startPass v) = Some p ->
        Flow.optLt (Flow.viewportEndChar (Flow.context p)) 0 = true ->
        Flow.findLastChar (Flow.dom p) < 0 ->
        Flow.adjustedTopChar (Flow.context p) = Some a ->
        exists q,
          Flow.renderTreePass G d start v = Some q
          /\ Flow.viewportEndChar (Flow.context q) = Some (Flow.charLength p + a)
          /\ Flow.charLength q = Flow.charLength p
          /\ Flow.page (Flow.dom q) = Flow.page (Flow.dom p))
    /\ (forall (d : Flow.Doc) (ts : Flow.TextSegment) (segPos0 start stop : Z)
               (p p' : Flow.Pass) (go : bool),
           Flow.renderSegment G d (Flow.TextSeg ts) segPos0 start stop p
           = Some (p', go) ->
           let probed :=
             (start >? 0) && Flow.splitTopSeg p
             && negb (Flow.firstSeg p
                      && Flow.notSameSegment ts
                           (Flow.prevTopSegment (Flow.context p))) in
           let segOffset :=
             snd (Flow.renderFirstSegment G segPos0 start (Flow.text ts) ts p) in
           Flow.charLength p'
           = Flow.charLength p
             + strlen (if probed then js_substring_from (Flow.text ts) segOffset
                       else Flow.text ts))
    /\ (forall (d : Flow.Doc) (n segPos0 start stop : Z) (p : Flow.Pass),
           Flow.renderSegment G d (Flow.OtherSeg n) segPos0 start stop p
           = Some (p, true))
    /\ (forall (d : Flow.Doc) (start : Z) (v : Flow.FlowView) (p : Flow.Pass),
           (forall s, In s d -> exists ts, s = Flow.TextSeg ts) ->
           0 <= start ->
           Flow.mapRange (Flow.renderSegment G d) d start (Flow.startPass v) = Some p ->
           p = Flow.startPass v
           \/ exists a k,
                (k <= List.length d)%nat
                /\ Flow.adjustedTopChar (Flow.context p) = Some a
                /\ a + Flow.charLength p
                   = Flow.topChar v - start + Flow.getLength (take k d))
    /\ (forall (start : Z) (v : Flow.FlowView),
           exists q,
             Flow.renderTreePass G [] start v = Some q
             /\ Flow.charLength q = 0
             /\ Flow.page (Flow.dom q) = [[]]).
Proof.
  intros G. split; [|split; [|split; [|split]]].
  - intros start v d p a Hmap Hneg Hlast Hadj.
    exists (Flow.placeCursor (Flow.settleViewportEnd p)).
    split; [exact (renderTreePass_steps G d start v p Hmap)|].
    destruct (placeCursor_frame (Flow.settleViewportEnd p))
      as [Hdom [Hlen [Hend _]]].
    rewrite Hdom, Hlen, Hend. unfold Flow.settleViewportEnd. rewrite Hneg.
    destruct (Z.ltb_spec (Flow.findLastChar (Flow.dom p)) 0); [|lia].
    simpl. rewrite Hadj. repeat split.
  - intros d ts segPos0 start stop p p' go H probed segOffset.
    apply renderSegment_visit in H. destruct H as [_ [H _]]. exact H.
  - reflexivity.
  - intros d start v p Htext Hstart H. unfold Flow.mapRange in H.
    apply nodeMap_counts_from in H.
    + destruct H as [->|[a [k [Hk [Ha Hsum]]]]]; [now left|right].
      exists a, k. split; [exact Hk|]. split; [exact Ha|].
      cbn [Flow.charLength Flow.startPass Flow.context Flow.topChar
           Flow.setViewportEndChar] in Hsum. lia.
    + apply Forall_forall. intros s Hs. apply Htext.
      now apply list_elem_of_In.
    + exact Hstart.
    + lia.
    + reflexivity.
  - intros start v.
    exists (Flow.placeCursor (Flow.settleViewportEnd (Flow.startPass v))).
    split; [apply renderTreePass_steps, mapRange_empty|].
    destruct (placeCursor_frame (Flow.settleViewportEnd (Flow.startPass v)))
      as [Hdom [Hlen _]].
    rewrite Hdom, Hlen. unfold Flow.settleViewportEnd. simpl.
    destruct (Flow.adjustedTopChar v); split; reflexivity.
Qed.

Lemma viewport_end_without_spans_witness :
  (exists q,
      Flow.renderTreePass Examples.collapsed Examples.docHello 8
        (Flow.clearSubtree (Flow.setTopChar 8 Examples.loadedCollapsed)) = Some q
      /\ Flow.viewportEndChar (Flow.context q)
         = Some (Flow.charLength Examples.collapsedTraversed + 6)
      /\ Flow.charLength q = Flow.charLength Examples.collapsedTraversed
      /\ Flow.page (Flow.dom q) = Flow.page (Flow.dom Examples.collapsedTraversed))
  /\ (Examples.collapsedTraversed
      = Flow.startPass (Flow.clearSubtree (Flow.setTopChar 8 Examples.loadedCollapsed))
      \/ exists a k,
           (k <= List.length Examples.docHello)%nat
           /\ Flow.adjustedTopChar (Flow.context Examples.collapsedTraversed) = Some a
           /\ a + Flow.charLength Examples.collapsedTraversed
              = Flow.topChar (Flow.clearSubtree
                                (Flow.setTopChar 8 Examples.loadedCollapsed))
                - 8 + Flow.getLength (take k Examples.docHello)).
Proof.
  split.
  - apply (proj1 (viewport_end_without_spans Examples.collapsed) 8
             (Flow.clearSubtree (Flow.setTopChar 8 Examples.loadedCollapsed))
             Examples.docHello Examples.collapsedTraversed 6).
    + vm_compute. reflexivity.
    + vm_compute. reflexivity.
    + vm_compute. reflexivity.
    + vm_compute. reflexivity.
  - apply (proj1 (proj2 (proj2 (proj2 (viewport_end_without_spans Examples.collapsed))))
             Examples.docHello 8
             (Flow.clearSubtree (Flow.setTopChar 8 Examples.loadedCollapsed))
             Examples.collapsedTraversed).
    + intros s [<-|[<-|[]]]; eexists; reflexivity.
    + lia.
    + vm_compute. reflexivity.
Defined.

(** A top segment of fifty characters that is rendered from the probed
    offset 20 counts thirty. *)
Lemma split_top_segment_counts_kept_text :
  Flow.renderSegment Examples.tenRows Examples.docAB (Flow.TextSeg Examples.segA)
    0 25 100 Cases.topRequested = Some Cases.topStep
  /\ snd (Flow.renderFirstSegment Examples.tenRows 0 25 (Flow.text Examples.segA)
            Examples.segA Cases.topRequested) = 20
  /\ Flow.charLength Cases.topRequested = 0
  /\ Flow.charLength (fst Cases.topStep) = 30.
Proof.
  split; [vm_compute; reflexivity|]. split; [vm_compute; reflexivity|].
  split; reflexivity.
Qed.
